(** * ClipAI orchestration core: credit ledger, transaction coordinator,
      job orchestrator and status read model

    A shallow embedding of
      - [server/src/services/creditService.ts]   (class [CreditService]),
      - [server/src/database/transaction.ts]     (class [DatabaseTransaction]),
      - [server/src/routes/video.ts]             (POST and GET [/process/:id]),
      - the cleanup helpers and [sanitizeFilename] of
        [server/src/services/fileManager.ts],
      - the handler of uncaught exceptions of
        [server/src/middleware/errorHandler.ts],
    over an explicit model of the SQLite connection they share.

    Asynchronous functions are computations in a state-and-exception monad
    over [World]; every [await] on a [db.get] / [db.run] / [db.all] callback
    is one atomic call on the connection.  A computation ends by returning,
    by throwing, or with the end of the process. *)

From stdpp Require Import gmap strings list pretty.
From Stdlib Require Import Ascii ZArith QArith Lia Sorted Permutation.

Local Open Scope string_scope.
Local Open Scope Z_scope.

(* ===================================================================== *)
(** * JavaScript values *)
(* ===================================================================== *)

(** An [Error] object: [new Error(m)] has no status code,
    [new HttpError(m, c)] carries one. *)
Record Error := mkError {
  message : string;
  statusCode : option Z
}.

Definition new_Error (m : string) : Error := mkError m None.
Definition new_HttpError (m : string) (c : Z) : Error := mkError m (Some c).

(** Truthiness of an optional number ([undefined], [0] are falsy) and of an
    optional string ([undefined], [null], [''] are falsy). *)
Definition truthy_num (n : option Z) : bool :=
  match n with
  | Some v => negb (v =? 0)
  | None => false
  end.

Definition truthy_str (s : option string) : bool :=
  match s with
  | Some v => negb (String.eqb v "")
  | None => false
  end.

(** [a || b] on an optional string. *)
Definition or_default (s : option string) (d : string) : string :=
  match s with
  | Some v => if String.eqb v "" then d else v
  | None => d
  end.

(** The white space and line terminators of ECMAScript, by code point:
    what [\s] matches and what [String.prototype.trim] strips. *)
Definition is_white_space (c : Z) : bool :=
  ((9 <=? c) && (c <=? 13)) || (c =? 32) || (c =? 0xA0) || (c =? 0x1680)
  || ((0x2000 <=? c) && (c <=? 0x200A)) || (c =? 0x2028) || (c =? 0x2029)
  || (c =? 0x202F) || (c =? 0x205F) || (c =? 0x3000) || (c =? 0xFEFF).

(** Values bound to the [?] place-holders of a statement. *)
Inductive SqlValue :=
| VNull
| VInt (n : Z)
| VReal (q : Q)
| VText (s : string).

(* ===================================================================== *)
(** * The store ([database/init.ts]) *)
(* ===================================================================== *)

(** [users]: the columns the orchestration core reads and writes. *)
Record UserRow := mkUserRow {
  u_credits : Z;
  u_is_subscribed : Z;
  u_subscription_expires_at : option string
}.

Record VideoRow := mkVideoRow {
  v_original_filename : string;
  v_file_path : string;
  v_file_size : Z;
  v_mime_type : string
}.

(** [processing_results]: one row per job. *)
Record JobRow := mkJobRow {
  pr_video_id : Z;
  pr_user_id : option Z;
  pr_status : string;
  pr_progress : Z;
  pr_error_message : option string
}.

Record ClipRow := mkClipRow {
  hc_id : Z;
  hc_processing_result_id : Z;
  hc_title : string;
  hc_file_path : string;
  hc_thumbnail_path : option string;
  hc_duration : Q;
  hc_start_time : Q;
  hc_end_time : Q;
  hc_confidence_score : Q
}.

Record ThumbRow := mkThumbRow {
  th_id : Z;
  th_processing_result_id : Z;
  th_file_path : string;
  th_timestamp : Q;
  th_width : Z;
  th_height : Z
}.

Record CaptionRow := mkCaptionRow {
  cp_id : Z;
  cp_processing_result_id : Z;
  cp_platform : string;
  cp_content : string;
  cp_hashtags : option string
}.

(** The tables.  Keyed tables are maps from the primary key; the derived
    tables are kept in rowid order.  [seq_*] are the AUTOINCREMENT
    counters of [sqlite_sequence]. *)
Record Tables := mkTables {
  users : gmap Z UserRow;
  videos : gmap Z VideoRow;
  processing_results : gmap Z JobRow;
  seq_processing_results : Z;
  highlight_clips : list ClipRow;
  seq_highlight_clips : Z;
  thumbnails : list ThumbRow;
  seq_thumbnails : Z;
  captions : list CaptionRow;
  seq_captions : Z
}.

Definition set_users (f : gmap Z UserRow -> gmap Z UserRow) (t : Tables) : Tables :=
  mkTables (f (users t)) (videos t) (processing_results t)
    (seq_processing_results t) (highlight_clips t) (seq_highlight_clips t)
    (thumbnails t) (seq_thumbnails t) (captions t) (seq_captions t).

Definition set_processing_results (f : gmap Z JobRow -> gmap Z JobRow) (s : Z)
    (t : Tables) : Tables :=
  mkTables (users t) (videos t) (f (processing_results t)) s
    (highlight_clips t) (seq_highlight_clips t)
    (thumbnails t) (seq_thumbnails t) (captions t) (seq_captions t).

Definition set_highlight_clips (l : list ClipRow) (s : Z) (t : Tables) : Tables :=
  mkTables (users t) (videos t) (processing_results t)
    (seq_processing_results t) l s
    (thumbnails t) (seq_thumbnails t) (captions t) (seq_captions t).

Definition set_thumbnails (l : list ThumbRow) (s : Z) (t : Tables) : Tables :=
  mkTables (users t) (videos t) (processing_results t)
    (seq_processing_results t) (highlight_clips t) (seq_highlight_clips t)
    l s (captions t) (seq_captions t).

Definition set_captions (l : list CaptionRow) (s : Z) (t : Tables) : Tables :=
  mkTables (users t) (videos t) (processing_results t)
    (seq_processing_results t) (highlight_clips t) (seq_highlight_clips t)
    (thumbnails t) (seq_thumbnails t) l s.

(* ===================================================================== *)
(** * The world a request runs in *)
(* ===================================================================== *)

Inductive LogLevel := LLog | LWarn | LError.

(** One [console.log] / [console.warn] / [console.error] call: the text
    and, where the call passes one, the error object. *)
Record LogEntry := mkLogEntry {
  level : LogLevel;
  text : string;
  attached : option Error
}.

(** - [db]: the tables as the connection sees them (inside a transaction
      this includes its uncommitted writes);
    - [txn]: [Some t0] while a transaction is open, [t0] being the tables
      at its BEGIN;
    - [faults]: what the store (and the file system, for the calls that
      can fail there) will answer to the next calls, one entry a call:
      [Some e] makes that call fail with [e] and change nothing, [None]
      lets it run; an exhausted script lets every call run;
    - [now]: the clock [new Date()] reads, in milliseconds;
    - [files]: the paths present under the uploads directory;
    - [console]: the log, oldest entry first. *)
Record World := mkWorld {
  db : Tables;
  txn : option Tables;
  faults : list (option Error);
  now : Z;
  files : gset string;
  console : list LogEntry
}.

Definition set_db (t : Tables) (w : World) : World :=
  mkWorld t (txn w) (faults w) (now w) (files w) (console w).
Definition set_txn (x : option Tables) (w : World) : World :=
  mkWorld (db w) x (faults w) (now w) (files w) (console w).
Definition set_faults (fs : list (option Error)) (w : World) : World :=
  mkWorld (db w) (txn w) fs (now w) (files w) (console w).
Definition set_files (s : gset string) (w : World) : World :=
  mkWorld (db w) (txn w) (faults w) (now w) s (console w).
Definition set_console (c : list LogEntry) (w : World) : World :=
  mkWorld (db w) (txn w) (faults w) (now w) (files w) c.

(** The store answers every call from now on: no fault is pending. *)
Definition healthy (w : World) : Prop := faults w = [].

(* ===================================================================== *)
(** * Promises as a state-and-exception monad *)
(* ===================================================================== *)

(** How an asynchronous function ends: its promise is fulfilled, or it is
    rejected, or the process has ended before it settled ([process.exit]),
    after which nothing runs any more. *)
Inductive Completion (A : Type) :=
| Normal (a : A)
| Throw (e : Error)
| Exit.
Arguments Normal {A} a.
Arguments Throw {A} e.
Arguments Exit {A}.

Definition M (A : Type) : Type := World -> Completion A * World.

Definition ret {A} (a : A) : M A := fun w => (Normal a, w).
Definition throw {A} (e : Error) : M A := fun w => (Throw e, w).

Definition bind {A B} (m : M A) (k : A -> M B) : M B :=
  fun w =>
    match m w with
    | (Normal a, w') => k a w'
    | (Throw e, w') => (Throw e, w')
    | (Exit, w') => (Exit, w')
    end.

Notation "'let*' x ':=' m 'in' k" := (bind m (fun x => k))
  (at level 10, x pattern, m at level 100, k at level 200).
Notation "m ';;' k" := (bind m (fun _ => k))
  (at level 100, k at level 200, right associativity).

(** [try { body } catch (error) { handler(error) }]. *)
Definition try_catch {A} (body : M A) (handler : Error -> M A) : M A :=
  fun w =>
    match body w with
    | (Normal a, w') => (Normal a, w')
    | (Throw e, w') => handler e w'
    | (Exit, w') => (Exit, w')
    end.

Definition console_log (s : string) : M unit :=
  fun w => (Normal tt, set_console (console w ++ [mkLogEntry LLog s None]) w).
Definition console_warn (s : string) : M unit :=
  fun w => (Normal tt, set_console (console w ++ [mkLogEntry LWarn s None]) w).
Definition console_error (s : string) (e : Error) : M unit :=
  fun w => (Normal tt, set_console (console w ++ [mkLogEntry LError s (Some e)]) w).

(** [new Date()]. *)
Definition new_Date : M Z := fun w => (Normal (now w), w).

(** [process.exit(1)]. *)
Definition process_exit {A} : M A := fun w => (Exit, w).

(** An exception that nothing catches reaches the handler that
    [setupGlobalErrorHandlers] ([middleware/errorHandler.ts]) installs for
    'uncaughtException': it logs the error and ends the process. *)
Definition uncaughtException {A} (error : Error) : M A :=
  console_error "Uncaught Exception:" error ;; process_exit.

(** How the store answers one call: it consumes the next entry of the
    fault script and, unless that entry is a fault, runs the call. *)
Definition answered {A} (run : World -> Completion A * World) : M A :=
  fun w =>
    match faults w with
    | Some e :: fs => (Throw e, set_faults fs w)
    | None :: fs => run (set_faults fs w)
    | [] => run w
    end.

(** One call on the connection whose callback reports [err] or a result.
    [stmt] is what the statement does to the tables when the store runs
    it; a statement the store rejects changes nothing. *)
Definition db_call {A} (stmt : Tables -> Error + (A * Tables)) : M A :=
  answered (fun w0 =>
    match stmt (db w0) with
    | inl e => (Throw e, w0)
    | inr (a, t) => (Normal a, set_db t w0)
    end).

Definition db_read {A} (q : Tables -> A) : M A :=
  db_call (fun t => inr (q t, t)).

(** A call whose callback does not look at [err]. *)
Definition ignoring_err (m : M unit) : M unit :=
  try_catch m (fun _ => ret tt).

(** Transaction control on the connection. *)
Definition BEGIN_TRANSACTION : M unit :=
  answered (fun w =>
    match txn w with
    | None => (Normal tt, set_txn (Some (db w)) w)
    | Some _ =>
        (Throw (new_Error "SQLITE_ERROR: cannot start a transaction within a transaction"),
         w)
    end).

Definition COMMIT : M unit :=
  answered (fun w =>
    match txn w with
    | Some _ => (Normal tt, set_txn None w)
    | None =>
        (Throw (new_Error "SQLITE_ERROR: cannot commit - no transaction is active"), w)
    end).

Definition ROLLBACK : M unit :=
  answered (fun w =>
    match txn w with
    | Some t0 => (Normal tt, set_txn None (set_db t0 w))
    | None =>
        (Throw (new_Error "SQLITE_ERROR: cannot rollback - no transaction is active"), w)
    end).

(** The store's answer to the next call, if it is a fault. *)
Definition next_fault (w : World) : option Error :=
  match faults w with
  | Some e :: _ => Some e
  | _ => None
  end.

(* ===================================================================== *)
(** * What the host provides *)
(* ===================================================================== *)

(** A row as [db.get] hands it to a callback, and what [db.run] leaves in
    [this]. *)
Definition Row : Type := list (string * SqlValue).

Record RunInfo := mkRunInfo {
  lastID : Z;
  changes : Z
}.

(** The result of the analysis collaborator ([services/videoAnalyzer.ts]). *)
Record HighlightSegment := mkHighlightSegment {
  hs_title : string;
  hs_startTime : Q;
  hs_endTime : Q;
  hs_duration : Q;
  hs_confidence : Q;
  hs_description : string
}.

Record ThumbnailCandidate := mkThumbnailCandidate {
  tc_timestamp : Q;
  tc_confidence : Q;
  tc_description : string
}.

Record CaptionVariant := mkCaptionVariant {
  cv_platform : string;
  cv_content : string;
  cv_hashtags : list string;
  cv_hooks : list string
}.

Record VideoAnalysisResult := mkVideoAnalysisResult {
  highlights : list HighlightSegment;
  thumbnails_of : list ThumbnailCandidate;
  captions_of : list CaptionVariant
}.

(** What the orchestration core calls but does not define: library
    functions of the JavaScript runtime, the SQLite engine on statements
    given as text, the analysis collaborator, and the file-name scheme.
    - [Date_parse s] is [new Date(s).getTime()], [None] for an Invalid Date
      (whose comparisons are all false);
    - [Date_toISOString] is [Date.prototype.toISOString];
    - [parseInt s] is [None] for [NaN];
    - [env] is [process.env];
    - [sql_get q ps t] is the first row (or none) that SQLite answers to
      the query [q] with parameters [ps] on tables [t], [sql_run q ps t]
      the [this.lastID] / [this.changes] and the tables after running the
      statement [q]; either may reject the statement;
    - [path_inside d p] holds when [p] is [d] or lies below it;
    - [getClipPath], [getThumbnailPath] are the [fileManager] methods of
      these names;
    - [analyzeVideo], [extractHighlightClips], [generateThumbnails] are
      the methods of [VideoAnalyzer]; they may do anything to the world. *)
Class Host := {
  Date_parse : string -> option Z;
  Date_toISOString : Z -> string;
  parseInt : string -> option Z;
  env : string -> option string;
  sql_get : string -> list SqlValue -> Tables -> Error + option Row;
  sql_run : string -> list SqlValue -> Tables -> Error + (RunInfo * Tables);
  path_join : string -> string -> string;
  path_relative : string -> string -> string;
  path_isAbsolute : string -> bool;
  path_inside : string -> string -> bool;
  getClipPath : Z -> nat -> string -> string;
  getThumbnailPath : Z -> nat -> Q -> string;
  analyzeVideo : string -> M VideoAnalysisResult;
  extractHighlightClips : string -> list HighlightSegment -> string -> M (list string);
  generateThumbnails : string -> list ThumbnailCandidate -> string -> M (list string)
}.

(* ===================================================================== *)
(** * Credit ledger ([services/creditService.ts]) *)
(* ===================================================================== *)

Record User := mkUser {
  id : Z;
  credits : Z;
  isSubscribed : bool;
  subscriptionExpiresAt : option string
}.

Record CreditCheckResult := mkCreditCheckResult {
  canProceed : bool;
  user : option User;
  reason : option string
}.

Module CreditService.
Section WithHost.
Context `{Host}.

(** [UPDATE users SET is_subscribed = ?, subscription_expires_at = ?
     WHERE id = ?]; its callback looks at [err] only. *)
Definition updateSubscriptionStatus (userId : Z) (isSubscribed : bool)
    (expiresAt : option Z) : M unit :=
  db_call (fun t =>
      inr (tt, set_users
                 (fun us =>
                    match us !! userId with
                    | Some r =>
                        <[userId := mkUserRow (u_credits r)
                                      (if isSubscribed then 1 else 0)
                                      (match expiresAt with
                                       | Some d =>
                                           let iso := Date_toISOString d in
                                           if String.eqb iso "" then None else Some iso
                                       | None => None
                                       end)]> us
                    | None => us
                    end) t)) ;;
  console_log ("Updated subscription status for user " +:+ pretty userId +:+ ": "
               +:+ (if isSubscribed then "true" else "false")).

(** The tail of [checkCredits]: "For non-subscribers, check credits". *)
Definition balance_verdict (userData : User) : CreditCheckResult :=
  if negb (isSubscribed userData) && (credits userData <=? 0)
  then mkCreditCheckResult false (Some userData) (Some "Insufficient credits")
  else mkCreditCheckResult true (Some userData) None.

(** [expirationDate > now] on two [Date]s. *)
Definition Date_gt (d : option Z) (n : Z) : bool :=
  match d with
  | Some t => n <? t
  | None => false
  end.

Definition checkCredits (userId : option Z) : M CreditCheckResult :=
  match userId with
  | Some uid =>
      if negb (truthy_num userId)
      then ret (mkCreditCheckResult false None (Some "Authentication required"))
      else
        let* row := db_read (fun t => users t !! uid) in
        match row with
        | None => ret (mkCreditCheckResult false None (Some "User not found"))
        | Some r =>
            let userData :=
              mkUser uid (u_credits r) (u_is_subscribed r =? 1)
                     (u_subscription_expires_at r) in
            if isSubscribed userData && truthy_str (subscriptionExpiresAt userData)
            then
              let expirationDate :=
                Date_parse (default "" (subscriptionExpiresAt userData)) in
              let* now := new_Date in
              if Date_gt expirationDate now
              then ret (mkCreditCheckResult true (Some userData) None)
              else
                updateSubscriptionStatus uid false None ;;
                ret (balance_verdict
                       (mkUser (id userData) (credits userData) false None))
            else ret (balance_verdict userData)
        end
  | None => ret (mkCreditCheckResult false None (Some "Authentication required"))
  end.

(** [UPDATE users SET credits = credits - 1 WHERE id = ? AND credits > 0],
    answering [this.changes]. *)
Definition update_deduct (userId : Z) (t : Tables) : Z * Tables :=
  match users t !! userId with
  | Some r =>
      if 0 <? u_credits r
      then (1, set_users
                 (<[userId := mkUserRow (u_credits r - 1) (u_is_subscribed r)
                                (u_subscription_expires_at r)]>) t)
      else (0, t)
  | None => (0, t)
  end.

Definition deductCredits (userId : Z) (userInfo : option User) : M unit :=
  let* user :=
    match userInfo with
    | Some u => ret (Some u)
    | None =>
        let* creditCheck := checkCredits (Some userId) in
        if negb (canProceed creditCheck)
        then throw (new_HttpError
                      (or_default (reason creditCheck) "Cannot deduct credits") 402)
        else ret (user creditCheck)
    end in
  if match user with Some u => isSubscribed u | None => false end
  then console_log ("User " +:+ pretty userId +:+ " is subscribed - no credit deduction")
  else
    let* changes := db_call (fun t => inr (update_deduct userId t)) in
    if changes =? 0
    then throw (new_Error "Failed to deduct credit - insufficient credits")
    else console_log ("Credit deducted for user " +:+ pretty userId).

(** [UPDATE users SET credits = credits + ? WHERE id = ?]. *)
Definition update_add (userId amount : Z) (t : Tables) : Z * Tables :=
  match users t !! userId with
  | Some r =>
      (1, set_users
            (<[userId := mkUserRow (u_credits r + amount) (u_is_subscribed r)
                           (u_subscription_expires_at r)]>) t)
  | None => (0, t)
  end.

Definition addCredits (userId amount : Z) : M unit :=
  if amount <=? 0
  then throw (new_Error "Credit amount must be positive")
  else
    let* changes := db_call (fun t => inr (update_add userId amount t)) in
    if changes =? 0
    then throw (new_Error "User not found")
    else console_log ("Added " +:+ pretty amount +:+ " credits to user " +:+ pretty userId).

Definition getUserCredits (userId : Z) : M (option User) :=
  let* creditCheck := checkCredits (Some userId) in
  ret (user creditCheck).

Definition checkGuestCredits (remainingCredits : Z) : bool :=
  0 <? remainingCredits.

(** The [try] block of [refundCredits]. *)
Definition refund_attempt (userId : Z) : M unit :=
  let* user := getUserCredits userId in
  match user with
  | None =>
      console_warn ("Cannot refund credits - user " +:+ pretty userId +:+ " not found")
  | Some u =>
      if isSubscribed u
      then console_log ("User " +:+ pretty userId
                        +:+ " is subscribed - no credit refund needed")
      else
        db_call (fun t => inr (tt, snd (update_add userId 1 t))) ;;
        console_log ("Credit refunded to user " +:+ pretty userId)
  end.

Definition refundCredits (userId : Z) : M unit :=
  try_catch (refund_attempt userId)
    (fun error =>
       console_error ("Failed to refund credits for user " +:+ pretty userId +:+ ":")
                     error).

(** The [try] block runs [deductCredits], sets [creditDeducted], then runs
    [operation]; the one [catch] block refunds when the flag is set, and
    re-throws what it caught. *)
Definition executeWithRollback {T} (userId : Z) (operation : M T) : M T :=
  fun w =>
    let '(attempt, creditDeducted, w1) :=
      match deductCredits userId None w with
      | (Throw error, w1) => (Throw error, false, w1)
      | (Exit, w1) => (Exit, false, w1)
      | (Normal _, w1) =>
          let '(result, w2) := operation w1 in (result, true, w2)
      end in
    match attempt with
    | Normal result => (Normal result, w1)
    | Exit => (Exit, w1)
    | Throw error =>
        ((if creditDeducted : bool
          then
            console_log ("Operation failed, rolling back credit deduction for user "
                         +:+ pretty userId) ;;
            refundCredits userId
          else ret tt) ;;
         throw error) w1
    end.

End WithHost.
End CreditService.


(* ===================================================================== *)
(** * Transaction coordinator ([database/transaction.ts]) *)
(* ===================================================================== *)

Record TransactionOperation := mkTransactionOperation {
  query : string;
  params : option (list SqlValue)
}.

(** What [execute] stores at [results[index]]: the row of a SELECT, or
    [{ lastID, changes }] / [{ changes }] of any other statement. *)
Inductive TxResult :=
| TxRow (row : option Row)
| TxRun (lastID : option Z) (changes : Z).

Record DatabaseTransaction := mkDatabaseTransaction {
  operations : list TransactionOperation;
  isExecuted : bool
}.

(** The text of a statement is kept in UTF-8.  [code_points] reads its
    code points; a byte that belongs to no well-formed sequence is read
    as U+FFFD. *)
Definition lead_byte (b : Z) : option (nat * Z) :=
  if b <? 0x80 then Some (0%nat, b)
  else if (0xC0 <=? b) && (b <? 0xE0) then Some (1%nat, b - 0xC0)
  else if (0xE0 <=? b) && (b <? 0xF0) then Some (2%nat, b - 0xE0)
  else if (0xF0 <=? b) && (b <? 0xF8) then Some (3%nat, b - 0xF0)
  else None.

Fixpoint code_points_from (pending : nat) (bits : Z) (s : string) : list Z :=
  match s with
  | EmptyString =>
      match pending with
      | O => []
      | S _ => [0xFFFD]
      end
  | String c rest =>
      let b := Z.of_nat (nat_of_ascii c) in
      let start :=
        match lead_byte b with
        | Some (O, point) => point :: code_points_from 0 0 rest
        | Some (S n, high) => code_points_from (S n) high rest
        | None => 0xFFFD :: code_points_from 0 0 rest
        end in
      match pending with
      | O => start
      | S n =>
          if (0x80 <=? b) && (b <? 0xC0)
          then
            let bits' := 64 * bits + (b - 0x80) in
            match n with
            | O => bits' :: code_points_from 0 0 rest
            | S _ => code_points_from n bits' rest
            end
          else 0xFFFD :: start
      end
  end.

Definition code_points (s : string) : list Z := code_points_from 0 0 s.

(** [String.prototype.trim], at the start of the text. *)
Fixpoint trim_start (s : list Z) : list Z :=
  match s with
  | c :: rest => if is_white_space c then trim_start rest else s
  | [] => []
  end.

(** [toUpperCase] maps every code point on its own.  The code points
    whose upper case is the one capital letter [capital]: the letter
    itself, its small form and, for S, the long s (U+017F). *)
Definition upper_case_is (capital : ascii) (c : Z) : bool :=
  let n := Z.of_nat (nat_of_ascii capital) in
  (c =? n) || (c =? n + 32) || ((n =? 83) && (c =? 0x17F)).

(** [query.trim().toUpperCase().startsWith('SELECT')]: white space at the
    end does not matter to a prefix test.  Of the code points whose upper
    case is more than one character, one can supply a letter of the
    prefix: U+1E97, whose upper case is T followed by U+0308, can supply
    the last; the upper cases of U+00DF, U+FB05 and U+FB06 (SS, ST, ST)
    begin with S but go on with a letter other than the E wanted. *)
Definition is_select (q : string) : bool :=
  match trim_start (code_points q) with
  | s :: e :: l :: e' :: c :: t :: _ =>
      upper_case_is "S" s && upper_case_is "E" e && upper_case_is "L" l
      && upper_case_is "E" e' && upper_case_is "C" c
      && (upper_case_is "T" t || (t =? 0x1E97))
  | _ => false
  end.

Module DatabaseTransaction.
Section WithHost.
Context `{Host}.

Definition new : DatabaseTransaction := mkDatabaseTransaction [] false.

Definition add (query : string) (params : option (list SqlValue))
    (this : DatabaseTransaction) : Error + DatabaseTransaction :=
  if isExecuted this
  then inl (new_Error "Cannot add operations to an already executed transaction")
  else inr (mkDatabaseTransaction
              (operations this ++ [mkTransactionOperation query params])
              (isExecuted this)).

(** One operation of the batch: [db.get] for a SELECT, [db.run] otherwise. *)
Definition executeOperation (operation : TransactionOperation) : M TxResult :=
  let ps := default [] (params operation) in
  if is_select (query operation)
  then
    let* row := db_call (fun t =>
                  match sql_get (query operation) ps t with
                  | inl e => inl e
                  | inr row => inr (row, t)
                  end) in
    ret (TxRow row)
  else
    let* info := db_call (sql_run (query operation) ps) in
    ret (TxRun (if lastID info =? 0 then None else Some (lastID info))
               (changes info)).

(** Inside [db.serialize], every operation is queued at once; the store
    runs them one after the other, each to its own promise, whether or
    not an earlier one was rejected. *)
Fixpoint run_operations (ops : list TransactionOperation) (w : World)
    : list (Completion TxResult) * World :=
  match ops with
  | [] => ([], w)
  | operation :: rest =>
      let '(c, w1) := executeOperation operation w in
      let '(cs, w2) := run_operations rest w1 in
      (c :: cs, w2)
  end.

(** The rejection [Promise.all] reports: that of the first promise to be
    rejected. *)
Fixpoint first_rejection {A} (cs : list (Completion A)) : option Error :=
  match cs with
  | [] => None
  | Throw e :: _ => Some e
  | Normal _ :: rest => first_rejection rest
  | Exit :: rest => first_rejection rest
  end.

(** The [results] array once every promise is fulfilled. *)
Fixpoint fulfilled {A} (cs : list (Completion A)) : list A :=
  match cs with
  | [] => []
  | Normal a :: rest => a :: fulfilled rest
  | Throw _ :: rest => fulfilled rest
  | Exit :: rest => fulfilled rest
  end.

(** The promise [execute] returns for a transaction not yet executed.
    [db.run('BEGIN TRANSACTION')] is given no callback: when the store
    refuses it, the error is emitted as an 'error' event on the statement,
    which has no listener, so it is thrown where nothing catches it.  The
    operations, queued behind it by [db.serialize], have not run by then. *)
Definition run_batch (ops : list TransactionOperation) : M (list TxResult) :=
  fun w =>
    match BEGIN_TRANSACTION w with
    | (Throw error, w0) => uncaughtException error w0
    | (Exit, w0) => (Exit, w0)
    | (Normal _, w0) =>
        let '(cs, w1) := run_operations ops w0 in
        match first_rejection cs with
        | Some error =>
            (ignoring_err ROLLBACK ;;
             throw (new_Error ("Transaction failed: " +:+ message error))) w1
        | None =>
            try_catch
              (COMMIT ;; ret (fulfilled cs))
              (fun _ =>
                 ignoring_err ROLLBACK ;;
                 throw (new_Error "Transaction commit failed and was rolled back"))
              w1
        end
    end.

(** [execute()]: the transaction object afterwards, and the promise. *)
Definition execute (this : DatabaseTransaction)
    : DatabaseTransaction * M (list TxResult) :=
  if isExecuted this
  then (this, throw (new_Error "Transaction has already been executed"))
  else (mkDatabaseTransaction (operations this) true,
        run_batch (operations this)).

End WithHost.
End DatabaseTransaction.

Section TransactionHelpers.
Context `{Host}.

(** [operations.forEach(op => transaction.add(op.query, op.params))]. *)
Fixpoint add_each (ops : list TransactionOperation) (transaction : DatabaseTransaction)
    : Error + DatabaseTransaction :=
  match ops with
  | [] => inr transaction
  | op :: rest =>
      match DatabaseTransaction.add (query op) (params op) transaction with
      | inl e => inl e
      | inr transaction' => add_each rest transaction'
      end
  end.

Definition withTransaction (operations : list TransactionOperation)
    : M (list TxResult) :=
  match add_each operations DatabaseTransaction.new with
  | inl e => throw e
  | inr transaction => snd (DatabaseTransaction.execute transaction)
  end.

(** An entry of the [results] array as a JavaScript value: [None] is
    [undefined], which is what a SELECT that found no row has stored. *)
Definition array_entry (result : TxResult) : option TxResult :=
  match result with
  | TxRow None => None
  | _ => Some result
  end.

(** [results[0]] of a one-operation batch. *)
Definition executeWithTransaction (query : string) (params : option (list SqlValue))
    : M (option TxResult) :=
  let* results := withTransaction [mkTransactionOperation query params] in
  ret (head results ≫= array_entry).

End TransactionHelpers.

Section TransactionCallback.
Context `{Host}.

(** [DatabaseTransaction.executeTransaction(callback)].  The callback is
    handed the new transaction object and may call its methods; what it
    leaves of the object is what [execute] then finds, so a callback is a
    computation that returns its result together with the object. *)
Definition executeTransaction {T}
    (callback : DatabaseTransaction -> M (T * DatabaseTransaction)) : M T :=
  let transaction := DatabaseTransaction.new in
  try_catch
    (let* returned := callback transaction in
     let '(result, transaction) := returned in
     snd (DatabaseTransaction.execute transaction) ;;
     ret result)
    (fun error => throw error).

End TransactionCallback.

(* ===================================================================== *)
(** * File manager ([services/fileManager.ts]): paths and cleanup *)
(* ===================================================================== *)

Module fileManager.
Section WithHost.
Context `{Host}.

(** [this.config], computed by the constructor. *)
Definition uploadsDir : string := or_default (env "UPLOAD_PATH") "./uploads".
Definition framesDir : string := path_join uploadsDir "frames".

Definition getRelativePath (absolutePath : string) : string :=
  path_relative uploadsDir absolutePath.

Definition getAbsolutePath (relativePath : string) : string :=
  path_join uploadsDir relativePath.

(** [fs.existsSync]. *)
Definition existsSync (p : string) : M bool :=
  fun w => (Normal (bool_decide (p ∈ files w)), w).

(** [fs.unlinkSync] and [fs.rmSync(dir, { recursive: true, force: true })]:
    calls the file system may refuse. *)
Definition unlinkSync (p : string) : M unit :=
  answered (fun w => (Normal tt, set_files (files w ∖ {[ p ]}) w)).

Definition rmSync_recursive (dir : string) : M unit :=
  answered (fun w =>
    (Normal tt, set_files (filter (fun p => path_inside dir p = false) (files w)) w)).

Definition deleteFile (filePath : string) : M bool :=
  try_catch
    (let absolutePath :=
       if path_isAbsolute filePath then filePath else getAbsolutePath filePath in
     let* present := existsSync absolutePath in
     if present
     then
       unlinkSync absolutePath ;;
       console_log ("Deleted file: " +:+ absolutePath) ;;
       ret true
     else ret false)
    (fun error =>
       console_error ("Failed to delete file " +:+ filePath +:+ ":") error ;;
       ret false).

Definition cleanupFrames (videoId : Z) : M unit :=
  let framesDir := path_join framesDir ("frames_video_" +:+ pretty videoId) in
  try_catch
    (let* present := existsSync framesDir in
     if present
     then
       rmSync_recursive framesDir ;;
       console_log ("Cleaned up frames directory: " +:+ framesDir)
     else ret tt)
    (fun error =>
       console_error ("Failed to cleanup frames directory " +:+ framesDir +:+ ":") error).

(** [SELECT file_path FROM <table> WHERE processing_result_id = ?], for the
    two tables it is called on. *)
Definition getProcessingFiles_clips (processingResultId : Z) : M (list string) :=
  db_read (fun t =>
    hc_file_path <$>
      filter (fun c => hc_processing_result_id c = processingResultId) (highlight_clips t)).

Definition getProcessingFiles_thumbnails (processingResultId : Z) : M (list string) :=
  db_read (fun t =>
    th_file_path <$>
      filter (fun c => th_processing_result_id c = processingResultId) (thumbnails t)).

(** [for (const f of rows) { if (f.file_path) this.deleteFile(f.file_path) }]. *)
Fixpoint delete_each (paths : list string) : M unit :=
  match paths with
  | [] => ret tt
  | p :: rest =>
      (if String.eqb p "" then ret tt else (deleteFile p ;; ret tt)) ;;
      delete_each rest
  end.

(** The [try] block of [cleanupProcessingFiles]. *)
Definition cleanup_attempt (processingResultId : Z) : M unit :=
  let* clips := getProcessingFiles_clips processingResultId in
  let* thumbnails := getProcessingFiles_thumbnails processingResultId in
  delete_each clips ;;
  delete_each thumbnails ;;
  console_log ("Cleaned up files for processing result " +:+ pretty processingResultId).

Definition cleanupProcessingFiles (processingResultId : Z) : M unit :=
  try_catch (cleanup_attempt processingResultId)
    (fun error =>
       console_error ("Failed to cleanup processing files for "
                      +:+ pretty processingResultId +:+ ":") error).

End WithHost.
End fileManager.

(* ===================================================================== *)
(** * Job orchestrator and status read model ([routes/video.ts]) *)
(* ===================================================================== *)

(** [ORDER BY key]: a stable sort of the matching rows, taken in rowid
    order. *)
Fixpoint insert_by {A} (key : A -> Q) (x : A) (l : list A) : list A :=
  match l with
  | [] => [x]
  | y :: rest =>
      if Qle_bool (key x) (key y) then x :: l else y :: insert_by key x rest
  end.

Definition order_by {A} (key : A -> Q) (l : list A) : list A :=
  foldr (insert_by key) [] l.

(** The id an AUTOINCREMENT table gives its next row: one more than the
    largest id the table has ever held. *)
Definition largest_key {V} (m : gmap Z V) : Z :=
  map_fold (fun k _ acc => Z.max k acc) 0 m.

Definition next_id {V} (seq : Z) (m : gmap Z V) : Z :=
  Z.max seq (largest_key m) + 1.

(** [String.prototype.split(',')]. *)
Fixpoint split_commas_from (current : string) (s : string) : list string :=
  match s with
  | EmptyString => [current]
  | String c rest =>
      if Ascii.eqb c ","%char
      then current :: split_commas_from "" rest
      else split_commas_from (current +:+ String c EmptyString) rest
  end.

Definition split_commas (s : string) : list string := split_commas_from "" s.

(** [Array.prototype.join(',')]. *)
Definition join_commas (l : list string) : string := String.concat "," l.

(** The statements of the atomic batch, as the source spells them. *)
Definition INSERT_highlight_clip : string :=
  "INSERT INTO highlight_clips (processing_result_id, title, file_path, duration, start_time, end_time, confidence_score) 
                    VALUES (?, ?, ?, ?, ?, ?, ?)".

Definition INSERT_thumbnail : string :=
  "INSERT INTO thumbnails (processing_result_id, file_path, timestamp, width, height) 
                    VALUES (?, ?, ?, ?, ?)".

Definition INSERT_caption : string :=
  "INSERT INTO captions (processing_result_id, platform, content, hashtags) 
                    VALUES (?, ?, ?, ?)".

(** The result used when the analysis is unavailable. *)
Definition mock_analysis : VideoAnalysisResult :=
  mkVideoAnalysisResult
    [ mkHighlightSegment "Opening Scene" 5 35 30 (95 # 100)
        "Engaging opening with strong hook";
      mkHighlightSegment "Main Content" 60 105 45 (87 # 100)
        "Core educational content with visual examples";
      mkHighlightSegment "Conclusion" 120 155 35 (92 # 100)
        "Strong conclusion with call-to-action" ]
    [ mkThumbnailCandidate 20 (9 # 10) "Expressive face with good lighting";
      mkThumbnailCandidate 85 (8 # 10) "Visual demonstration moment";
      mkThumbnailCandidate 140 (85 # 100) "Reaction shot with emotion" ]
    [ mkCaptionVariant "youtube"
        "이 영상에서는 초보자도 쉽게 따라할 수 있는 실용적인 팁들을 공유합니다! 🎯 타임스탬프와 함께 단계별로 설명드리니 끝까지 시청해주세요! 💪"
        ["실용팁"; "초보자가이드"; "단계별설명"]
        ["초보자도 5분만에!"; "이것만 알면 바로 적용!"];
      mkCaptionVariant "tiktok"
        "진짜 이거 하나만 알면 끝! 🔥 초보도 바로 따라할 수 있는 꿀팁 대방출! ✨"
        ["꿀팁"; "초보"; "따라하기"; "실용"]
        ["진짜 이거 하나만!"; "5분만에 마스터!"];
      mkCaptionVariant "instagram"
        "오늘도 유용한 팁으로 찾아왔어요! 📱 스토리에도 저장해두고 필요할 때 꺼내보세요 ✨ 궁금한 점은 댓글로! 💬"
        ["일상팁"; "유용한정보"; "저장필수"]
        ["저장 필수!"; "이거 몰랐으면 손해!"] ].

Record AuthUser := mkAuthUser {
  au_id : Z;
  au_email : string
}.

(** The part of an [AuthRequest] the two routes read. *)
Record Request := mkRequest {
  params_id : string;
  req_user : option AuthUser
}.

Record ProcessingStartResponse := mkProcessingStartResponse {
  psr_message : string;
  processingId : Z
}.

Record HighlightView := mkHighlightView {
  hv_id : Z;
  hv_title : string;
  hv_duration : Q;
  hv_startTime : Q;
  hv_endTime : Q;
  hv_confidence : Q;
  hv_thumbnail : option string;
  hv_downloadUrl : option string
}.

Record ThumbnailView := mkThumbnailView {
  tv_id : Z;
  tv_timestamp : Q;
  tv_width : Z;
  tv_height : Z;
  tv_downloadUrl : string
}.

Record CaptionView := mkCaptionView {
  cvw_id : Z;
  cvw_platform : string;
  cvw_content : string;
  cvw_hashtags : list string
}.

Record ProcessingResult := mkProcessingResult {
  r_id : Z;
  r_videoId : Z;
  r_status : string;
  r_progress : Z;
  r_errorMessage : option string;
  r_video_originalName : string;
  r_video_size : Z;
  r_video_type : string;
  r_highlights : list HighlightView;
  r_thumbnails : list ThumbnailView;
  r_captions : list CaptionView
}.

(* ===================================================================== *)
(** * File names ([services/fileManager.ts]): [FileManager.sanitizeFilename] *)
(* ===================================================================== *)

(** A JavaScript string is a sequence of UTF-16 code units, and the
    regular expressions of [sanitizeFilename] (none has the [u] flag) work
    on it one unit at a time. *)
Definition JsString : Type := list Z.

(** An ASCII text as a JavaScript string. *)
Fixpoint js (s : string) : JsString :=
  match s with
  | EmptyString => []
  | String c rest => Z.of_nat (nat_of_ascii c) :: js rest
  end.

Definition underscore : Z := 95.

Definition is_underscore (c : Z) : bool := c =? underscore.

(** [[가-힣]]: U+AC00 to U+D7A3. *)
Definition is_hangul_syllable (c : Z) : bool := (0xAC00 <=? c) && (c <=? 0xD7A3).

(** [[a-zA-Z0-9]]. *)
Definition is_ascii_alnum (c : Z) : bool :=
  ((97 <=? c) && (c <=? 122)) || ((65 <=? c) && (c <=? 90))
  || ((48 <=? c) && (c <=? 57)).

(** [[a-zA-Z0-9\s.-]]; [\s] is [is_white_space]. *)
Definition is_kept (c : Z) : bool :=
  is_ascii_alnum c || is_white_space c || (c =? 46) || (c =? 45).

(** [.replace(/\s+/g, '_')] and [.replace(/_{2,}/g, '_')]: every maximal
    run of units of the class is replaced by one underscore ([in_run]
    says that the unit before was of the class).  For the second
    expression a run of one underscore is not matched, and stays the one
    underscore it is. *)
Fixpoint collapse_runs (class : Z -> bool) (in_run : bool) (s : JsString) : JsString :=
  match s with
  | [] => []
  | c :: rest =>
      if class c
      then
        if in_run then collapse_runs class true rest
        else underscore :: collapse_runs class true rest
      else c :: collapse_runs class false rest
  end.

(** [.replace(/^_+|_+$/g, '')]. *)
Fixpoint drop_leading (class : Z -> bool) (s : JsString) : JsString :=
  match s with
  | [] => []
  | c :: rest => if class c then drop_leading class rest else s
  end.

Definition drop_trailing (class : Z -> bool) (s : JsString) : JsString :=
  reverse (drop_leading class (reverse s)).

(** [toLowerCase] on the units that reach it in [sanitizeFilename], all
    of them ASCII by then. *)
Definition lower_unit (c : Z) : Z :=
  if (65 <=? c) && (c <=? 90) then c + 32 else c.

Module FileManager.

(** [maxLength] is an integer; [substring] reads a negative one as 0.
    The source's default for it is 50. *)
Definition sanitizeFilename (filename : JsString) (maxLength : Z) : JsString :=
  let removed := filter (fun c => is_hangul_syllable c = false) filename in
  let replaced := (fun c => if is_kept c then c else underscore) <$> removed in
  let spaced := collapse_runs is_white_space false replaced in
  let squeezed := collapse_runs is_underscore false spaced in
  let limited := take (Z.to_nat maxLength) squeezed in
  let trimmed := drop_trailing is_underscore (drop_leading is_underscore limited) in
  lower_unit <$> trimmed.

End FileManager.

Module video_routes.
Section WithHost.
Context `{Host}.
Import CreditService.

(** Console arguments are rendered as text. *)
Definition show_bool (b : bool) : string := if b then "true" else "false".

Definition key_configured (k : option string) (placeholders : list string) : bool :=
  match k with
  | Some v =>
      negb (String.eqb v "")
      && forallb (fun p => negb (String.eqb v p)) placeholders
      && (20 <? Z.of_nat (String.length v))
  | None => false
  end.

Definition hasOpenAI : bool :=
  key_configured (env "OPENAI_API_KEY")
    ["your-openai-api-key-here"; "sk-proj-test-key-for-development-only"].

Definition hasAnthropic : bool :=
  key_configured (env "ANTHROPIC_API_KEY") ["your-anthropic-api-key-here"].

(** How [console.log] shows the value of [k && k !== ... && k.length > 20]:
    it is [k] itself when [k] is not set or empty, a boolean otherwise. *)
Definition key_status (k : option string) (configured : bool) : string :=
  match k with
  | Some v => if String.eqb v "" then "" else show_bool configured
  | None => "undefined"
  end.

Definition key_prefix (k : option string) : string :=
  match k with
  | Some v => String.substring 0 10 v +:+ "..."
  | None => "undefined..."
  end.

(** The flat, ordered list of inserts for an analysis result. *)
Definition highlight_insert (resultId : Z) (index : nat) (highlight : HighlightSegment)
    : TransactionOperation :=
  let clipPath := getClipPath resultId index (hs_title highlight) in
  let relativePath := fileManager.getRelativePath clipPath in
  mkTransactionOperation INSERT_highlight_clip
    (Some [VInt resultId; VText (hs_title highlight); VText relativePath;
           VReal (hs_duration highlight); VReal (hs_startTime highlight);
           VReal (hs_endTime highlight); VReal (hs_confidence highlight)]).

Definition thumbnail_insert (resultId : Z) (index : nat) (thumb : ThumbnailCandidate)
    : TransactionOperation :=
  let thumbnailPath := getThumbnailPath resultId index (tc_timestamp thumb) in
  let relativePath := fileManager.getRelativePath thumbnailPath in
  mkTransactionOperation INSERT_thumbnail
    (Some [VInt resultId; VText relativePath; VReal (tc_timestamp thumb);
           VInt 1920; VInt 1080]).

Definition caption_insert (resultId : Z) (caption : CaptionVariant)
    : TransactionOperation :=
  mkTransactionOperation INSERT_caption
    (Some [VInt resultId; VText (cv_platform caption); VText (cv_content caption);
           VText (join_commas (cv_hashtags caption))]).

Definition transactionOperations (resultId : Z) (analysisResult : VideoAnalysisResult)
    : list TransactionOperation :=
  imap (highlight_insert resultId) (highlights analysisResult)
  ++ imap (thumbnail_insert resultId) (thumbnails_of analysisResult)
  ++ (caption_insert resultId <$> captions_of analysisResult).

(** [UPDATE highlight_clips SET file_path = ? WHERE id = ?] and its twin
    on [thumbnails], answering [this.changes]. *)
Definition update_clip_path (relativePath : string) (clipId : Z) (t : Tables)
    : Z * Tables :=
  (Z.of_nat (length (filter (fun c => hc_id c = clipId) (highlight_clips t))),
   set_highlight_clips
     ((fun c =>
         if bool_decide (hc_id c = clipId)
         then mkClipRow (hc_id c) (hc_processing_result_id c) (hc_title c) relativePath
                (hc_thumbnail_path c) (hc_duration c) (hc_start_time c) (hc_end_time c)
                (hc_confidence_score c)
         else c) <$> highlight_clips t)
     (seq_highlight_clips t) t).

Definition update_thumbnail_path (relativePath : string) (thumbnailId : Z) (t : Tables)
    : Z * Tables :=
  (Z.of_nat (length (filter (fun c => th_id c = thumbnailId) (thumbnails t))),
   set_thumbnails
     ((fun c =>
         if bool_decide (th_id c = thumbnailId)
         then mkThumbRow (th_id c) (th_processing_result_id c) relativePath
                (th_timestamp c) (th_width c) (th_height c)
         else c) <$> thumbnails t)
     (seq_thumbnails t) t).

(** [for (let i = 0; i < Math.min(paths.length, rows.length); i++)]. *)
Fixpoint update_clip_paths (clipsDir : string) (pairs : list (string * ClipRow))
    : M unit :=
  match pairs with
  | [] => ret tt
  | (clipPath, clip) :: rest =>
      let relativePath := path_relative (path_join clipsDir "..") clipPath in
      let clipId := hc_id clip in
      console_log ("Updating clip " +:+ pretty clipId +:+ " with path: " +:+ relativePath) ;;
      let* changes :=
        try_catch (db_call (fun t => inr (update_clip_path relativePath clipId t)))
          (fun err =>
             console_error ("Failed to update clip " +:+ pretty clipId +:+ ":") err ;;
             throw err) in
      console_log ("Updated clip " +:+ pretty clipId +:+ ", changes: " +:+ pretty changes) ;;
      update_clip_paths clipsDir rest
  end.

Fixpoint update_thumbnail_paths (thumbnailsDir : string)
    (pairs : list (string * ThumbRow)) : M unit :=
  match pairs with
  | [] => ret tt
  | (thumbnailPath, thumbnail) :: rest =>
      let relativePath := path_relative (path_join thumbnailsDir "..") thumbnailPath in
      let thumbnailId := th_id thumbnail in
      console_log ("Updating thumbnail " +:+ pretty thumbnailId +:+ " with path: "
                   +:+ relativePath) ;;
      let* changes :=
        try_catch (db_call (fun t => inr (update_thumbnail_path relativePath thumbnailId t)))
          (fun err =>
             console_error ("Failed to update thumbnail " +:+ pretty thumbnailId +:+ ":")
                           err ;;
             throw err) in
      console_log ("Updated thumbnail " +:+ pretty thumbnailId +:+ ", changes: "
                   +:+ pretty changes) ;;
      update_thumbnail_paths thumbnailsDir rest
  end.

(** The rows of one job, as the two routes select them. *)
Definition clips_of_job (resultId : Z) (t : Tables) : list ClipRow :=
  order_by hc_start_time
    (filter (fun c => hc_processing_result_id c = resultId) (highlight_clips t)).

Definition thumbnails_of_job (resultId : Z) (t : Tables) : list ThumbRow :=
  order_by th_timestamp
    (filter (fun c => th_processing_result_id c = resultId) (thumbnails t)).

Definition captions_of_job (resultId : Z) (t : Tables) : list CaptionRow :=
  filter (fun c => cp_processing_result_id c = resultId) (captions t).

(** The [try] block that renders the media and back-fills the paths. *)
Definition generate_files (video : VideoRow) (resultId : Z)
    (analysisResult : VideoAnalysisResult) : M unit :=
  let uploads := or_default (env "UPLOAD_PATH") "./uploads" in
  let clipsDir := path_join uploads "clips" in
  let thumbnailsDir := path_join uploads "thumbnails" in
  console_log "Starting file generation process..." ;;
  let* clipPaths :=
    extractHighlightClips (v_file_path video) (highlights analysisResult) clipsDir in
  let* thumbnailPaths :=
    generateThumbnails (v_file_path video) (thumbnails_of analysisResult) thumbnailsDir in
  console_log ("Generated " +:+ pretty (length clipPaths) +:+ " clips and "
               +:+ pretty (length thumbnailPaths) +:+ " thumbnails") ;;
  let* clips := db_read (clips_of_job resultId) in
  let* thumbnails := db_read (thumbnails_of_job resultId) in
  update_clip_paths clipsDir (zip clipPaths clips) ;;
  update_thumbnail_paths thumbnailsDir (zip thumbnailPaths thumbnails) ;;
  console_log "File generation and database update completed successfully".

(** [UPDATE processing_results SET status = ?, progress = ? WHERE id = ?]
    and [UPDATE processing_results SET status = ?, error_message = ?
    WHERE id = ?]. *)
Definition mark_completed (resultId : Z) (t : Tables) : Tables :=
  set_processing_results
    (fun m =>
       match m !! resultId with
       | Some j =>
           <[resultId := mkJobRow (pr_video_id j) (pr_user_id j) "completed" 100
                           (pr_error_message j)]> m
       | None => m
       end)
    (seq_processing_results t) t.

Definition mark_failed (resultId : Z) (errorMessage : string) (t : Tables) : Tables :=
  set_processing_results
    (fun m =>
       match m !! resultId with
       | Some j =>
           <[resultId := mkJobRow (pr_video_id j) (pr_user_id j) "failed"
                           (pr_progress j) (Some errorMessage)]> m
       | None => m
       end)
    (seq_processing_results t) t.

(** "Try real AI analysis if we have OpenAI API key": [None] stands for
    the [analysisResult] that is left unset or reset to [null]. *)
Definition analyse (absoluteVideoPath : option string)
    : M (option VideoAnalysisResult) :=
  if hasOpenAI
  then
    try_catch
      (let* r := analyzeVideo (default "" absoluteVideoPath) in
       console_log "AI analysis completed successfully" ;;
       ret (Some r))
      (fun error =>
         console_log ("AI analysis failed, using enhanced mock data: "
                      +:+ message error) ;;
         ret None)
  else ret None.

Definition performProcessing (video : VideoRow) (videoId resultId : Z) : M Z :=
  console_log ("Starting AI analysis for video " +:+ pretty videoId) ;;
  console_log ("Video file path: " +:+ v_file_path video) ;;
  let absoluteVideoPath :=
    if String.eqb (v_file_path video) "" then None
    else Some (fileManager.getAbsolutePath (v_file_path video)) in
  console_log ("Absolute video path: " +:+ default "null" absoluteVideoPath) ;;
  let* present :=
    match absoluteVideoPath with
    | Some p => fileManager.existsSync p
    | None => ret false
    end in
  console_log ("File exists: " +:+
               match absoluteVideoPath with
               | Some _ => show_bool present
               | None => "No file path"
               end) ;;
  console_log ("API Keys status - OpenAI: "
               +:+ key_status (env "OPENAI_API_KEY") hasOpenAI
               +:+ " Anthropic: "
               +:+ key_status (env "ANTHROPIC_API_KEY") hasAnthropic) ;;
  console_log ("OpenAI Key prefix: " +:+ key_prefix (env "OPENAI_API_KEY")) ;;
  console_log ("Anthropic Key prefix: " +:+ key_prefix (env "ANTHROPIC_API_KEY")) ;;
  let* analysed := analyse absoluteVideoPath in
  let* analysisResult :=
    match analysed with
    | Some r => ret r
    | None =>
        console_log "Using enhanced mock data (AI analysis unavailable)" ;;
        ret mock_analysis
    end in
  let operations := transactionOperations resultId analysisResult in
  try_catch
    (withTransaction operations ;;
     console_log ("Successfully created " +:+ pretty (length operations)
                  +:+ " database records in transaction"))
    (fun transactionError =>
       console_error "Transaction failed for processing results:" transactionError ;;
       throw transactionError) ;;
  let* rendered :=
    if hasOpenAI && negb (String.eqb (v_file_path video) "")
    then fileManager.existsSync (v_file_path video)
    else ret false in
  (if rendered
   then
     try_catch (generate_files video resultId analysisResult)
       (fun error => console_error "Error generating clips/thumbnails:" error)
   else console_log "Skipping file generation - using mock data only") ;;
  db_call (fun t => inr (tt, mark_completed resultId t)) ;;
  console_log ("Processing completed for video " +:+ pretty videoId) ;;
  ret resultId.

(** The [catch] block of the detached task. *)
Definition on_processing_failure (videoId resultId : Z) (error : Error) : M unit :=
  console_error ("Processing failed for video " +:+ pretty videoId +:+ ":") error ;;
  try_catch
    (fileManager.cleanupProcessingFiles resultId ;;
     fileManager.cleanupFrames videoId)
    (fun cleanupError => console_error "Error during cleanup:" cleanupError) ;;
  db_call (fun t => inr (tt, mark_failed resultId (message error) t)).

(** The [try] block of the detached task: with a user, the processing
    runs under [executeWithRollback]. *)
Definition processing_attempt (user : option AuthUser) (video : VideoRow)
    (videoId resultId : Z) : M unit :=
  let userId := au_id <$> user in
  if truthy_num userId
  then
    executeWithRollback (default 0 userId) (performProcessing video videoId resultId) ;;
    ret tt
  else
    performProcessing video videoId resultId ;;
    ret tt.

(** The task handed to [setImmediate]. *)
Definition background_task (user : option AuthUser) (video : VideoRow)
    (videoId resultId : Z) : M unit :=
  try_catch (processing_attempt user video videoId resultId)
    (on_processing_failure videoId resultId).

(** [INSERT INTO processing_results (video_id, user_id, status, progress)
     VALUES (?, ?, ?, ?)], answering [this.lastID]. *)
Definition insert_processing_result (videoId : Z) (userId : option Z) (t : Tables)
    : Z * Tables :=
  let newId := next_id (seq_processing_results t) (processing_results t) in
  (newId,
   set_processing_results
     (<[newId := mkJobRow videoId userId "processing" 0 None]>) newId t).

(** [router.post('/process/:id', ...)]: what is sent back with [res.json]
    together with the task handed to [setImmediate]; a thrown error is the
    one passed to [next]. *)
Definition post_process (req : Request) : M (ProcessingStartResponse * M unit) :=
  match parseInt (params_id req) with
  | None => throw (new_HttpError "Invalid video ID" 400)
  | Some videoId =>
      match req_user req with
      | Some u =>
          let* creditCheck := checkCredits (Some (au_id u)) in
          if negb (canProceed creditCheck)
          then throw (new_HttpError
                        (or_default (reason creditCheck) "Insufficient credits") 402)
          else ret tt
      | None => ret tt
      end ;;
      let* video := db_read (fun t => videos t !! videoId) in
      match video with
      | None => throw (new_HttpError "Video not found" 404)
      | Some video =>
          let userId :=
            match req_user req with
            | Some u => if au_id u =? 0 then None else Some (au_id u)
            | None => None
            end in
          let* resultId :=
            db_call (fun t => inr (insert_processing_result videoId userId t)) in
          ret (mkProcessingStartResponse "Processing started" resultId,
               background_task (req_user req) video videoId resultId)
      end
  end.

Definition highlight_view (h : ClipRow) : HighlightView :=
  mkHighlightView (hc_id h) (hc_title h) (hc_duration h) (hc_start_time h)
    (hc_end_time h) (hc_confidence_score h) (hc_thumbnail_path h)
    (if String.eqb (hc_file_path h) "" then None
     else Some ("/api/download/clip/" +:+ pretty (hc_id h))).

Definition thumbnail_view (t : ThumbRow) : ThumbnailView :=
  mkThumbnailView (th_id t) (th_timestamp t) (th_width t) (th_height t)
    ("/api/download/thumbnail/" +:+ pretty (th_id t)).

Definition caption_view (c : CaptionRow) : CaptionView :=
  mkCaptionView (cp_id c) (cp_platform c) (cp_content c)
    (match cp_hashtags c with
     | Some s => split_commas s
     | None => []
     end).

(** [router.get('/process/:id', ...)]. *)
Definition get_process (req : Request) : M ProcessingResult :=
  match parseInt (params_id req) with
  | None => throw (new_HttpError "Invalid processing ID" 400)
  | Some processingId =>
      let* result :=
        db_read (fun t =>
          match processing_results t !! processingId with
          | Some pr =>
              match videos t !! pr_video_id pr with
              | Some v => Some (pr, v)
              | None => None
              end
          | None => None
          end) in
      match result with
      | None => throw (new_HttpError "Processing result not found" 404)
      | Some (pr, v) =>
          if truthy_num (pr_user_id pr)
             && match req_user req with
                | Some u => negb (au_id u =? default 0 (pr_user_id pr))
                | None => true
                end
          then throw (new_HttpError "Access denied" 403)
          else
            let* artifacts :=
              if String.eqb (pr_status pr) "completed"
              then
                let* highlights := db_read (clips_of_job processingId) in
                let* thumbnails := db_read (thumbnails_of_job processingId) in
                let* captions := db_read (captions_of_job processingId) in
                ret (highlights, thumbnails, captions)
              else ret ([], [], []) in
            let '(highlights, thumbnails, captions) := artifacts in
            ret (mkProcessingResult processingId (pr_video_id pr) (pr_status pr)
                   (pr_progress pr) (pr_error_message pr)
                   (v_original_filename v) (v_file_size v) (v_mime_type v)
                   (highlight_view <$> highlights)
                   (thumbnail_view <$> thumbnails)
                   (caption_view <$> captions))
      end
  end.

End WithHost.
End video_routes.

(* ===================================================================== *)
(** * Concurrent calls of [deductCredits] *)
(* ===================================================================== *)

(** Node runs one continuation at a time; a call of [deductCredits]
    gives up control only at its [await]s, each of which waits for one
    call on the connection.  A call in flight is therefore at one of
    three points -- before the SELECT of [checkCredits], before the UPDATE
    that downgrades an expired subscription, before the conditional
    UPDATE -- or settled, and a step runs it from one point to the
    next. *)
Inductive Deduction :=
| BeforeCheck
| BeforeDowngrade (userData : User)
| BeforeUpdate
| Settled (c : Completion unit).

Module DeductionSteps.
Section WithHost.
Context `{Host}.
Import CreditService.

(** From the result of [checkCredits] to the next [await] of
    [deductCredits]. *)
Definition after_check (userId : Z) (creditCheck : CreditCheckResult) (w : World)
    : Deduction * World :=
  if negb (canProceed creditCheck)
  then (Settled (Throw (new_HttpError
                          (or_default (reason creditCheck) "Cannot deduct credits") 402)),
        w)
  else if match user creditCheck with Some u => isSubscribed u | None => false end
  then
    let '(c, w1) :=
      console_log ("User " +:+ pretty userId +:+ " is subscribed - no credit deduction") w in
    (Settled c, w1)
  else (BeforeUpdate, w).

Definition step (userId : Z) (s : Deduction) (w : World) : Deduction * World :=
  match s with
  | BeforeCheck =>
      if negb (truthy_num (Some userId))
      then after_check userId
             (mkCreditCheckResult false None (Some "Authentication required")) w
      else
        match db_read (fun t => users t !! userId) w with
        | (Throw e, w1) => (Settled (Throw e), w1)
        | (Exit, w1) => (Settled Exit, w1)
        | (Normal None, w1) =>
            after_check userId (mkCreditCheckResult false None (Some "User not found")) w1
        | (Normal (Some r), w1) =>
            let userData :=
              mkUser userId (u_credits r) (u_is_subscribed r =? 1)
                     (u_subscription_expires_at r) in
            if isSubscribed userData && truthy_str (subscriptionExpiresAt userData)
            then
              if Date_gt (Date_parse (default "" (subscriptionExpiresAt userData))) (now w1)
              then after_check userId (mkCreditCheckResult true (Some userData) None) w1
              else (BeforeDowngrade userData, w1)
            else after_check userId (balance_verdict userData) w1
        end
  | BeforeDowngrade userData =>
      match updateSubscriptionStatus userId false None w with
      | (Throw e, w1) => (Settled (Throw e), w1)
      | (Exit, w1) => (Settled Exit, w1)
      | (Normal _, w1) =>
          after_check userId
            (balance_verdict (mkUser (id userData) (credits userData) false None)) w1
      end
  | BeforeUpdate =>
      let '(c, w1) :=
        (let* changes := db_call (fun t => inr (update_deduct userId t)) in
         if changes =? 0
         then throw (new_Error "Failed to deduct credit - insufficient credits")
         else console_log ("Credit deducted for user " +:+ pretty userId)) w in
      (Settled c, w1)
  | Settled c => (Settled c, w)
  end.

(** Two calls for the same user; the schedule says whose turn it is. *)
Definition step_pair (userId : Z) (first : bool)
    (st : Deduction * Deduction * World) : Deduction * Deduction * World :=
  let '(a, b, w) := st in
  if first
  then let '(a', w') := step userId a w in (a', b, w')
  else let '(b', w') := step userId b w in (a, b', w').

Definition run_schedule (userId : Z) (schedule : list bool)
    (st : Deduction * Deduction * World) : Deduction * Deduction * World :=
  foldl (fun st first => step_pair userId first st) st schedule.

(** One call run on its own, from its start to its end. *)
Definition run_alone (userId : Z) (w : World) : Deduction * World :=
  let '(s1, w1) := step userId BeforeCheck w in
  let '(s2, w2) := step userId s1 w1 in
  step userId s2 w2.

End WithHost.
End DeductionSteps.

Definition is_settled (s : Deduction) : bool :=
  match s with Settled _ => true | _ => false end.

Definition succeeded (s : Deduction) : bool :=
  match s with Settled (Normal _) => true | _ => false end.

(** The two errors that report a lack of credits: the denial of
    [checkCredits] and the conditional update that changed no row. *)
Definition insufficient_credits (e : Error) : Prop :=
  e = new_HttpError "Insufficient credits" 402
  \/ e = new_Error "Failed to deduct credit - insufficient credits".

Definition failed_for_credits (s : Deduction) : Prop :=
  exists e, s = Settled (Throw e) /\ insufficient_credits e.

(* ===================================================================== *)
(** * A concrete host and concrete worlds, for evaluation *)
(* ===================================================================== *)

(** A calendar that knows two instants (milliseconds since the epoch). *)
Definition calendar_parse (s : string) : option Z :=
  if String.eqb s "2020-01-01T00:00:00.000Z" then Some 1577836800000
  else if String.eqb s "2030-01-01T00:00:00.000Z" then Some 1893456000000
  else None.

Definition calendar_print (d : Z) : string :=
  if d =? 1577836800000 then "2020-01-01T00:00:00.000Z"
  else if d =? 1893456000000 then "2030-01-01T00:00:00.000Z"
  else "1970-01-01T00:00:00.000Z".

(** Decimal numerals only. *)
Fixpoint digits_value (acc : Z) (s : string) : option Z :=
  match s with
  | EmptyString => Some acc
  | String c rest =>
      let n := Z.of_nat (nat_of_ascii c) in
      if (48 <=? n) && (n <=? 57) then digits_value (10 * acc + (n - 48)) rest
      else None
  end.

Definition decimal_parseInt (s : string) : option Z :=
  match s with
  | EmptyString => None
  | _ => digits_value 0 s
  end.

(** POSIX-like paths. *)
Definition posix_join (a b : string) : string := a +:+ "/" +:+ b.
Definition posix_inside (d p : string) : bool :=
  String.eqb d p || String.prefix (d +:+ "/") p.
Definition posix_relative (base p : string) : string :=
  if String.prefix (base +:+ "/") p
  then String.substring (String.length base + 1)
         (String.length p - (String.length base + 1)) p
  else p.

(** An engine that knows the three inserts of the atomic batch. *)
Definition demo_sql_run (q : string) (ps : list SqlValue) (t : Tables)
    : Error + (RunInfo * Tables) :=
  if String.eqb q INSERT_highlight_clip then
    match ps with
    | [VInt job; VText title; VText path; VReal d; VReal s; VReal e; VReal c] =>
        let newId := seq_highlight_clips t + 1 in
        inr (mkRunInfo newId 1,
             set_highlight_clips
               (highlight_clips t ++ [mkClipRow newId job title path None d s e c])
               newId t)
    | _ => inl (new_Error "SQLITE_CONSTRAINT: NOT NULL constraint failed: highlight_clips")
    end
  else if String.eqb q INSERT_thumbnail then
    match ps with
    | [VInt job; VText path; VReal ts; VInt width; VInt height] =>
        let newId := seq_thumbnails t + 1 in
        inr (mkRunInfo newId 1,
             set_thumbnails
               (thumbnails t ++ [mkThumbRow newId job path ts width height]) newId t)
    | _ => inl (new_Error "SQLITE_CONSTRAINT: NOT NULL constraint failed: thumbnails")
    end
  else if String.eqb q INSERT_caption then
    match ps with
    | [VInt job; VText platform; VText content; VText hashtags] =>
        let newId := seq_captions t + 1 in
        inr (mkRunInfo newId 1,
             set_captions
               (captions t ++ [mkCaptionRow newId job platform content (Some hashtags)])
               newId t)
    | _ => inl (new_Error "SQLITE_CONSTRAINT: NOT NULL constraint failed: captions")
    end
  else inl (new_Error "SQLITE_ERROR: syntax error").

Definition upstream_unavailable : Error := new_Error "upstream unavailable".
Definition database_locked : Error := new_Error "SQLITE_BUSY: database is locked".

(** A host with an OpenAI key configured whose analyzer is down. *)
#[export] Instance demo_host : Host := {|
  Date_parse := calendar_parse;
  Date_toISOString := calendar_print;
  parseInt := decimal_parseInt;
  env := fun name =>
    if String.eqb name "OPENAI_API_KEY" then Some "sk-live-0123456789abcdefghij"
    else None;
  sql_get := fun _ _ _ => inr None;
  sql_run := demo_sql_run;
  path_join := posix_join;
  path_relative := posix_relative;
  path_isAbsolute := String.prefix "/";
  path_inside := posix_inside;
  getClipPath := fun resultId index _ =>
    "./uploads/clips/clip_" +:+ pretty resultId +:+ "_" +:+ pretty index +:+ ".mp4";
  getThumbnailPath := fun resultId index _ =>
    "./uploads/thumbnails/thumb_" +:+ pretty resultId +:+ "_" +:+ pretty index +:+ ".jpg";
  analyzeVideo := fun _ => throw upstream_unavailable;
  extractHighlightClips := fun _ _ _ => ret [];
  generateThumbnails := fun _ _ _ => ret []
|}.

Definition no_tables : Tables :=
  mkTables ∅ ∅ ∅ 0 [] 0 [] 0 [] 0.

(** 2026-01-01T00:00:00.000Z *)
Definition new_year_2026 : Z := 1767225600000.

(** A world with the one user [7]. *)
Definition world_of_user (r : UserRow) (fs : list (option Error)) : World :=
  mkWorld (set_users (fun _ => {[ 7 := r ]}) no_tables) None fs new_year_2026 ∅ [].

(** A world with the one user [7] and the one uploaded video [1]. *)
Definition talk_mp4 : VideoRow :=
  mkVideoRow "talk.mp4" "videos/video_1_talk.mp4" 1048576 "video/mp4".

Definition world_with_video (r : UserRow) (fs : list (option Error)) : World :=
  mkWorld (mkTables {[ 7 := r ]} {[ 1 := talk_mp4 ]} ∅ 0 [] 0 [] 0 [] 0)
          None fs new_year_2026 ∅ [].

Definition credits_of (w : World) (userId : Z) : option Z :=
  u_credits <$> users (db w) !! userId.

Definition job_of (w : World) (resultId : Z) : option JobRow :=
  processing_results (db w) !! resultId.

(** Operations, requests and worlds used to run the model. *)
Definition caption_op : TransactionOperation :=
  mkTransactionOperation INSERT_caption
    (Some [VInt 1; VText "youtube"; VText "hello"; VText "a,b"]).


Definition idle_world (fs : list (option Error)) : World :=
  mkWorld no_tables None fs new_year_2026 ∅ [].

Definition alice : AuthUser := mkAuthUser 7 "alice@example.com".

(** A world in which job [1], of an anonymous request for video [1], has
    just been created. *)
Definition job_started (fs : list (option Error)) : World :=
  mkWorld
    (mkTables ∅ {[ 1 := talk_mp4 ]}
       {[ 1 := mkJobRow 1 None "processing" 0 None ]} 1 [] 0 [] 0 [] 0)
    None fs new_year_2026 ∅ [].

(** A job still 'processing' for which a highlight row is nevertheless
    stored. *)
Definition stray_clip : ClipRow :=
  mkClipRow 1 1 "Opening Scene" "clips/clip_1_0.mp4" None 30 5 35 (95 # 100).

Definition world_with_stray_rows : World :=
  mkWorld
    (mkTables ∅ {[ 1 := talk_mp4 ]}
       {[ 1 := mkJobRow 1 None "processing" 0 None ]} 1 [stray_clip] 1 [] 0 [] 0)
    None [] new_year_2026 ∅ [].

(** A host without any API key: the analysis is never attempted. *)
Definition offline_host : Host := {|
  Date_parse := calendar_parse;
  Date_toISOString := calendar_print;
  parseInt := decimal_parseInt;
  env := fun _ => None;
  sql_get := fun _ _ _ => inr None;
  sql_run := demo_sql_run;
  path_join := posix_join;
  path_relative := posix_relative;
  path_isAbsolute := String.prefix "/";
  path_inside := posix_inside;
  getClipPath := fun resultId index _ =>
    "./uploads/clips/clip_" +:+ pretty resultId +:+ "_" +:+ pretty index +:+ ".mp4";
  getThumbnailPath := fun resultId index _ =>
    "./uploads/thumbnails/thumb_" +:+ pretty resultId +:+ "_" +:+ pretty index +:+ ".jpg";
  analyzeVideo := fun _ => throw upstream_unavailable;
  extractHighlightClips := fun _ _ _ => ret [];
  generateThumbnails := fun _ _ _ => ret []
|}.

(** The world at another clock reading. *)
Definition at_time (t : Z) (w : World) : World :=
  mkWorld (db w) (txn w) (faults w) t (files w) (console w).

(** 2030-03-17T17:46:40.000Z *)
Definition spring_2030 : Z := 1900000000000.


(** A world in which a transaction is open that has written one caption. *)
Definition first_caption : CaptionRow :=
  mkCaptionRow 1 1 "youtube" "hello" (Some "a,b").

Definition world_in_transaction : World :=
  mkWorld (set_captions [first_caption] 1 no_tables) (Some no_tables) []
    new_year_2026 ∅ [].

(** The world of the stray clip row, with the clip's file on disk beside
    an upload. *)
Definition world_with_clip_file : World :=
  set_files {[ "./uploads/clips/clip_1_0.mp4"; "./uploads/videos/video_1_talk.mp4" ]}
    world_with_stray_rows.

(** A world in which job [1] is 'completed' and owns two clips and two
    thumbnails, stored latest first, and two captions; a clip and a
    caption of another job are stored between them. *)
Definition closing_clip : ClipRow :=
  mkClipRow 1 1 "Closing Remarks" "clips/clip_1_1.mp4" None 20 60 80 (90 # 100).
Definition opening_clip : ClipRow :=
  mkClipRow 3 1 "Opening Scene" "clips/clip_1_0.mp4" None 30 5 35 (95 # 100).
Definition foreign_clip : ClipRow :=
  mkClipRow 2 2 "Elsewhere" "clips/clip_2_0.mp4" None 10 0 10 (80 # 100).
Definition foreign_caption : CaptionRow :=
  mkCaptionRow 2 2 "tiktok" "elsewhere" (Some "x").
Definition second_caption : CaptionRow :=
  mkCaptionRow 3 1 "instagram" "again" (Some "c").

Definition late_thumbnail : ThumbRow :=
  mkThumbRow 1 1 "thumbnails/thumb_1_1.jpg" 70 1920 1080.
Definition early_thumbnail : ThumbRow :=
  mkThumbRow 2 1 "thumbnails/thumb_1_0.jpg" 12 1920 1080.

Definition world_with_completed_job : World :=
  mkWorld
    (mkTables ∅ {[ 1 := talk_mp4 ]}
       {[ 1 := mkJobRow 1 None "completed" 100 None ]} 1
       [closing_clip; foreign_clip; opening_clip] 3
       [late_thumbnail; early_thumbnail] 2
       [first_caption; foreign_caption; second_caption] 3)
    None [] new_year_2026 ∅ [].

(** A callback that adds one caption insert to the transaction and
    answers 42. *)
Definition adding_callback (this : DatabaseTransaction) : M (Z * DatabaseTransaction) :=
  match DatabaseTransaction.add (query caption_op) (params caption_op) this with
  | inr this' => ret (42, this')
  | inl e => throw e
  end.

(** An operation that takes until spring 2030 and then fails. *)
Definition slow_failure : M unit :=
  fun w => (Throw upstream_unavailable, at_time spring_2030 w).

Definition tagged_caption : CaptionVariant :=
  mkCaptionVariant "youtube" "hello" ["tips"; "howto"] [].

Definition anonymous_request (id : string) : Request := mkRequest id None.

(* ===================================================================== *)
(** * Vocabulary of the statements *)
(* ===================================================================== *)

(** ** Relating the tables, or the worlds, before and after a computation *)

(** [m] takes the tables from [t] to [t'] only when [R t t']: whatever the
    store answers, and whether [m] returns or throws. *)
Definition db_rel {A} (R : Tables -> Tables -> Prop) (m : M A) : Prop :=
  forall w c w', m w = (c, w') -> R (db w) (db w').

(** The same, on whole worlds. *)
Definition world_rel {A} (R : World -> World -> Prop) (m : M A) : Prop :=
  forall w c w', m w = (c, w') -> R w w'.

(** [m] never ends the process: its promise is fulfilled or rejected. *)
Definition settles {A} (m : M A) : Prop :=
  forall w w', m w <> (Exit, w').

(** The world once the store has taken the next entry of its script. *)
Definition consumed (w : World) : World := set_faults (tail (faults w)) w.

Section Vocabulary.
Context `{Host}.
Import CreditService DatabaseTransaction video_routes.

(** ** The credit ledger *)

(** How [checkCredits] reads a stored row. *)
Definition user_of_row (userId : Z) (r : UserRow) : User :=
  mkUser userId (u_credits r) (u_is_subscribed r =? 1) (u_subscription_expires_at r).

(** The four kinds of stored row, at clock reading [t]. *)
Definition flagged (r : UserRow) : bool := u_is_subscribed r =? 1.

Definition has_expiry (r : UserRow) : bool := truthy_str (u_subscription_expires_at r).

Definition unexpired (r : UserRow) (t : Z) : bool :=
  Date_gt (Date_parse (default "" (u_subscription_expires_at r))) t.

Definition active_subscriber (r : UserRow) (t : Z) : bool :=
  flagged r && has_expiry r && unexpired r t.

Definition expired_subscriber (r : UserRow) (t : Z) : bool :=
  flagged r && has_expiry r && negb (unexpired r t).

Definition perpetual_subscriber (r : UserRow) : bool :=
  flagged r && negb (has_expiry r).

Definition non_subscriber (r : UserRow) : bool := negb (flagged r).

(** What the lazy downgrade leaves in the row, and the world after it. *)
Definition downgraded (r : UserRow) : UserRow := mkUserRow (u_credits r) 0 None.

Definition after_downgrade (uid : Z) (r : UserRow) (w : World) : World :=
  set_console
    (console w ++
       [mkLogEntry LLog
          ("Updated subscription status for user " +:+ pretty uid +:+ ": " +:+ "false")
          None])
    (set_db (set_users (<[uid := downgraded r]>) (db w)) w).

(** What one deduction for [uid] may do to the [users] table: every row
    present afterwards was present before, with the same credits, except
    that [uid]'s row may have lost exactly one credit from a balance that
    was positive. *)
Definition spends_at_most_one (uid : Z) (t t' : Tables) : Prop :=
  forall uid' r', users t' !! uid' = Some r' ->
    exists r, users t !! uid' = Some r /\
      (u_credits r' = u_credits r \/
       (uid' = uid /\ 0 < u_credits r /\ u_credits r' = u_credits r - 1)).

(** Every row present afterwards was present before with the same credits. *)
Definition keeps_credits (t t' : Tables) : Prop :=
  forall uid' r', users t' !! uid' = Some r' ->
    exists r, users t !! uid' = Some r /\ u_credits r' = u_credits r.

(** The row after one credit has been taken. *)
Definition charged (r : UserRow) : UserRow :=
  mkUserRow (u_credits r - 1) (u_is_subscribed r) (u_subscription_expires_at r).

(** A row that [checkCredits] lets through without looking at the balance. *)
Definition subscriber_in_effect (r : UserRow) (t : Z) : bool :=
  active_subscriber r t || perpetual_subscriber r.

(** The row after one credit has been given back. *)
Definition refunded (r : UserRow) : UserRow :=
  mkUserRow (u_credits r + 1) (u_is_subscribed r) (u_subscription_expires_at r).

(** What one refund for [uid] may do to the [users] table. *)
Definition gains_at_most_one (uid : Z) (t t' : Tables) : Prop :=
  forall uid' r', users t' !! uid' = Some r' ->
    exists r, users t !! uid' = Some r /\
      (u_credits r' = u_credits r \/
       (uid' = uid /\ u_credits r' = u_credits r + 1)).

(** The world in which the compensating refund starts. *)
Definition rollback_announced (uid : Z) (w : World) : World :=
  snd (console_log ("Operation failed, rolling back credit deduction for user "
                    +:+ pretty uid) w).

(** ** The transaction coordinator *)



(** ** The job orchestrator and the status read model *)

(** The job table is as it was. *)
Definition same_jobs (t t' : Tables) : Prop :=
  processing_results t' = processing_results t
  /\ seq_processing_results t' = seq_processing_results t.

(** The user id stored with the job: [req.user?.id || null]. *)
Definition owner_of (u : AuthUser) : option Z :=
  if au_id u =? 0 then None else Some (au_id u).

(** Cleanup touches neither the tables nor an open transaction, and only
    ever removes files. *)
Definition only_deletes (w w' : World) : Prop :=
  db w' = db w /\ txn w' = txn w /\ files w' ⊆ files w.

(** The cleanup step of the [catch] block, with its own [try]/[catch]. *)
Definition cleanup_step (videoId resultId : Z) : M unit :=
  try_catch
    (fileManager.cleanupProcessingFiles resultId ;;
     fileManager.cleanupFrames videoId)
    (fun cleanupError => console_error "Error during cleanup:" cleanupError).

(** The job and its video, as the handler's join selects them. *)
Definition job_with_video (processingId : Z) (t : Tables) : option (JobRow * VideoRow) :=
  match processing_results t !! processingId with
  | Some pr =>
      match videos t !! pr_video_id pr with
      | Some v => Some (pr, v)
      | None => None
      end
  | None => None
  end.

(** The order [ORDER BY key] promises. *)
Definition by_key {A} (key : A -> Q) (a b : A) : Prop := (key a <= key b)%Q.

(** ** Concurrent deductions *)

(** What a call in flight may assume, given the credits [c] now stored:
    the record it read before a downgrade showed at least [c] credits (a
    balance only goes down during the race), an error it settled with
    reports a lack of credits, and it has not ended the process. *)
Definition waiting_ok (c : Z) (s : Deduction) : Prop :=
  match s with
  | BeforeDowngrade ud => c <= credits ud /\ credits ud <= 1
  | Settled (Throw e) => insufficient_credits e
  | Settled Exit => False
  | _ => True
  end.

(** The invariant of the race: the credit is stored or has been taken by
    exactly one call, and no call has settled while it is still stored. *)
Definition spent_once (uid : Z) (a b : Deduction) (w : World) : Prop :=
  healthy w /\
  exists r',
    users (db w) !! uid = Some r'
    /\ subscriber_in_effect r' (now w) = false
    /\ (u_credits r' = 0 \/ u_credits r' = 1)
    /\ waiting_ok (u_credits r') a /\ waiting_ok (u_credits r') b
    /\ ~ (succeeded a = true /\ succeeded b = true)
    /\ (u_credits r' = 1 -> is_settled a = false /\ is_settled b = false)
    /\ (u_credits r' = 0 -> succeeded a = true \/ succeeded b = true).

(** A call is at most three steps from its end. *)
Definition steps_left (s : Deduction) : nat :=
  match s with
  | BeforeCheck => 3
  | BeforeDowngrade _ => 2
  | BeforeUpdate => 1
  | Settled _ => 0
  end.

End Vocabulary.

(** ** File names *)

(** [[a-z0-9._-]] and the underscore: the units of a sanitized name. *)
Definition is_safe_unit (c : Z) : bool :=
  ((97 <=? c) && (c <=? 122)) || ((48 <=? c) && (c <=? 57))
  || (c =? 46) || (c =? 45) || (c =? underscore).

(** No underscore is followed by another. *)
Fixpoint no_double_underscore (s : JsString) : Prop :=
  match s with
  | [] => True
  | c :: rest =>
      (c = underscore -> head rest <> Some underscore) /\ no_double_underscore rest
  end.

(** A unit that [sanitizeFilename] keeps as it is or in lower case. *)
Definition is_name_unit (c : Z) : bool :=
  is_ascii_alnum c || (c =? 46) || (c =? 45).

(** ** The credit ledger *)

(** The row after [amount] credits have been added. *)
Definition credited (amount : Z) (r : UserRow) : UserRow :=
  mkUserRow (u_credits r + amount) (u_is_subscribed r) (u_subscription_expires_at r).

(** The reasons for which [checkCredits] denies. *)
Definition denial_reasons : list string :=
  ["Authentication required"; "User not found"; "Insufficient credits"].

(** ** The routes *)

(** Who may read a job: anyone when it has no owner ([user_id] NULL or
    0), its owner alone otherwise. *)
Definition may_read (requester : option AuthUser) (pr : JobRow) : bool :=
  match pr_user_id pr with
  | Some owner =>
      (owner =? 0)
      || match requester with
         | Some u => au_id u =? owner
         | None => false
         end
  | None => true
  end.

(** The query changed nothing but the script of the store's answers. *)
Definition nothing_written (w w' : World) : Prop :=
  db w' = db w /\ txn w' = txn w /\ files w' = files w /\ console w' = console w.

Fixpoint has_comma (s : string) : bool :=
  match s with
  | EmptyString => false
  | String c rest => Ascii.eqb c ","%char || has_comma rest
  end.

Section VocabularyMore.
Context `{Host}.
Import video_routes.

(** ** Files *)

(** The path [deleteFile] works on: a relative path is taken from the
    uploads directory. *)
Definition resolved (filePath : string) : string :=
  if path_isAbsolute filePath then filePath else fileManager.getAbsolutePath filePath.

(** The file paths stored for a job: those of its clips, then those of
    its thumbnails. *)
Definition job_file_paths (resultId : Z) (t : Tables) : list string :=
  (hc_file_path <$>
     filter (fun c => hc_processing_result_id c = resultId) (highlight_clips t))
  ++ (th_file_path <$>
        filter (fun c => th_processing_result_id c = resultId) (thumbnails t)).

(** [p] is the file of one of the paths, the empty path apart. *)
Definition listed (paths : list string) (p : string) : Prop :=
  exists f, f ∈ paths /\ f <> "" /\ p = resolved f.

(** ** The job from its start to its end *)

(** The engine runs the three inserts of the atomic batch without
    touching the users or the jobs. *)
Definition engine_keeps_ledger : Prop :=
  forall q ps t info t',
    q ∈ [INSERT_highlight_clip; INSERT_thumbnail; INSERT_caption] ->
    sql_run q ps t = inr (info, t') ->
    users t' = users t
    /\ processing_results t' = processing_results t
    /\ seq_processing_results t' = seq_processing_results t.

End VocabularyMore.

(** ** Concurrent deductions on any balance *)

(** The credits a call has taken: one when it succeeded. *)
Definition spent (s : Deduction) : Z := if succeeded s then 1 else 0.

(** A call that has not failed, and that has not read a balance below
    the one stored now, [c]. *)
Definition unfailed (c : Z) (s : Deduction) : Prop :=
  match s with
  | Settled (Throw _) => False
  | Settled Exit => False
  | BeforeDowngrade ud => c <= credits ud
  | _ => True
  end.

Section RaceVocabulary.
Context `{Host}.

(** The invariant of two racing calls on a user who started with [c0]
    credits: what is stored and what the calls have taken add up to
    [c0]; and when [c0] is two or more, neither call has failed. *)
Definition conserved (uid c0 : Z) (a b : Deduction) (w : World) : Prop :=
  healthy w /\
  exists r',
    users (db w) !! uid = Some r'
    /\ subscriber_in_effect r' (now w) = false
    /\ 0 <= u_credits r'
    /\ u_credits r' + spent a + spent b = c0
    /\ (2 <= c0 -> unfailed (u_credits r') a /\ unfailed (u_credits r') b).

End RaceVocabulary.
(* ===================================================================== *)
(** * Basic facts about the monad and the connection *)
(* ===================================================================== *)

Lemma set_db_same w : set_db (db w) w = w.
Proof. by destruct w. Qed.

Lemma db_call_healthy {A} (stmt : Tables -> Error + (A * Tables)) w :
  healthy w ->
  db_call stmt w =
    match stmt (db w) with
    | inl e => (Throw e, w)
    | inr (a, t) => (Normal a, set_db t w)
    end.
Proof. unfold healthy, db_call, answered. by intros ->. Qed.

Lemma db_read_healthy {A} (q : Tables -> A) w :
  healthy w -> db_read q w = (Normal (q (db w)), w).
Proof.
  intros Hw. unfold db_read. rewrite db_call_healthy by done.
  by rewrite set_db_same.
Qed.

(** A call on the connection either fails, leaving the tables alone, or
    runs its statement on the tables as they are. *)
Lemma db_call_cases {A} (stmt : Tables -> Error + (A * Tables)) w :
  (exists e w', db_call stmt w = (Throw e, w') /\ db w' = db w /\
                txn w' = txn w /\ files w' = files w /\ console w' = console w)
  \/ (exists a t w', stmt (db w) = inr (a, t) /\ db_call stmt w = (Normal a, w') /\
                     db w' = t /\ txn w' = txn w /\ files w' = files w /\
                     console w' = console w /\
                     (healthy w -> healthy w')).
Proof.
  unfold db_call, answered, healthy.
  destruct (faults w) as [|[e|] fs] eqn:Hf; simpl.
  - destruct (stmt (db w)) as [e|[a t]] eqn:Hs.
    + left. by exists e, w.
    + right. by exists a, t, (set_db t w).
  - left. by exists e, (set_faults fs w).
  - destruct (stmt (db w)) as [e|[a t]] eqn:Hs.
    + left. by exists e, (set_faults fs w).
    + right. by exists a, t, (set_db t (set_faults fs w)).
Qed.

(** ** Relating the tables before and after a computation *)

Section DbRel.
Context (R : Tables -> Tables -> Prop) (R_refl : forall t, R t t).

Lemma db_rel_ret {A} (a : A) : db_rel R (ret a).
Proof. intros w c w' [= _ <-]. apply R_refl. Qed.

Lemma db_rel_throw {A} e : db_rel R (@throw A e).
Proof. intros w c w' [= _ <-]. apply R_refl. Qed.

Lemma db_rel_console_log s : db_rel R (console_log s).
Proof. intros w c w' [= _ <-]. apply R_refl. Qed.

Lemma db_rel_console_warn s : db_rel R (console_warn s).
Proof. intros w c w' [= _ <-]. apply R_refl. Qed.

Lemma db_rel_console_error s e : db_rel R (console_error s e).
Proof. intros w c w' [= _ <-]. apply R_refl. Qed.

Lemma db_rel_new_Date : db_rel R new_Date.
Proof. intros w c w' [= _ <-]. apply R_refl. Qed.

Lemma db_rel_db_call {A} (stmt : Tables -> Error + (A * Tables)) :
  (forall t a t', stmt t = inr (a, t') -> R t t') ->
  db_rel R (db_call stmt).
Proof.
  intros Hs w c w' Hm.
  destruct (db_call_cases stmt w) as [(e & w1 & Hc & Hd & _)|(a & t & w1 & Hst & Hc & Hd & _)];
    rewrite Hc in Hm; injection Hm as <- <-; rewrite Hd.
  - apply R_refl.
  - by eapply Hs.
Qed.

Lemma db_rel_db_read {A} (q : Tables -> A) : db_rel R (db_read q).
Proof. apply db_rel_db_call. intros t a t' [= _ <-]. apply R_refl. Qed.

End DbRel.

Lemma db_rel_bind {A B} (R1 R2 R3 : Tables -> Tables -> Prop)
    (m : M A) (k : A -> M B) :
  (forall a b, R1 a b -> R3 a b) ->
  (forall a b c, R1 a b -> R2 b c -> R3 a c) ->
  db_rel R1 m -> (forall x, db_rel R2 (k x)) -> db_rel R3 (bind m k).
Proof.
  intros H13 H123 Hm Hk w c w' Hb. unfold bind in Hb.
  destruct (m w) as [[a|e|] w1] eqn:Hmw.
  - eapply H123; [by eapply Hm | by eapply Hk].
  - injection Hb as <- <-. eapply H13, Hm, Hmw.
  - injection Hb as <- <-. eapply H13, Hm, Hmw.
Qed.

Lemma db_rel_try_catch {A} (R1 R2 R3 : Tables -> Tables -> Prop)
    (body : M A) (handler : Error -> M A) :
  (forall a b, R1 a b -> R3 a b) ->
  (forall a b c, R1 a b -> R2 b c -> R3 a c) ->
  db_rel R1 body -> (forall e, db_rel R2 (handler e)) ->
  db_rel R3 (try_catch body handler).
Proof.
  intros H13 H123 Hm Hk w c w' Hb. unfold try_catch in Hb.
  destruct (body w) as [[a|e|] w1] eqn:Hmw.
  - injection Hb as <- <-. eapply H13, Hm, Hmw.
  - eapply H123; [by eapply Hm | by eapply Hk].
  - injection Hb as <- <-. eapply H13, Hm, Hmw.
Qed.

Lemma db_rel_weaken {A} (R1 R2 : Tables -> Tables -> Prop) (m : M A) :
  (forall a b, R1 a b -> R2 a b) -> db_rel R1 m -> db_rel R2 m.
Proof. intros H12 Hm w c w' Hw. eapply H12, Hm, Hw. Qed.

Lemma bind_normal {A B} (m : M A) (k : A -> M B) w a w' :
  m w = (Normal a, w') -> bind m k w = k a w'.
Proof. unfold bind. by intros ->. Qed.

Lemma bind_throw {A B} (m : M A) (k : A -> M B) w e w' :
  m w = (Throw e, w') -> bind m k w = (Throw e, w').
Proof. unfold bind. by intros ->. Qed.

Lemma bind_exit {A B} (m : M A) (k : A -> M B) w w' :
  m w = (Exit, w') -> bind m k w = (Exit, w').
Proof. unfold bind. by intros ->. Qed.

(** ** Computations that never end the process *)

Lemma settles_ret {A} (a : A) : settles (ret a).
Proof. by intros w w'. Qed.

Lemma settles_throw {A} e : settles (@throw A e).
Proof. by intros w w'. Qed.

Lemma settles_console_log s : settles (console_log s).
Proof. by intros w w'. Qed.

Lemma settles_console_warn s : settles (console_warn s).
Proof. by intros w w'. Qed.

Lemma settles_console_error s e : settles (console_error s e).
Proof. by intros w w'. Qed.

Lemma settles_new_Date : settles new_Date.
Proof. by intros w w'. Qed.

Lemma settles_answered {A} (run : World -> Completion A * World) :
  settles run -> settles (answered run).
Proof.
  intros Hrun w w'. unfold answered.
  destruct (faults w) as [|[e|] fs]; [apply Hrun|done|apply Hrun].
Qed.

Lemma settles_db_call {A} (stmt : Tables -> Error + (A * Tables)) :
  settles (db_call stmt).
Proof.
  intros w w' Hc.
  destruct (db_call_cases stmt w) as [(e & w1 & E & _)|(a & t & w1 & _ & E & _)];
    congruence.
Qed.

Lemma settles_db_read {A} (q : Tables -> A) : settles (db_read q).
Proof. apply settles_db_call. Qed.

Lemma settles_bind {A B} (m : M A) (k : A -> M B) :
  settles m -> (forall x, settles (k x)) -> settles (bind m k).
Proof.
  intros Hm Hk w w'. unfold bind.
  destruct (m w) as [[a|e|] w1] eqn:E; [apply Hk|done|].
  by destruct (Hm w w1).
Qed.

Lemma settles_try_catch {A} (body : M A) (handler : Error -> M A) :
  settles body -> (forall e, settles (handler e)) -> settles (try_catch body handler).
Proof.
  intros Hm Hk w w'. unfold try_catch.
  destruct (body w) as [[a|e|] w1] eqn:E; [done|apply Hk|].
  by destruct (Hm w w1).
Qed.

Lemma settles_ignoring_err m : settles m -> settles (ignoring_err m).
Proof. intros Hm. apply settles_try_catch; [done|]. intros e. apply settles_ret. Qed.

Lemma settles_BEGIN_TRANSACTION : settles BEGIN_TRANSACTION.
Proof. apply settles_answered. intros w w'. by destruct (txn w). Qed.

Lemma settles_COMMIT : settles COMMIT.
Proof. apply settles_answered. intros w w'. by destruct (txn w). Qed.

Lemma settles_ROLLBACK : settles ROLLBACK.
Proof. apply settles_answered. intros w w'. by destruct (txn w). Qed.

(** A computation that settles ends in one of two ways. *)
Lemma settles_cases {A} (m : M A) w :
  settles m ->
  (exists a w', m w = (Normal a, w')) \/ (exists e w', m w = (Throw e, w')).
Proof.
  intros Hm. destruct (m w) as [[a|e|] w'] eqn:E; [eauto..|].
  by destruct (Hm w w').
Qed.

Ltac settle_step :=
  lazymatch goal with
  | |- settles (bind _ _) => apply settles_bind; [|intros ?]
  | |- settles (try_catch _ _) => apply settles_try_catch; [|intros ?]
  | |- settles (ignoring_err _) => apply settles_ignoring_err
  | |- settles (ret _) => apply settles_ret
  | |- settles (throw _) => apply settles_throw
  | |- settles (console_log _) => apply settles_console_log
  | |- settles (console_warn _) => apply settles_console_warn
  | |- settles (console_error _ _) => apply settles_console_error
  | |- settles new_Date => apply settles_new_Date
  | |- settles (db_read _) => apply settles_db_read
  | |- settles (db_call _) => apply settles_db_call
  | |- settles BEGIN_TRANSACTION => apply settles_BEGIN_TRANSACTION
  | |- settles COMMIT => apply settles_COMMIT
  | |- settles ROLLBACK => apply settles_ROLLBACK
  end.

Ltac settle := repeat settle_step.

(** ** Relating the worlds before and after a computation *)

Section WorldRel.
Context (R : World -> World -> Prop).
Context (R_refl : forall w, R w w).
Context (R_trans : forall a b c, R a b -> R b c -> R a c).
Context (R_console : forall w l, R w (set_console l w)).
Context (R_faults : forall w fs, R w (set_faults fs w)).

Lemma world_rel_ret {A} (a : A) : world_rel R (ret a).
Proof. intros w c w' [= _ <-]. apply R_refl. Qed.

Lemma world_rel_throw {A} e : world_rel R (@throw A e).
Proof. intros w c w' [= _ <-]. apply R_refl. Qed.

Lemma world_rel_console_log s : world_rel R (console_log s).
Proof. intros w c w' [= _ <-]. apply R_console. Qed.

Lemma world_rel_console_error s e : world_rel R (console_error s e).
Proof. intros w c w' [= _ <-]. apply R_console. Qed.

Lemma world_rel_bind {A B} (m : M A) (k : A -> M B) :
  world_rel R m -> (forall x, world_rel R (k x)) -> world_rel R (bind m k).
Proof.
  intros Hm Hk w c w' Hb. unfold bind in Hb.
  destruct (m w) as [[a|e|] w1] eqn:Hmw.
  - eapply R_trans; [by eapply Hm | by eapply Hk].
  - injection Hb as <- <-. eapply Hm, Hmw.
  - injection Hb as <- <-. eapply Hm, Hmw.
Qed.

Lemma world_rel_try_catch {A} (body : M A) (handler : Error -> M A) :
  world_rel R body -> (forall e, world_rel R (handler e)) ->
  world_rel R (try_catch body handler).
Proof.
  intros Hm Hk w c w' Hb. unfold try_catch in Hb.
  destruct (body w) as [[a|e|] w1] eqn:Hmw.
  - injection Hb as <- <-. eapply Hm, Hmw.
  - eapply R_trans; [by eapply Hm | by eapply Hk].
  - injection Hb as <- <-. eapply Hm, Hmw.
Qed.

Lemma world_rel_answered {A} (run : World -> Completion A * World) :
  world_rel R run -> world_rel R (answered run).
Proof.
  intros Hrun w c w' Ha. unfold answered in Ha.
  destruct (faults w) as [|[e|] fs].
  - by eapply Hrun.
  - injection Ha as <- <-. apply R_faults.
  - eapply R_trans; [apply R_faults | by eapply Hrun].
Qed.

End WorldRel.

(* ===================================================================== *)
(** * The credit ledger: [checkCredits] *)
(* ===================================================================== *)

Section Ledger.
Context `{Host}.
Import CreditService.

#[local] Arguments checkCredits : simpl never.
#[local] Arguments pretty : simpl never.

Lemma checkCredits_missing userId w :
  truthy_num userId = false ->
  checkCredits userId w =
    (Normal (mkCreditCheckResult false None (Some "Authentication required")), w).
Proof.
  intros Hf. unfold checkCredits. destruct userId as [uid|]; [|done].
  by rewrite Hf.
Qed.

Lemma checkCredits_unknown uid w :
  healthy w -> uid <> 0 -> users (db w) !! uid = None ->
  checkCredits (Some uid) w =
    (Normal (mkCreditCheckResult false None (Some "User not found")), w).
Proof.
  intros Hw Hu Hr. unfold checkCredits, truthy_num.
  destruct (Z.eqb_spec uid 0) as [|_]; [done|]. simpl.
  unfold bind. rewrite db_read_healthy by done. by rewrite Hr.
Qed.

Lemma updateSubscriptionStatus_downgrades uid r w :
  healthy w -> users (db w) !! uid = Some r ->
  updateSubscriptionStatus uid false None w = (Normal tt, after_downgrade uid r w).
Proof.
  intros Hw Hr. unfold updateSubscriptionStatus, bind.
  rewrite db_call_healthy by done. unfold set_users at 1. by rewrite Hr.
Qed.

Lemma balance_verdict_user ud : user (balance_verdict ud) = Some ud.
Proof. unfold balance_verdict. by destruct (_ && _). Qed.

(** The whole of [checkCredits] on a stored row, when the store answers. *)
Lemma checkCredits_row uid r w :
  healthy w -> uid <> 0 -> users (db w) !! uid = Some r ->
  checkCredits (Some uid) w =
    if flagged r && has_expiry r
    then if unexpired r (now w)
         then (Normal (mkCreditCheckResult true (Some (user_of_row uid r)) None), w)
         else (Normal (balance_verdict (mkUser uid (u_credits r) false None)),
               after_downgrade uid r w)
    else (Normal (balance_verdict (user_of_row uid r)), w).
Proof.
  intros Hw Hu Hr. unfold checkCredits, truthy_num.
  destruct (Z.eqb_spec uid 0) as [|_]; [done|]. simpl.
  unfold bind at 1. rewrite db_read_healthy by done. rewrite Hr.
  cbn [isSubscribed subscriptionExpiresAt id credits].
  fold (flagged r) (has_expiry r).
  destruct (flagged r && has_expiry r) eqn:Hfl; [|done].
  unfold bind at 1, new_Date. fold (unexpired r (now w)).
  destruct (unexpired r (now w)); [done|].
  unfold bind at 1, updateSubscriptionStatus, bind at 1.
  rewrite db_call_healthy by done. unfold set_users at 1. rewrite Hr.
  reflexivity.
Qed.

(** C5. [checkCredits] performs this case analysis.  With the store
    answering and [uid] a real (non-zero) id:
    - a missing (or zero) user id is denied, "Authentication required";
    - an id with no row is denied, "User not found";
    - a row with the flag set and an expiry later than the clock may
      proceed whatever its balance, and nothing is written;
    - a row with the flag set and an expiry not later than the clock is
      downgraded (flag cleared, expiry cleared) and then judged on its
      balance;
    - a row without the flag and with credits <= 0 is denied,
      "Insufficient credits";
    - every other row may proceed, and nothing is written. *)
Theorem checkCredits_case_analysis (w : World) (uid : Z) (r : UserRow) :
  healthy w -> uid <> 0 ->
  (forall userId, truthy_num userId = false ->
     checkCredits userId w =
       (Normal (mkCreditCheckResult false None (Some "Authentication required")), w))
  /\ (users (db w) !! uid = None ->
      checkCredits (Some uid) w =
        (Normal (mkCreditCheckResult false None (Some "User not found")), w))
  /\ (users (db w) !! uid = Some r ->
      (active_subscriber r (now w) = true ->
         checkCredits (Some uid) w =
           (Normal (mkCreditCheckResult true (Some (user_of_row uid r)) None), w))
      /\ (expired_subscriber r (now w) = true ->
          exists v w',
            checkCredits (Some uid) w = (Normal v, w')
            /\ users (db w') = <[uid := mkUserRow (u_credits r) 0 None]> (users (db w))
            /\ user v = Some (mkUser uid (u_credits r) false None)
            /\ (u_credits r <= 0 ->
                canProceed v = false /\ reason v = Some "Insufficient credits")
            /\ (0 < u_credits r -> canProceed v = true /\ reason v = None))
      /\ (non_subscriber r = true -> u_credits r <= 0 ->
          checkCredits (Some uid) w =
            (Normal (mkCreditCheckResult false (Some (user_of_row uid r))
                       (Some "Insufficient credits")), w))
      /\ (active_subscriber r (now w) = false ->
          expired_subscriber r (now w) = false ->
          ~ (non_subscriber r = true /\ u_credits r <= 0) ->
          checkCredits (Some uid) w =
            (Normal (mkCreditCheckResult true (Some (user_of_row uid r)) None), w))).
Proof.
  intros Hw Hu. split; [|split].
  - intros userId Hf. by apply checkCredits_missing.
  - by apply checkCredits_unknown.
  - intros Hr. rewrite (checkCredits_row uid r w Hw Hu Hr).
    unfold active_subscriber, expired_subscriber, non_subscriber.
    repeat split.
    + intros Ha. apply andb_true_iff in Ha as [-> ->]. done.
    + intros He. apply andb_true_iff in He as [-> Hx].
      apply negb_true_iff in Hx. rewrite Hx.
      eexists _, _. split; [reflexivity|].
      unfold balance_verdict; simpl.
      split; [done|].
      destruct (Z.leb_spec (u_credits r) 0); repeat split; try done; lia.
    + intros Hn Hc. apply negb_true_iff in Hn. rewrite Hn. simpl.
      unfold balance_verdict, user_of_row. simpl. fold (flagged r). rewrite Hn.
      simpl. destruct (Z.leb_spec (u_credits r) 0); [done|lia].
    + intros Ha He Hn.
      destruct (flagged r) eqn:Hfl; simpl in *.
      * destruct (has_expiry r); simpl in *.
        -- rewrite Ha in He. done.
        -- unfold balance_verdict, user_of_row. simpl. fold (flagged r).
           by rewrite Hfl.
      * unfold balance_verdict, user_of_row. simpl. fold (flagged r). rewrite Hfl.
        simpl. destruct (Z.leb_spec (u_credits r) 0); [|done].
        exfalso. apply Hn. done.
Qed.

(* ===================================================================== *)
(** * The credit ledger: [deductCredits] *)
(* ===================================================================== *)

Lemma spends_refl uid t : spends_at_most_one uid t t.
Proof. intros uid' r' Hr. exists r'. auto. Qed.

Lemma spends_downgrade uid u r t :
  users t !! u = Some r ->
  spends_at_most_one uid t (set_users (<[u := downgraded r]>) t).
Proof.
  intros Hr uid' r' Hr'. simpl in Hr'.
  destruct (decide (u = uid')) as [->|Hne].
  - rewrite lookup_insert_eq in Hr'. injection Hr' as <-. exists r. auto.
  - rewrite lookup_insert_ne in Hr' by done. exists r'. auto.
Qed.

Lemma spends_deduct uid t :
  spends_at_most_one uid t (snd (update_deduct uid t)).
Proof.
  unfold update_deduct. destruct (users t !! uid) as [r|] eqn:Hr;
    [|apply spends_refl].
  destruct (Z.ltb_spec 0 (u_credits r)); [|apply spends_refl].
  intros uid' r' Hr'. simpl in Hr'.
  destruct (decide (uid = uid')) as [<-|Hne].
  - rewrite lookup_insert_eq in Hr'. injection Hr' as <-. exists r.
    split; [done|]. right. simpl. auto.
  - rewrite lookup_insert_ne in Hr' by done. exists r'. auto.
Qed.

Lemma keeps_refl t : keeps_credits t t.
Proof. intros uid' r' Hr. by exists r'. Qed.

Lemma keeps_trans a b c : keeps_credits a b -> keeps_credits b c -> keeps_credits a c.
Proof.
  intros Hab Hbc uid' r' Hr.
  destruct (Hbc _ _ Hr) as (r1 & Hr1 & E1).
  destruct (Hab _ _ Hr1) as (r0 & Hr0 & E0).
  exists r0. split; [done|congruence].
Qed.

Lemma keeps_then_spends uid a b c :
  keeps_credits a b -> spends_at_most_one uid b c -> spends_at_most_one uid a c.
Proof.
  intros Hab Hbc uid' r' Hr.
  destruct (Hbc _ _ Hr) as (r1 & Hr1 & E1).
  destruct (Hab _ _ Hr1) as (r0 & Hr0 & E0).
  exists r0. split; [done|]. rewrite <- E0. done.
Qed.

Lemma keeps_spends uid a b : keeps_credits a b -> spends_at_most_one uid a b.
Proof. intros Hab. eapply keeps_then_spends; [done|apply spends_refl]. Qed.

Lemma updateSubscriptionStatus_keeps uid b d :
  db_rel keeps_credits (updateSubscriptionStatus uid b d).
Proof.
  unfold updateSubscriptionStatus.
  eapply db_rel_bind; [by auto | apply keeps_trans | | intros; apply db_rel_console_log, keeps_refl].
  apply db_rel_db_call; [apply keeps_refl|].
  intros t [] t' [= <-]. intros uid' r' Hr'. simpl in Hr'.
  destruct (users t !! uid) as [r|] eqn:Hr; [|by exists r'].
  destruct (decide (uid = uid')) as [<-|Hne].
  - rewrite lookup_insert_eq in Hr'. injection Hr' as <-. by exists r.
  - rewrite lookup_insert_ne in Hr' by done. by exists r'.
Qed.

Lemma checkCredits_keeps userId : db_rel keeps_credits (checkCredits userId).
Proof.
  unfold checkCredits. destruct userId as [uid|]; [|apply db_rel_ret, keeps_refl].
  destruct (negb _); [apply db_rel_ret, keeps_refl|].
  eapply db_rel_bind; [by auto | apply keeps_trans | apply db_rel_db_read, keeps_refl |].
  intros [r|]; [|apply db_rel_ret, keeps_refl].
  destruct (_ && _); [|apply db_rel_ret, keeps_refl].
  eapply db_rel_bind; [by auto | apply keeps_trans | apply db_rel_new_Date, keeps_refl |].
  intros t. destruct (Date_gt _ _); [apply db_rel_ret, keeps_refl|].
  eapply db_rel_bind; [by auto | apply keeps_trans | apply updateSubscriptionStatus_keeps |].
  intros _. apply db_rel_ret, keeps_refl.
Qed.

(** Whatever the store answers and whatever pre-fetched record is passed,
    one [deductCredits] spends at most one credit, and only from a stored
    balance that is positive. *)
Lemma deductCredits_spends uid userInfo :
  db_rel (spends_at_most_one uid) (deductCredits uid userInfo).
Proof.
  unfold deductCredits.
  eapply db_rel_bind with (R1 := keeps_credits) (R2 := spends_at_most_one uid);
    [apply keeps_spends | apply keeps_then_spends | |].
  - destruct userInfo as [u|]; [apply db_rel_ret, keeps_refl|].
    eapply db_rel_bind; [by auto | apply keeps_trans | apply checkCredits_keeps |].
    intros cc. destruct (negb _); [apply db_rel_throw|apply db_rel_ret]; apply keeps_refl.
  - intros u. destruct (match u with Some _ => _ | None => _ end).
    + apply db_rel_console_log, spends_refl.
    + eapply db_rel_bind with (R1 := spends_at_most_one uid) (R2 := eq);
        [by auto | by intros a b c ? <- | |].
      * apply db_rel_db_call; [apply spends_refl|].
        intros t a t' [= E]. pose proof (spends_deduct uid t) as Hs.
        rewrite E in Hs. done.
      * intros n. destruct (n =? 0); [by apply db_rel_throw|by apply db_rel_console_log].
Qed.

(** The business invariant: no deduction drives any balance below zero. *)
Lemma deductCredits_nonnegative uid userInfo w :
  (forall u r, users (db w) !! u = Some r -> 0 <= u_credits r) ->
  forall u r, users (db (snd (deductCredits uid userInfo w))) !! u = Some r ->
              0 <= u_credits r.
Proof.
  intros Hinv u r' Hr'.
  destruct (deductCredits uid userInfo w) as [c w'] eqn:Hd.
  destruct (deductCredits_spends uid userInfo w c w' Hd u r' Hr') as (r & Hr & [E|(_ & Hp & E)]).
  - rewrite E. by eapply Hinv.
  - lia.
Qed.

Lemma update_deduct_row uid r t :
  users t !! uid = Some r ->
  update_deduct uid t =
    if 0 <? u_credits r then (1, set_users (<[uid := charged r]>) t) else (0, t).
Proof. intros Hr. unfold update_deduct. by rewrite Hr. Qed.

(** [deductCredits] with a pre-fetched record. *)
Lemma deductCredits_prefetched_subscriber uid u w :
  isSubscribed u = true ->
  exists w', deductCredits uid (Some u) w = (Normal tt, w') /\ db w' = db w
             /\ faults w' = faults w.
Proof.
  intros Hs. unfold deductCredits, bind, ret. rewrite Hs.
  eexists. split; [reflexivity|done].
Qed.

Lemma deductCredits_prefetched_charge uid u w :
  healthy w -> isSubscribed u = false ->
  exists w',
    match users (db w) !! uid with
    | Some r =>
        if 0 <? u_credits r
        then deductCredits uid (Some u) w = (Normal tt, w')
             /\ users (db w') = <[uid := charged r]> (users (db w))
        else deductCredits uid (Some u) w =
               (Throw (new_Error "Failed to deduct credit - insufficient credits"), w')
             /\ w' = w
    | None =>
        deductCredits uid (Some u) w =
          (Throw (new_Error "Failed to deduct credit - insufficient credits"), w')
        /\ w' = w
    end.
Proof.
  intros Hw Hs. unfold deductCredits, bind, ret. rewrite Hs.
  rewrite db_call_healthy by done.
  destruct (users (db w) !! uid) as [r|] eqn:Hr.
  - rewrite (update_deduct_row _ _ _ Hr).
    destruct (0 <? u_credits r); simpl.
    + eexists. split; [reflexivity|done].
    + rewrite set_db_same. eexists. split; [reflexivity|done].
  - unfold update_deduct. rewrite Hr. simpl. rewrite set_db_same.
    eexists. split; [reflexivity|done].
Qed.

(** [deductCredits] without pre-fetched record, on a stored row. *)
Lemma deductCredits_row uid r w :
  healthy w -> uid <> 0 -> users (db w) !! uid = Some r ->
  exists w',
    if subscriber_in_effect r (now w)
    then deductCredits uid None w = (Normal tt, w') /\ db w' = db w
    else
      if 0 <? u_credits r
      then deductCredits uid None w = (Normal tt, w')
           /\ users (db w') =
                <[uid := charged (if flagged r then downgraded r else r)]> (users (db w))
      else deductCredits uid None w =
             (Throw (new_HttpError "Insufficient credits" 402), w')
           /\ users (db w') =
                (if flagged r then <[uid := downgraded r]> (users (db w))
                 else users (db w)).
Proof.
  intros Hw Hu Hr.
  pose proof (checkCredits_row uid r w Hw Hu Hr) as Hcc.
  unfold subscriber_in_effect, active_subscriber, perpetual_subscriber.
  unfold deductCredits.
  destruct (flagged r) eqn:Hfl; simpl in Hcc |- *.
  - destruct (has_expiry r) eqn:Hx; simpl in Hcc |- *.
    + destruct (unexpired r (now w)) eqn:Hun; simpl in Hcc |- *.
      * erewrite bind_normal; [|erewrite bind_normal; [|exact Hcc]; reflexivity].
        simpl. fold (flagged r). rewrite Hfl.
        eexists. split; [reflexivity|done].
      * unfold balance_verdict in Hcc; simpl in Hcc.
        destruct (Z.leb_spec (u_credits r) 0) as [Hle|Hgt]; simpl.
        -- assert ((0 <? u_credits r) = false) as Hneg by lia. rewrite Hneg.
           erewrite bind_throw; [|erewrite bind_normal; [|exact Hcc]; reflexivity].
           eexists. split; [reflexivity|]. simpl. done.
        -- assert ((0 <? u_credits r) = true) as Hpos by lia. rewrite Hpos.
           erewrite bind_normal; [|erewrite bind_normal; [|exact Hcc]; reflexivity].
           simpl. unfold bind. rewrite db_call_healthy by done.
           assert (users (db (after_downgrade uid r w)) !! uid = Some (downgraded r))
             as Hr1 by (simpl; apply lookup_insert_eq).
           rewrite (update_deduct_row _ _ _ Hr1). simpl. rewrite Hpos. simpl.
           eexists. split; [reflexivity|]. simpl.
           by rewrite insert_insert_eq.
    + unfold balance_verdict, user_of_row in Hcc; simpl in Hcc.
      fold (flagged r) in Hcc. rewrite Hfl in Hcc. simpl in Hcc.
      erewrite bind_normal; [|erewrite bind_normal; [|exact Hcc]; reflexivity].
      simpl. eexists. split; [reflexivity|done].
  - unfold balance_verdict, user_of_row in Hcc; simpl in Hcc.
    fold (flagged r) in Hcc. rewrite Hfl in Hcc. simpl in Hcc.
    destruct (Z.leb_spec (u_credits r) 0) as [Hle|Hgt]; simpl in Hcc.
    + assert ((0 <? u_credits r) = false) as Hneg by lia. rewrite Hneg.
      erewrite bind_throw; [|erewrite bind_normal; [|exact Hcc]; reflexivity].
      eexists. split; [reflexivity|done].
    + assert ((0 <? u_credits r) = true) as Hpos by lia. rewrite Hpos.
      erewrite bind_normal; [|erewrite bind_normal; [|exact Hcc]; reflexivity].
      simpl. unfold bind. rewrite db_call_healthy by done.
      rewrite (update_deduct_row _ _ _ Hr). rewrite Hpos. simpl.
      eexists. split; [reflexivity|done].
Qed.

(** On a row without the flag, whatever the store answers, [checkCredits]
    either fails on its read or judges the balance; it writes nothing. *)
Lemma checkCredits_unflagged uid r w :
  uid <> 0 -> users (db w) !! uid = Some r -> flagged r = false ->
  (exists e w', checkCredits (Some uid) w = (Throw e, w') /\ db w' = db w)
  \/ (exists w', checkCredits (Some uid) w =
                   (Normal (balance_verdict (user_of_row uid r)), w')
                 /\ db w' = db w /\ (healthy w -> healthy w')).
Proof.
  intros Hu Hr Hfl. unfold checkCredits, truthy_num.
  destruct (Z.eqb_spec uid 0) as [|_]; [done|]. simpl.
  destruct (db_call_cases (fun t => inr (users t !! uid, t)) w)
    as [(e & w1 & Hc & Hd & _)|(a & t & w1 & Hst & Hc & Hd & _ & _ & _ & Hh)].
  - left. exists e, w1. split; [|done]. by apply bind_throw.
  - right. injection Hst as <- <-. exists w1.
    split; [|done].
    erewrite bind_normal; [|exact Hc]. rewrite Hr.
    cbn [isSubscribed]. fold (flagged r). rewrite Hfl.
    cbn [andb]. unfold user_of_row. fold (flagged r). by rewrite Hfl.
Qed.

(** When [deductCredits] returns on a row without the flag, exactly one
    credit has been taken, from a balance that was positive. *)
Lemma deductCredits_returns_unflagged uid r w w1 :
  users (db w) !! uid = Some r -> flagged r = false ->
  deductCredits uid None w = (Normal tt, w1) ->
  0 < u_credits r /\ users (db w1) = <[uid := charged r]> (users (db w)).
Proof.
  intros Hr Hfl Hd.
  destruct (decide (uid = 0)) as [->|Hu].
  { unfold deductCredits in Hd.
    erewrite bind_throw in Hd; [done|].
    erewrite bind_normal; [|by apply checkCredits_missing]. done. }
  unfold deductCredits in Hd.
  destruct (checkCredits_unflagged uid r w Hu Hr Hfl)
    as [(e & w' & Hc & Hdb)|(w' & Hc & Hdb & _)].
  - erewrite bind_throw in Hd; [done|]. by erewrite bind_throw.
  - unfold balance_verdict, user_of_row in Hc. cbn [isSubscribed credits] in Hc.
    fold (flagged r) in Hc. rewrite Hfl in Hc. simpl in Hc.
    revert Hc. destruct (Z.leb_spec (u_credits r) 0) as [Hle|Hgt]; intros Hc.
    + erewrite bind_throw in Hd; [done|].
      erewrite bind_normal; [|exact Hc]. done.
    + erewrite bind_normal in Hd; [|erewrite bind_normal; [|exact Hc]; reflexivity].
      cbn [isSubscribed user] in Hd.
      destruct (db_call_cases (fun t => inr (update_deduct uid t)) w')
        as [(e & w2 & Hc2 & _)|(a & t & w2 & Hst & Hc2 & Hd2 & _)].
      * erewrite bind_throw in Hd; [done|exact Hc2].
      * erewrite bind_normal in Hd; [|exact Hc2].
        rewrite Hdb in Hst. rewrite (update_deduct_row _ _ _ Hr) in Hst.
        assert ((0 <? u_credits r) = true) as Hpos by lia. rewrite Hpos in Hst.
        injection Hst as <- <-. simpl in Hd. injection Hd as <-.
        split; [done|]. simpl. by rewrite Hd2.
Qed.

(* ===================================================================== *)
(** * The credit ledger: [refundCredits] *)
(* ===================================================================== *)

Lemma gains_refl uid t : gains_at_most_one uid t t.
Proof. intros uid' r' Hr. exists r'. auto. Qed.

Lemma keeps_then_gains uid a b c :
  keeps_credits a b -> gains_at_most_one uid b c -> gains_at_most_one uid a c.
Proof.
  intros Hab Hbc uid' r' Hr.
  destruct (Hbc _ _ Hr) as (r1 & Hr1 & E1).
  destruct (Hab _ _ Hr1) as (r0 & Hr0 & E0).
  exists r0. split; [done|]. rewrite <- E0. done.
Qed.

Lemma keeps_gains uid a b : keeps_credits a b -> gains_at_most_one uid a b.
Proof. intros Hab. eapply keeps_then_gains; [done|apply gains_refl]. Qed.

Lemma gains_add uid t : gains_at_most_one uid t (snd (update_add uid 1 t)).
Proof.
  unfold update_add. destruct (users t !! uid) as [r|] eqn:Hr; [|apply gains_refl].
  intros uid' r' Hr'. simpl in Hr'.
  destruct (decide (uid = uid')) as [<-|Hne].
  - rewrite lookup_insert_eq in Hr'. injection Hr' as <-. exists r.
    split; [done|]. right. simpl. auto.
  - rewrite lookup_insert_ne in Hr' by done. exists r'. auto.
Qed.

Lemma refund_attempt_gains uid : db_rel (gains_at_most_one uid) (refund_attempt uid).
Proof.
  unfold refund_attempt, getUserCredits.
  eapply db_rel_bind with (R1 := keeps_credits) (R2 := gains_at_most_one uid);
    [apply keeps_gains | apply keeps_then_gains | |].
  - eapply db_rel_bind; [by auto | apply keeps_trans | apply checkCredits_keeps |].
    intros cc. apply db_rel_ret, keeps_refl.
  - intros [u|]; [|apply db_rel_console_warn, gains_refl].
    destruct (isSubscribed u); [apply db_rel_console_log, gains_refl|].
    eapply db_rel_bind with (R1 := gains_at_most_one uid) (R2 := eq);
      [by auto | by intros a b c ? <- | |].
    + apply db_rel_db_call; [apply gains_refl|].
      intros t [] t' [= <-]. apply gains_add.
    + intros _. by apply db_rel_console_log.
Qed.

Lemma refundCredits_gains uid : db_rel (gains_at_most_one uid) (refundCredits uid).
Proof.
  unfold refundCredits.
  eapply db_rel_try_catch with (R1 := gains_at_most_one uid) (R2 := eq);
    [by auto | by intros a b c ? <- | apply refund_attempt_gains |].
  intros e. by apply db_rel_console_error.
Qed.

(** No operation of the ledger ends the process. *)
Lemma updateSubscriptionStatus_settles uid b x :
  settles (updateSubscriptionStatus uid b x).
Proof. unfold updateSubscriptionStatus. settle. Qed.

Lemma checkCredits_never_exits userId : settles (checkCredits userId).
Proof.
  unfold checkCredits. destruct userId as [uid|]; [|settle].
  destruct (negb _); settle.
  destruct x as [r|]; [|settle].
  destruct (_ && _); [|settle]. settle.
  destruct (Date_gt _ _); settle.
  apply updateSubscriptionStatus_settles.
Qed.

Lemma deductCredits_settles uid userInfo : settles (deductCredits uid userInfo).
Proof.
  unfold deductCredits. settle.
  - destruct userInfo as [u|]; settle.
    + apply checkCredits_never_exits.
    + destruct (negb _); settle.
  - destruct (match x with Some u => isSubscribed u | None => false end); settle.
    destruct (x0 =? 0); settle.
Qed.

Lemma getUserCredits_settles uid : settles (getUserCredits uid).
Proof. unfold getUserCredits. settle. apply checkCredits_never_exits. Qed.

Lemma refund_attempt_settles uid : settles (refund_attempt uid).
Proof.
  unfold refund_attempt. settle; [apply getUserCredits_settles|].
  destruct x as [u|]; settle. destruct (isSubscribed u); settle.
Qed.

Lemma refundCredits_settles uid : settles (refundCredits uid).
Proof. unfold refundCredits. settle. apply refund_attempt_settles. Qed.

(** [refundCredits] returns, whatever its [try] block did. *)
Lemma refundCredits_returns uid w :
  exists w', refundCredits uid w = (Normal tt, w').
Proof.
  unfold refundCredits, try_catch.
  destruct (refund_attempt uid w) as [[[]|e|] w1] eqn:E.
  - by exists w1.
  - eexists. reflexivity.
  - by destruct (refund_attempt_settles uid w w1).
Qed.

Lemma update_add_row uid n r t :
  users t !! uid = Some r ->
  update_add uid n t =
    (1, set_users (<[uid := mkUserRow (u_credits r + n) (u_is_subscribed r)
                              (u_subscription_expires_at r)]>) t).
Proof. intros Hr. unfold update_add. by rewrite Hr. Qed.

(** [refundCredits] on a stored row, when the store answers. *)
Lemma refundCredits_row uid r w :
  healthy w -> uid <> 0 -> users (db w) !! uid = Some r ->
  exists w',
    refundCredits uid w = (Normal tt, w') /\
    if subscriber_in_effect r (now w)
    then db w' = db w
    else users (db w') =
           <[uid := refunded (if flagged r then downgraded r else r)]> (users (db w)).
Proof.
  intros Hw Hu Hr.
  pose proof (checkCredits_row uid r w Hw Hu Hr) as Hcc.
  unfold subscriber_in_effect, active_subscriber, perpetual_subscriber.
  unfold refundCredits, try_catch, refund_attempt, getUserCredits.
  destruct (flagged r) eqn:Hfl; simpl in Hcc |- *.
  - destruct (has_expiry r) eqn:Hx; simpl in Hcc |- *.
    + destruct (unexpired r (now w)) eqn:Hun; simpl in Hcc |- *.
      * erewrite bind_normal; [|erewrite bind_normal; [|exact Hcc]; reflexivity].
        simpl. fold (flagged r). rewrite Hfl.
        eexists. split; [reflexivity|done].
      * erewrite bind_normal; [|erewrite bind_normal; [|exact Hcc]; reflexivity].
        rewrite balance_verdict_user.
        cbn [isSubscribed].
        unfold bind. rewrite db_call_healthy by done.
        assert (users (db (after_downgrade uid r w)) !! uid = Some (downgraded r))
          as Hr1 by (simpl; apply lookup_insert_eq).
        rewrite (update_add_row _ _ _ _ Hr1). simpl.
        eexists. split; [reflexivity|]. simpl.
        by rewrite insert_insert_eq.
    + unfold balance_verdict, user_of_row in Hcc; simpl in Hcc.
      fold (flagged r) in Hcc. rewrite Hfl in Hcc. simpl in Hcc.
      erewrite bind_normal; [|erewrite bind_normal; [|exact Hcc]; reflexivity].
      simpl. eexists. split; [reflexivity|done].
  - erewrite bind_normal; [|erewrite bind_normal; [|exact Hcc]; reflexivity].
    rewrite balance_verdict_user. unfold user_of_row.
    cbn [isSubscribed]. fold (flagged r). rewrite Hfl.
    cbn [isSubscribed].
    unfold bind. rewrite db_call_healthy by done.
    rewrite (update_add_row _ _ _ _ Hr). simpl.
    eexists. split; [reflexivity|done].
Qed.

Lemma refundCredits_unknown uid w :
  healthy w -> users (db w) !! uid = None ->
  exists w', refundCredits uid w = (Normal tt, w') /\ db w' = db w.
Proof.
  intros Hw Hr.
  unfold refundCredits, try_catch, refund_attempt, getUserCredits.
  destruct (decide (uid = 0)) as [->|Hu].
  - simpl. eexists. split; [reflexivity|done].
  - erewrite bind_normal;
      [|erewrite bind_normal; [|by apply checkCredits_unknown]; reflexivity].
    simpl. eexists. split; [reflexivity|done].
Qed.

End Ledger.

(* ===================================================================== *)
(** * The credit ledger: the contracts of its operations *)
(* ===================================================================== *)

Section LedgerContracts.
Context `{Host}.
Import CreditService.

#[local] Arguments checkCredits : simpl never.
#[local] Arguments deductCredits : simpl never.
#[local] Arguments refundCredits : simpl never.
#[local] Arguments pretty : simpl never.

Lemma credits_of_insert w w' uid r :
  users (db w') = <[uid := r]> (users (db w)) ->
  credits_of w' uid = Some (u_credits r).
Proof. intros E. unfold credits_of. by rewrite E, lookup_insert_eq. Qed.

(** C3, as amended.  Without pre-fetched info [deductCredits] goes by the
    stored row: it never changes the credits of a user whose subscription
    is in effect (flag set, and expiry absent or later than the clock); a
    row whose flag is set but whose expiry has passed is downgraded (flag
    and expiry cleared, whether or not a credit can then be taken) and
    charged like any non-subscriber.  With pre-fetched info it goes by
    that record alone, whatever is stored: a record saying [isSubscribed]
    is never charged, one saying it is not is charged, even when the
    stored subscription is in effect.  A user who is charged loses
    exactly one credit, by the conditional update, which succeeds only on
    a stored balance > 0 and otherwise fails with an insufficient-credits
    error; so balances that start >= 0 stay >= 0. *)
Theorem deductCredits_ledger (w : World) (uid : Z) (userInfo : option User) :
  (forall u, userInfo = Some u -> isSubscribed u = true ->
     exists w', deductCredits uid userInfo w = (Normal tt, w') /\ db w' = db w)
  /\ (healthy w -> uid <> 0 -> userInfo = None ->
      forall r, users (db w) !! uid = Some r ->
        (subscriber_in_effect r (now w) = true ->
           exists w', deductCredits uid userInfo w = (Normal tt, w') /\ db w' = db w)
        /\ (expired_subscriber r (now w) = true ->
            (0 < u_credits r ->
               exists w', deductCredits uid userInfo w = (Normal tt, w')
                          /\ users (db w') =
                               <[uid := mkUserRow (u_credits r - 1) 0 None]>
                                 (users (db w)))
            /\ (u_credits r <= 0 ->
                exists w', deductCredits uid userInfo w =
                             (Throw (new_HttpError "Insufficient credits" 402), w')
                           /\ users (db w') =
                                <[uid := mkUserRow (u_credits r) 0 None]>
                                  (users (db w))))
        /\ (non_subscriber r = true ->
            (0 < u_credits r ->
               exists w', deductCredits uid userInfo w = (Normal tt, w')
                          /\ users (db w') = <[uid := charged r]> (users (db w)))
            /\ (u_credits r <= 0 ->
                exists w', deductCredits uid userInfo w =
                             (Throw (new_HttpError "Insufficient credits" 402), w')
                           /\ users (db w') = users (db w))))
  /\ (healthy w -> forall u, userInfo = Some u -> isSubscribed u = false ->
        (forall r, users (db w) !! uid = Some r -> 0 < u_credits r ->
           exists w', deductCredits uid userInfo w = (Normal tt, w')
                      /\ users (db w') = <[uid := charged r]> (users (db w)))
        /\ ((forall r, users (db w) !! uid = Some r -> u_credits r <= 0) ->
            deductCredits uid userInfo w =
              (Throw (new_Error "Failed to deduct credit - insufficient credits"), w)))
  /\ spends_at_most_one uid (db w) (db (snd (deductCredits uid userInfo w)))
  /\ ((forall u r, users (db w) !! u = Some r -> 0 <= u_credits r) ->
      forall u r, users (db (snd (deductCredits uid userInfo w))) !! u = Some r ->
                  0 <= u_credits r).
Proof.
  split; [|split; [|split; [|split]]].
  - intros u -> Hs.
    destruct (deductCredits_prefetched_subscriber uid u w Hs) as (w' & E & Hd & _).
    by exists w'.
  - intros Hw Hu -> r Hr.
    destruct (deductCredits_row uid r w Hw Hu Hr) as (w' & Hw').
    split; [|split].
    + intros Hs. rewrite Hs in Hw'. by exists w'.
    + intros Hx. unfold expired_subscriber in Hx.
      apply andb_true_iff in Hx as [Hx Hun]. apply andb_true_iff in Hx as [Hfl Hex].
      apply negb_true_iff in Hun.
      unfold subscriber_in_effect, active_subscriber, perpetual_subscriber in Hw'.
      rewrite Hfl, Hex, Hun in Hw'. simpl in Hw'. split.
      * intros Hpos. assert ((0 <? u_credits r) = true) as Hp by lia.
        rewrite Hp in Hw'. by exists w'.
      * intros Hneg. assert ((0 <? u_credits r) = false) as Hp by lia.
        rewrite Hp in Hw'. by exists w'.
    + intros Hn. unfold non_subscriber in Hn. apply negb_true_iff in Hn.
      unfold subscriber_in_effect, active_subscriber, perpetual_subscriber in Hw'.
      rewrite Hn in Hw'. simpl in Hw'. split.
      * intros Hpos. assert ((0 <? u_credits r) = true) as Hp by lia.
        rewrite Hp in Hw'. by exists w'.
      * intros Hneg. assert ((0 <? u_credits r) = false) as Hp by lia.
        rewrite Hp in Hw'. by exists w'.
  - intros Hw u -> Hs.
    destruct (deductCredits_prefetched_charge uid u w Hw Hs) as (w' & Hw').
    split.
    + intros r Hr Hpos. rewrite Hr in Hw'.
      assert ((0 <? u_credits r) = true) as Hp by lia. rewrite Hp in Hw'.
      by exists w'.
    + intros Hall. destruct (users (db w) !! uid) as [r|] eqn:Hr.
      * assert ((0 <? u_credits r) = false) as Hp
          by (specialize (Hall r eq_refl); lia).
        rewrite Hp in Hw'. by destruct Hw' as [-> ->].
      * by destruct Hw' as [-> ->].
  - destruct (deductCredits uid userInfo w) as [c w'] eqn:E.
    by eapply deductCredits_spends.
  - apply deductCredits_nonnegative.
Qed.

(** C10.  A row with the flag set and no expiry stored may proceed
    whatever its balance, is never downgraded, and is never charged. *)
Theorem perpetual_subscriber_never_evaluated (w : World) (uid : Z) (r : UserRow) :
  healthy w -> uid <> 0 ->
  users (db w) !! uid = Some r ->
  u_is_subscribed r = 1 -> u_subscription_expires_at r = None ->
  checkCredits (Some uid) w =
    (Normal (mkCreditCheckResult true
               (Some (mkUser uid (u_credits r) true None)) None), w)
  /\ exists w', deductCredits uid None w = (Normal tt, w') /\ db w' = db w.
Proof.
  intros Hw Hu Hr Hf Hx.
  assert (flagged r = true) as Hfl by (unfold flagged; rewrite Hf; done).
  assert (has_expiry r = false) as Hex by (unfold has_expiry; rewrite Hx; done).
  split.
  - rewrite (checkCredits_row uid r w Hw Hu Hr), Hfl, Hex. simpl.
    unfold balance_verdict, user_of_row. simpl. fold (flagged r).
    by rewrite Hfl, Hx.
  - destruct (deductCredits_row uid r w Hw Hu Hr) as (w' & Hw').
    unfold subscriber_in_effect, active_subscriber, perpetual_subscriber in Hw'.
    rewrite Hfl, Hex in Hw'. simpl in Hw'. by exists w'.
Qed.

(** C6.  [refundCredits] never throws: a failure inside it is logged with
    [console.error] and swallowed.  Whatever happens it gives at most one
    credit, to [uid] only; with the store answering it gives a
    non-subscriber exactly one, and changes nothing for a subscriber or for
    a user that cannot be found. *)
Theorem refundCredits_best_effort (w : World) (uid : Z) :
  (exists w', refundCredits uid w = (Normal tt, w'))
  /\ (forall e w1, refund_attempt uid w = (Throw e, w1) ->
      refundCredits uid w =
        (Normal tt,
         set_console
           (console w1 ++
              [mkLogEntry LError
                 ("Failed to refund credits for user " +:+ pretty uid +:+ ":")
                 (Some e)]) w1))
  /\ gains_at_most_one uid (db w) (db (snd (refundCredits uid w)))
  /\ (healthy w ->
      (users (db w) !! uid = None -> db (snd (refundCredits uid w)) = db w)
      /\ (forall r, uid <> 0 -> users (db w) !! uid = Some r ->
          (subscriber_in_effect r (now w) = true ->
             db (snd (refundCredits uid w)) = db w)
          /\ (non_subscriber r = true ->
              users (db (snd (refundCredits uid w))) =
                <[uid := refunded r]> (users (db w))))).
Proof.
  split; [apply refundCredits_returns|]. split; [|split; [|]].
  - intros e w1 Hb. unfold refundCredits, try_catch. by rewrite Hb.
  - destruct (refundCredits uid w) as [c w'] eqn:E.
    by eapply refundCredits_gains.
  - intros Hw. split.
    + intros Hr. by destruct (refundCredits_unknown uid w Hw Hr) as (w' & -> & Hd).
    + intros r Hu Hr.
      destruct (refundCredits_row uid r w Hw Hu Hr) as (w' & -> & Hw').
      split.
      * intros Hs. by rewrite Hs in Hw'.
      * intros Hn. unfold non_subscriber in Hn. apply negb_true_iff in Hn.
        unfold subscriber_in_effect, active_subscriber, perpetual_subscriber in Hw'.
        by rewrite Hn in Hw'.
Qed.

(* ===================================================================== *)
(** * The credit ledger: [executeWithRollback] *)
(* ===================================================================== *)

Lemma deductCredits_zero w :
  deductCredits 0 None w = (Throw (new_HttpError "Authentication required" 402), w).
Proof.
  unfold deductCredits.
  erewrite bind_throw; [done|].
  erewrite bind_normal; [|by apply checkCredits_missing]. done.
Qed.

Lemma executeWithRollback_deduct_fails {T} uid (operation : M T) w e w1 :
  deductCredits uid None w = (Throw e, w1) ->
  executeWithRollback uid operation w = (Throw e, w1).
Proof. intros Hd. unfold executeWithRollback. by rewrite Hd. Qed.

Lemma executeWithRollback_operation_returns {T} uid (operation : M T) w w1 x w2 :
  deductCredits uid None w = (Normal tt, w1) ->
  operation w1 = (Normal x, w2) ->
  executeWithRollback uid operation w = (Normal x, w2).
Proof. intros Hd Ho. unfold executeWithRollback. by rewrite Hd, Ho. Qed.

Lemma executeWithRollback_operation_throws {T} uid (operation : M T) w w1 e w2 :
  deductCredits uid None w = (Normal tt, w1) ->
  operation w1 = (Throw e, w2) ->
  executeWithRollback uid operation w =
    (Throw e, snd (refundCredits uid (rollback_announced uid w2))).
Proof.
  intros Hd Ho. unfold executeWithRollback. rewrite Hd, Ho.
  unfold rollback_announced.
  destruct (refundCredits_returns uid
              (snd (console_log
                      ("Operation failed, rolling back credit deduction for user "
                       +:+ pretty uid) w2))) as (w3 & E).
  erewrite bind_normal; [|erewrite bind_normal; [|reflexivity]; exact E].
  by rewrite E.
Qed.

(** C2, as amended.  The saga contract of [executeWithRollback]:
    - if the deduction fails, its error propagates and [operation] is not
      run;
    - if the deduction succeeds and [operation] throws, a refund is
      attempted and the error of [operation], never one of the refund, is
      re-thrown unchanged; the refund gives back at most one credit, and
      when the store answers it and [operation] has left the user's row as
      the deduction left it, a non-subscriber's credits end where they
      started;
    - if [operation] returns, its result is returned unchanged and, under
      the same condition on [operation], a non-subscriber's credits end one
      below where they started. *)
Theorem executeWithRollback_saga {T} (uid : Z) (operation : M T) (w : World) :
  (forall e w1, deductCredits uid None w = (Throw e, w1) ->
     executeWithRollback uid operation w = (Throw e, w1))
  /\ (forall w1 e w2,
        deductCredits uid None w = (Normal tt, w1) ->
        operation w1 = (Throw e, w2) ->
        exists w3,
          executeWithRollback uid operation w = (Throw e, w3)
          /\ gains_at_most_one uid (db w2) (db w3)
          /\ (forall r, users (db w) !! uid = Some r -> non_subscriber r = true ->
                users (db w2) !! uid = users (db w1) !! uid ->
                healthy w2 ->
                credits_of w3 uid = credits_of w uid))
  /\ (forall w1 x w2,
        deductCredits uid None w = (Normal tt, w1) ->
        operation w1 = (Normal x, w2) ->
        executeWithRollback uid operation w = (Normal x, w2)
        /\ (forall r, users (db w) !! uid = Some r -> non_subscriber r = true ->
              users (db w2) !! uid = users (db w1) !! uid ->
              credits_of w2 uid = Some (u_credits r - 1))).
Proof.
  split; [|split].
  - intros e w1. apply executeWithRollback_deduct_fails.
  - intros w1 e w2 Hd Ho.
    exists (snd (refundCredits uid (rollback_announced uid w2))).
    split; [by eapply executeWithRollback_operation_throws|]. split.
    + destruct (refundCredits uid (rollback_announced uid w2)) as [c w3] eqn:E.
      apply (refundCredits_gains uid _ _ _ E).
    + intros r Hr Hn Hframe Hw2.
      unfold non_subscriber in Hn. apply negb_true_iff in Hn.
      destruct (deductCredits_returns_unflagged uid r w w1 Hr Hn Hd) as [Hpos Hus].
      assert (uid <> 0) as Hu.
      { intros ->. by rewrite deductCredits_zero in Hd. }
      assert (users (db (rollback_announced uid w2)) !! uid = Some (charged r)) as Hr2.
      { unfold rollback_announced. simpl. by rewrite Hframe, Hus, lookup_insert_eq. }
      destruct (refundCredits_row uid (charged r) (rollback_announced uid w2))
        as (w3 & E & Hw3); [done..|].
      rewrite E. simpl.
      unfold subscriber_in_effect, active_subscriber, perpetual_subscriber in Hw3.
      assert (flagged (charged r) = false) as Hfc by done.
      rewrite Hfc in Hw3. simpl in Hw3.
      unfold credits_of. rewrite Hw3, lookup_insert_eq, Hr. simpl. f_equal. lia.
  - intros w1 x w2 Hd Ho.
    split; [by eapply executeWithRollback_operation_returns|].
    intros r Hr Hn Hframe.
    unfold non_subscriber in Hn. apply negb_true_iff in Hn.
    destruct (deductCredits_returns_unflagged uid r w w1 Hr Hn Hd) as [Hpos Hus].
    unfold credits_of. by rewrite Hframe, Hus, lookup_insert_eq.
Qed.

End LedgerContracts.

(* ===================================================================== *)
(** * The credit ledger on concrete worlds *)
(* ===================================================================== *)

Section LedgerExamples.
Import CreditService.

(** A non-subscriber without credits is denied. *)
Lemma checkCredits_case_analysis_witness :
  let r := mkUserRow 0 0 None in
  let w := world_of_user r [] in
  checkCredits (Some 7) w =
    (Normal (mkCreditCheckResult false (Some (mkUser 7 0 false None))
               (Some "Insufficient credits")), w).
Proof.
  intros r w.
  destruct (checkCredits_case_analysis w 7 r eq_refl ltac:(lia)) as (_ & _ & Hrow).
  destruct (Hrow ltac:(vm_compute; reflexivity)) as (_ & _ & Hdeny & _).
  apply Hdeny; [reflexivity | simpl; lia].
Defined.

(** A subscription that ran out in 2020, three credits: the row is
    downgraded and one credit is taken. *)
Lemma deductCredits_ledger_witness :
  let r := mkUserRow 3 1 (Some "2020-01-01T00:00:00.000Z") in
  let w := world_of_user r [] in
  exists w',
    deductCredits 7 None w = (Normal tt, w')
    /\ users (db w') = <[7 := mkUserRow 2 0 None]> (users (db w)).
Proof.
  intros r w.
  destruct (deductCredits_ledger w 7 None) as (_ & Hrow & _).
  destruct (Hrow eq_refl ltac:(lia) eq_refl r ltac:(vm_compute; reflexivity))
    as (_ & Hexpired & _).
  destruct (Hexpired ltac:(vm_compute; reflexivity)) as (Hcharge & _).
  apply Hcharge. simpl. lia.
Defined.

(** The stored record says [is_subscribed = 1], the expiry (2020) is
    behind the clock (2026): [deductCredits] takes a credit. *)
Lemma deductCredits_charges_expired_subscriber :
  let r := mkUserRow 3 1 (Some "2020-01-01T00:00:00.000Z") in
  let w := world_of_user r [] in
  users (db w) !! 7 = Some r
  /\ u_is_subscribed r = 1
  /\ fst (deductCredits 7 None w) = Normal tt
  /\ credits_of w 7 = Some 3
  /\ credits_of (snd (deductCredits 7 None w)) 7 = Some 2.
Proof. vm_compute. repeat split; reflexivity. Qed.

(** A perpetual subscriber with no credits proceeds and is not charged. *)
Lemma perpetual_subscriber_never_evaluated_witness :
  let r := mkUserRow 0 1 None in
  let w := world_of_user r [] in
  checkCredits (Some 7) w =
    (Normal (mkCreditCheckResult true (Some (mkUser 7 0 true None)) None), w)
  /\ exists w', deductCredits 7 None w = (Normal tt, w') /\ db w' = db w.
Proof.
  intros r w.
  apply (perpetual_subscriber_never_evaluated w 7 r);
    [reflexivity | lia | vm_compute; reflexivity | reflexivity | reflexivity].
Defined.

(** A refund to a non-subscriber with no credits gives exactly one. *)
Lemma refundCredits_best_effort_witness :
  let r := mkUserRow 0 0 None in
  let w := world_of_user r [] in
  users (db (snd (refundCredits 7 w))) = <[7 := mkUserRow 1 0 None]> (users (db w)).
Proof.
  intros r w.
  destruct (refundCredits_best_effort w 7) as (_ & _ & _ & Hh).
  destruct (Hh eq_refl) as (_ & Hrow).
  destruct (Hrow r ltac:(lia) ltac:(vm_compute; reflexivity)) as (_ & Hgive).
  apply Hgive. reflexivity.
Defined.

(** The operation throws, the store answers the refund: the credit is
    back. *)
Lemma executeWithRollback_saga_witness :
  let r := mkUserRow 1 0 None in
  let w := world_of_user r [] in
  let operation : M unit := throw upstream_unavailable in
  exists w3,
    executeWithRollback 7 operation w = (Throw upstream_unavailable, w3)
    /\ credits_of w3 7 = credits_of w 7.
Proof.
  intros r w operation.
  destruct (executeWithRollback_saga 7 operation w) as (_ & Hthrow & _).
  destruct (Hthrow (snd (deductCredits 7 None w)) upstream_unavailable
              (snd (deductCredits 7 None w))
              ltac:(vm_compute; reflexivity) ltac:(vm_compute; reflexivity))
    as (w3 & E & _ & Hc).
  exists w3. split; [exact E|].
  apply (Hc r); [vm_compute; reflexivity | reflexivity | reflexivity | reflexivity].
Defined.

(** The operation throws and the store rejects the refund's read: the
    original error is re-thrown, and the credit stays spent. *)
Lemma executeWithRollback_refund_lost :
  let r := mkUserRow 1 0 None in
  let w := world_of_user r [None; None; Some database_locked] in
  let operation : M unit := throw upstream_unavailable in
  fst (deductCredits 7 None w) = Normal tt
  /\ fst (executeWithRollback 7 operation w) = Throw upstream_unavailable
  /\ credits_of w 7 = Some 1
  /\ credits_of (snd (executeWithRollback 7 operation w)) 7 = Some 0.
Proof. vm_compute. repeat split; reflexivity. Qed.

End LedgerExamples.

(* ===================================================================== *)
(** * The transaction coordinator: all or nothing *)
(* ===================================================================== *)

Lemma answered_accepted {A} (run : World -> Completion A * World) w :
  next_fault w = None -> answered run w = run (consumed w).
Proof.
  unfold next_fault, answered, consumed.
  destruct w as [t x fs n f c]. simpl. by destruct fs as [|[e|] fs].
Qed.


Lemma begin_on_idle w :
  txn w = None -> next_fault w = None ->
  BEGIN_TRANSACTION w = (Normal tt, set_txn (Some (db w)) (consumed w)).
Proof.
  intros Hidle Hacc. unfold BEGIN_TRANSACTION.
  rewrite answered_accepted by done. simpl. by rewrite Hidle.
Qed.

Lemma rollback_restores w t0 :
  txn w = Some t0 -> next_fault w = None ->
  ignoring_err ROLLBACK w = (Normal tt, set_txn None (set_db t0 (consumed w))).
Proof.
  intros Ht Hacc. unfold ignoring_err, try_catch, ROLLBACK.
  rewrite answered_accepted by done. simpl. by rewrite Ht.
Qed.


Section Transaction.
Context `{Host}.
Import DatabaseTransaction.

Lemma executeOperation_txn operation w :
  txn (snd (executeOperation operation w)) = txn w.
Proof.
  unfold executeOperation. destruct (is_select _).
  - match goal with |- context [db_call ?s] =>
      destruct (db_call_cases s w)
        as [(e & w1 & Hc & _ & Ht & _)|(a & t & w1 & _ & Hc & _ & Ht & _)] end.
    + erewrite bind_throw; [|exact Hc]. done.
    + erewrite bind_normal; [|exact Hc]. done.
  - match goal with |- context [db_call ?s] =>
      destruct (db_call_cases s w)
        as [(e & w1 & Hc & _ & Ht & _)|(a & t & w1 & _ & Hc & _ & Ht & _)] end.
    + erewrite bind_throw; [|exact Hc]. done.
    + erewrite bind_normal; [|exact Hc]. done.
Qed.

Lemma run_operations_txn ops w :
  txn (snd (run_operations ops w)) = txn w.
Proof.
  revert w. induction ops as [|operation rest IH]; intros w; [done|].
  simpl. destruct (executeOperation operation w) as [c w1] eqn:E1.
  destruct (run_operations rest w1) as [cs w2] eqn:E2. simpl.
  pose proof (IH w1) as IH1. rewrite E2 in IH1. simpl in IH1.
  pose proof (executeOperation_txn operation w) as H1. rewrite E1 in H1.
  simpl in H1. congruence.
Qed.

Lemma run_operations_length ops w :
  length (fst (run_operations ops w)) = length ops.
Proof.
  revert w. induction ops as [|operation rest IH]; intros w; [done|].
  simpl. destruct (executeOperation operation w) as [c w1] eqn:E1.
  destruct (run_operations rest w1) as [cs w2] eqn:E2. simpl.
  specialize (IH w1). rewrite E2 in IH. simpl in IH. by rewrite IH.
Qed.










(** A BEGIN that the store refuses ends the process: the error goes to
    the handler of uncaught exceptions, and no operation of the batch is
    run. *)
Lemma run_batch_begin_refused ops w e w0 :
  BEGIN_TRANSACTION w = (Throw e, w0) ->
  run_batch ops w =
    (Exit,
     set_console (console w0 ++ [mkLogEntry LError "Uncaught Exception:" (Some e)]) w0).
Proof. intros Hb. unfold run_batch. by rewrite Hb. Qed.

(** [execute()] is single-use, and a transaction takes no operation once
    it has been executed. *)
Lemma execute_twice_fails this w :
  let this' := fst (execute this) in
  isExecuted this' = true
  /\ snd (execute this') w =
       (Throw (new_Error "Transaction has already been executed"), w).
Proof.
  unfold execute. destruct (isExecuted this) eqn:E; simpl.
  - by rewrite E.
  - done.
Qed.

Lemma add_after_execute_fails this q ps :
  add q ps (fst (execute this)) =
    inl (new_Error "Cannot add operations to an already executed transaction").
Proof.
  unfold execute, add. destruct (isExecuted this) eqn:E; simpl; [by rewrite E|done].
Qed.

(** [withTransaction] submits exactly the operations it is given. *)
Lemma add_each_fresh ops this :
  isExecuted this = false ->
  add_each ops this =
    inr (mkDatabaseTransaction
           (operations this
            ++ ((fun op => mkTransactionOperation (query op) (params op)) <$> ops))
           false).
Proof.
  revert this. induction ops as [|op ops IH]; intros this Hnew.
  - simpl. rewrite app_nil_r. destruct this as [l b]. simpl in *. by subst.
  - simpl. unfold add at 1. rewrite Hnew. rewrite IH by done. simpl.
    by rewrite <- app_assoc.
Qed.

Lemma rebuilt_operations (ops : list TransactionOperation) :
  (fun op => mkTransactionOperation (query op) (params op)) <$> ops = ops.
Proof. induction ops as [|[q ps] ops IH]; [done|]. simpl. by f_equal. Qed.

Lemma withTransaction_runs_batch ops : withTransaction ops = run_batch ops.
Proof.
  unfold withTransaction. rewrite add_each_fresh by done.
  by rewrite rebuilt_operations.
Qed.


End Transaction.

Section TransactionExamples.
Import DatabaseTransaction.



End TransactionExamples.

(* ===================================================================== *)
(** * The job orchestrator: the credit gate of POST /process/:id *)
(* ===================================================================== *)

Lemma largest_key_bound {V} (m : gmap Z V) k v :
  m !! k = Some v -> k <= largest_key m.
Proof.
  unfold largest_key. revert k v.
  apply (map_fold_weak_ind
           (fun acc (m : gmap Z V) => forall k v, m !! k = Some v -> k <= acc)).
  - intros k v Hk. by rewrite lookup_empty in Hk.
  - intros i x m0 r Hi IH k v Hk.
    destruct (decide (i = k)) as [->|Hne]; [lia|].
    rewrite lookup_insert_ne in Hk by done. specialize (IH k v Hk). lia.
Qed.

Lemma next_id_fresh {V} (seq : Z) (m : gmap Z V) : m !! next_id seq m = None.
Proof.
  destruct (m !! next_id seq m) as [v|] eqn:Hk; [|done].
  apply largest_key_bound in Hk. unfold next_id in Hk. lia.
Qed.

Lemma same_jobs_refl t : same_jobs t t.
Proof. done. Qed.

Lemma same_jobs_trans a b c : same_jobs a b -> same_jobs b c -> same_jobs a c.
Proof. intros [? ?] [? ?]. split; congruence. Qed.

Section Orchestrator.
Context `{Host}.
Import CreditService video_routes.

#[local] Arguments checkCredits : simpl never.
#[local] Arguments pretty : simpl never.

Lemma checkCredits_same_jobs userId : db_rel same_jobs (checkCredits userId).
Proof.
  unfold checkCredits. destruct userId as [uid|]; [|apply db_rel_ret, same_jobs_refl].
  destruct (negb _); [apply db_rel_ret, same_jobs_refl|].
  eapply db_rel_bind;
    [by auto | apply same_jobs_trans | apply db_rel_db_read, same_jobs_refl |].
  intros [r|]; [|apply db_rel_ret, same_jobs_refl].
  destruct (_ && _); [|apply db_rel_ret, same_jobs_refl].
  eapply db_rel_bind;
    [by auto | apply same_jobs_trans | apply db_rel_new_Date, same_jobs_refl |].
  intros t. destruct (Date_gt _ _); [apply db_rel_ret, same_jobs_refl|].
  eapply db_rel_bind; [by auto | apply same_jobs_trans | |].
  - unfold updateSubscriptionStatus.
    eapply db_rel_bind; [by auto | apply same_jobs_trans | |].
    + apply db_rel_db_call; [apply same_jobs_refl|]. by intros t0 [] t' [= <-].
    + intros _. apply db_rel_console_log, same_jobs_refl.
  - intros _. apply db_rel_ret, same_jobs_refl.
Qed.

(** What happens once the credit check has let the request through. *)
Lemma post_process_after_gate req u videoId w v w1 :
  req_user req = Some u -> parseInt (params_id req) = Some videoId ->
  checkCredits (Some (au_id u)) w = (Normal v, w1) -> canProceed v = true ->
  forall c w', post_process req w = (c, w') ->
    same_jobs (db w1) (db w')
    \/ exists resp task,
         c = Normal (resp, task)
         /\ processing_results (db w1) !! processingId resp = None
         /\ processing_results (db w') =
              <[processingId resp := mkJobRow videoId (owner_of u) "processing" 0 None]>
                (processing_results (db w1)).
Proof.
  intros Hu Hid Hcc Hok c w' Hp. unfold post_process in Hp.
  rewrite Hid, Hu in Hp.
  erewrite bind_normal in Hp;
    [|erewrite bind_normal; [|exact Hcc]; rewrite Hok; reflexivity].
  match type of Hp with context [db_read ?q] =>
    destruct (db_call_cases (fun t => inr (q t, t)) w1)
      as [(e & w2 & Hc2 & Hd2 & _)|(a & t & w2 & Hst & Hc2 & Hd2 & _)] end.
  - erewrite bind_throw in Hp; [|exact Hc2]. injection Hp as <- <-.
    left. by rewrite Hd2.
  - erewrite bind_normal in Hp; [|exact Hc2]. injection Hst as <- <-.
    destruct (videos (db w1) !! videoId) as [video|].
    + match type of Hp with context [db_call ?s] =>
        destruct (db_call_cases s w2)
          as [(e & w3 & Hc3 & Hd3 & _)|(a & t & w3 & Hst & Hc3 & Hd3 & _)] end.
      * erewrite bind_throw in Hp; [|exact Hc3]. injection Hp as <- <-.
        left. by rewrite Hd3, Hd2.
      * erewrite bind_normal in Hp; [|exact Hc3]. injection Hst as <- <-.
        injection Hp as <- <-. right. eexists _, _. split; [reflexivity|].
        rewrite Hd3, Hd2. simpl. split; [apply next_id_fresh|done].
    + injection Hp as <- <-. left. by rewrite Hd2.
Qed.

(** C7.  For a request that carries a user and a well-formed video id:
    if [checkCredits] denies the user, the request fails with a 402
    [HttpError] and the job table is left as it was; whenever the job table
    does change, the credit check has passed, and the change is exactly
    one new row, in status 'processing' with progress 0. *)
Theorem post_process_credit_gate (req : Request) (u : AuthUser) (videoId : Z)
    (w : World) :
  req_user req = Some u -> parseInt (params_id req) = Some videoId ->
  (forall v w1,
     checkCredits (Some (au_id u)) w = (Normal v, w1) -> canProceed v = false ->
     post_process req w =
       (Throw (new_HttpError (or_default (reason v) "Insufficient credits") 402), w1)
     /\ processing_results (db w1) = processing_results (db w))
  /\ (forall c w',
        post_process req w = (c, w') ->
        processing_results (db w') <> processing_results (db w) ->
        (exists v w1, checkCredits (Some (au_id u)) w = (Normal v, w1)
                      /\ canProceed v = true)
        /\ exists resp task,
             c = Normal (resp, task)
             /\ processing_results (db w) !! processingId resp = None
             /\ processing_results (db w') =
                  <[processingId resp := mkJobRow videoId (owner_of u) "processing" 0 None]>
                    (processing_results (db w))).
Proof.
  intros Hu Hid. split.
  - intros v w1 Hcc Hdeny. split.
    + unfold post_process. rewrite Hid, Hu.
      erewrite bind_throw; [done|].
      erewrite bind_normal; [|exact Hcc]. by rewrite Hdeny.
    + by destruct (checkCredits_same_jobs _ _ _ _ Hcc).
  - intros c w' Hp Hchanged.
    destruct (checkCredits (Some (au_id u)) w) as [[v|e|] w1] eqn:Hcc;
      [| |by destruct (checkCredits_never_exits (Some (au_id u)) w w1)].
    + destruct (checkCredits_same_jobs _ _ _ _ Hcc) as [Hj Hs].
      destruct (canProceed v) eqn:Hok.
      * split; [by eauto|].
        destruct (post_process_after_gate req u videoId w v w1 Hu Hid Hcc Hok c w' Hp)
          as [[Hj' _]|(resp & task & -> & Hfresh & Hins)].
        -- exfalso. apply Hchanged. congruence.
        -- exists resp, task. rewrite <- Hj. done.
      * exfalso. apply Hchanged.
        unfold post_process in Hp. rewrite Hid, Hu in Hp.
        erewrite bind_throw in Hp;
          [|erewrite bind_normal; [|exact Hcc]; rewrite Hok; reflexivity].
        injection Hp as <- <-. done.
    + exfalso. apply Hchanged.
      destruct (checkCredits_same_jobs _ _ _ _ Hcc) as [Hj Hs].
      unfold post_process in Hp. rewrite Hid, Hu in Hp.
      erewrite bind_throw in Hp; [|erewrite bind_throw; [|exact Hcc]; reflexivity].
      injection Hp as <- <-. done.
Qed.

(* ===================================================================== *)
(** * The job orchestrator: the failure branch of the detached task *)
(* ===================================================================== *)

Lemma only_deletes_refl w : only_deletes w w.
Proof. done. Qed.

Lemma only_deletes_trans a b c :
  only_deletes a b -> only_deletes b c -> only_deletes a c.
Proof.
  intros (? & ? & ?) (? & ? & ?). repeat split; [congruence..|set_solver].
Qed.

Lemma only_deletes_console w l : only_deletes w (set_console l w).
Proof. done. Qed.

Lemma only_deletes_faults w fs : only_deletes w (set_faults fs w).
Proof. done. Qed.

Lemma db_read_only_deletes {A} (q : Tables -> A) : world_rel only_deletes (db_read q).
Proof.
  intros w c w' Hr. unfold db_read in Hr.
  destruct (db_call_cases (fun t => inr (q t, t)) w)
    as [(e & w1 & Hc & Hd & Ht & Hf & _)|(a & t & w1 & Hst & Hc & Hd & Ht & Hf & _)];
    rewrite Hc in Hr; injection Hr as <- <-.
  - repeat split; [done..|by rewrite Hf].
  - injection Hst as <- <-. repeat split; [done..|by rewrite Hf].
Qed.

Lemma existsSync_only_deletes p : world_rel only_deletes (fileManager.existsSync p).
Proof. by intros w c w' [= _ <-]. Qed.

Lemma unlinkSync_only_deletes p : world_rel only_deletes (fileManager.unlinkSync p).
Proof.
  apply (world_rel_answered only_deletes only_deletes_trans only_deletes_faults).
  intros w c w' Heq. injection Heq as _ <-.
  split; [reflexivity|split; [reflexivity|]]. simpl.
  intros q Hq. set_unfold. tauto.
Qed.

Lemma rmSync_only_deletes d : world_rel only_deletes (fileManager.rmSync_recursive d).
Proof.
  apply (world_rel_answered only_deletes only_deletes_trans only_deletes_faults).
  intros w c w' Heq. injection Heq as _ <-.
  split; [reflexivity|split; [reflexivity|]]. simpl.
  intros q Hq. set_unfold. tauto.
Qed.

Ltac step_cleanup :=
  first
    [ apply (world_rel_bind only_deletes only_deletes_trans); [|intros ?]
    | apply (world_rel_try_catch only_deletes only_deletes_trans); [|intros ?]
    | apply (world_rel_ret only_deletes only_deletes_refl)
    | apply (world_rel_console_log only_deletes only_deletes_console)
    | apply (world_rel_console_error only_deletes only_deletes_console)
    | apply db_read_only_deletes
    | apply existsSync_only_deletes
    | apply unlinkSync_only_deletes
    | apply rmSync_only_deletes ].

Lemma deleteFile_only_deletes p : world_rel only_deletes (fileManager.deleteFile p).
Proof.
  unfold fileManager.deleteFile. repeat step_cleanup.
  destruct x; repeat step_cleanup.
Qed.

Lemma delete_each_only_deletes ps : world_rel only_deletes (fileManager.delete_each ps).
Proof.
  induction ps as [|p ps IH]; [step_cleanup|].
  cbn [fileManager.delete_each]. step_cleanup; [|done].
  destruct (String.eqb p ""); [step_cleanup|].
  step_cleanup; [apply deleteFile_only_deletes|step_cleanup].
Qed.

Lemma cleanupProcessingFiles_only_deletes n :
  world_rel only_deletes (fileManager.cleanupProcessingFiles n).
Proof.
  unfold fileManager.cleanupProcessingFiles, fileManager.cleanup_attempt,
    fileManager.getProcessingFiles_clips, fileManager.getProcessingFiles_thumbnails.
  repeat first [apply delete_each_only_deletes | step_cleanup].
Qed.

Lemma cleanupFrames_only_deletes n :
  world_rel only_deletes (fileManager.cleanupFrames n).
Proof.
  unfold fileManager.cleanupFrames. repeat step_cleanup.
  destruct x; repeat step_cleanup.
Qed.

(** The cleanup never ends the process. *)
Lemma existsSync_settles p : settles (fileManager.existsSync p).
Proof. by intros w w'. Qed.

Lemma unlinkSync_settles p : settles (fileManager.unlinkSync p).
Proof. apply settles_answered. by intros w w'. Qed.

Lemma rmSync_settles d : settles (fileManager.rmSync_recursive d).
Proof. apply settles_answered. by intros w w'. Qed.

Lemma deleteFile_settles p : settles (fileManager.deleteFile p).
Proof.
  unfold fileManager.deleteFile. settle; [apply existsSync_settles|].
  destruct x; settle. apply unlinkSync_settles.
Qed.

Lemma delete_each_settles ps : settles (fileManager.delete_each ps).
Proof.
  induction ps as [|p ps IH]; [apply settles_ret|].
  cbn [fileManager.delete_each]. settle; [|done].
  destruct (String.eqb p ""); settle. apply deleteFile_settles.
Qed.

Lemma cleanup_attempt_settles n : settles (fileManager.cleanup_attempt n).
Proof.
  unfold fileManager.cleanup_attempt, fileManager.getProcessingFiles_clips,
    fileManager.getProcessingFiles_thumbnails.
  settle; apply delete_each_settles.
Qed.

Lemma cleanupProcessingFiles_returns n w :
  exists w', fileManager.cleanupProcessingFiles n w = (Normal tt, w').
Proof.
  unfold fileManager.cleanupProcessingFiles, try_catch.
  destruct (fileManager.cleanup_attempt n w) as [[[]|e|] w1] eqn:E; [eauto..|].
  by destruct (cleanup_attempt_settles n w w1).
Qed.

Lemma cleanupFrames_returns n w :
  exists w', fileManager.cleanupFrames n w = (Normal tt, w').
Proof.
  unfold fileManager.cleanupFrames, try_catch.
  match goal with |- context [bind ?m ?k w] =>
    assert (settles (bind m k)) as Hs;
      [|destruct (bind m k w) as [[[]|e|] w1] eqn:E; [eauto..|by destruct (Hs w w1)]]
  end.
  settle; [apply existsSync_settles|]. destruct x; settle. apply rmSync_settles.
Qed.

Lemma cleanup_step_returns videoId resultId w :
  exists w', cleanup_step videoId resultId w = (Normal tt, w') /\ only_deletes w w'.
Proof.
  assert (world_rel only_deletes (cleanup_step videoId resultId)) as Hrel.
  { unfold cleanup_step.
    step_cleanup; [|step_cleanup].
    step_cleanup;
      [apply cleanupProcessingFiles_only_deletes | apply cleanupFrames_only_deletes]. }
  unfold cleanup_step, try_catch in *.
  destruct (cleanupProcessingFiles_returns resultId w) as (w1 & E1).
  destruct (cleanupFrames_returns videoId w1) as (w2 & E2).
  exists w2. split.
  - erewrite bind_normal; [|exact E1]. by rewrite E2.
  - apply (Hrel w (Normal tt) w2). unfold try_catch.
    erewrite bind_normal; [|exact E1]. by rewrite E2.
Qed.

Lemma mark_failed_job resultId msg t j :
  processing_results t !! resultId = Some j ->
  processing_results (mark_failed resultId msg t) !! resultId =
    Some (mkJobRow (pr_video_id j) (pr_user_id j) "failed" (pr_progress j) (Some msg)).
Proof. intros Hj. unfold mark_failed. simpl. by rewrite Hj, lookup_insert_eq. Qed.

(** A failure of the analyzer does not leave the analysis step: the step
    never throws; when the analyzer fails it returns without a result, and
    the processing goes on with the mock result. *)
Lemma analyzer_failure_is_absorbed absoluteVideoPath w :
  (forall e w', analyse absoluteVideoPath w <> (Throw e, w'))
  /\ (settles (analyzeVideo (default "" absoluteVideoPath)) ->
      exists r w', analyse absoluteVideoPath w = (Normal r, w'))
  /\ forall e w1,
       hasOpenAI = true ->
       analyzeVideo (default "" absoluteVideoPath) w = (Throw e, w1) ->
       analyse absoluteVideoPath w =
         (Normal None,
          set_console
            (console w1 ++
               [mkLogEntry LLog
                  ("AI analysis failed, using enhanced mock data: " +:+ message e)
                  None]) w1).
Proof.
  unfold analyse. split; [|split].
  - intros e w'. destruct hasOpenAI; [|done].
    unfold try_catch, bind.
    by destruct (analyzeVideo (default "" absoluteVideoPath) w) as [[r|e0|] w1].
  - intros Hs. destruct hasOpenAI; [|by eexists _, _].
    unfold try_catch, bind.
    destruct (analyzeVideo (default "" absoluteVideoPath) w) as [[r|e|] w1] eqn:E;
      [by eexists _, _..|].
    by destruct (Hs w w1).
  - intros e w1 -> Ha. unfold try_catch, bind. by rewrite Ha.
Qed.

(** C4, as amended.  Whenever the [try] block of the detached task throws
    -- which a failure of the analyzer never makes it do, see
    [analyzer_failure_is_absorbed] -- the [catch] block logs the error,
    runs the file cleanup, which returns whatever happens inside it,
    touches no table and at most removes files, reporting its own failure
    with [console.error]; then it sends the update that sets the job's
    row to 'failed' with the message of the thrown error, which takes
    effect when the store accepts it. *)
Theorem processing_failure_handled (user : option AuthUser) (video : VideoRow)
    (videoId resultId : Z) (w0 : World) (error : Error) (w : World) :
  processing_attempt user video videoId resultId w0 = (Throw error, w) ->
  let announced :=
    set_console
      (console w ++
         [mkLogEntry LError ("Processing failed for video " +:+ pretty videoId +:+ ":")
            (Some error)]) w in
  exists w2,
    cleanup_step videoId resultId announced = (Normal tt, w2)
    /\ db w2 = db w /\ txn w2 = txn w /\ files w2 ⊆ files w
    /\ (forall e wf,
          fileManager.cleanup_attempt resultId announced = (Throw e, wf) ->
          fileManager.cleanupProcessingFiles resultId announced =
            (Normal tt,
             set_console
               (console wf ++
                  [mkLogEntry LError
                     ("Failed to cleanup processing files for " +:+ pretty resultId +:+ ":")
                     (Some e)]) wf))
    /\ background_task user video videoId resultId w0 =
         db_call (fun t => inr (tt, mark_failed resultId (message error) t)) w2
    /\ (next_fault w2 = None ->
        exists w',
          background_task user video videoId resultId w0 = (Normal tt, w')
          /\ db w' = mark_failed resultId (message error) (db w)
          /\ forall j, processing_results (db w) !! resultId = Some j ->
               processing_results (db w') !! resultId =
                 Some (mkJobRow (pr_video_id j) (pr_user_id j) "failed" (pr_progress j)
                         (Some (message error)))).
Proof.
  intros Hthrow announced.
  destruct (cleanup_step_returns videoId resultId announced)
    as (w2 & Hclean & Hdb & Htxn & Hfiles).
  exists w2. split; [done|]. split; [done|]. split; [done|]. split; [done|].
  assert (background_task user video videoId resultId w0 =
          db_call (fun t => inr (tt, mark_failed resultId (message error) t)) w2) as Hbg.
  { unfold background_task, try_catch. rewrite Hthrow.
    unfold on_processing_failure.
    erewrite bind_normal; [|reflexivity].
    fold (cleanup_step videoId resultId). fold announced.
    erewrite bind_normal; [|exact Hclean]. done. }
  split; [|split; [done|]].
  - intros e wf Hf. unfold fileManager.cleanupProcessingFiles, try_catch.
    by rewrite Hf.
  - intros Hacc. rewrite Hbg. unfold db_call.
    rewrite answered_accepted by done. simpl.
    eexists. split; [reflexivity|]. simpl. rewrite Hdb. split; [done|].
    intros j Hj. by apply mark_failed_job.
Qed.

End Orchestrator.

Section OrchestratorExamples.
Import CreditService video_routes.

(** A denied user gets a 402 and no job row. *)
Lemma post_process_credit_gate_witness :
  let w := world_with_video (mkUserRow 0 0 None) [] in
  let req := mkRequest "1" (Some alice) in
  post_process req w = (Throw (new_HttpError "Insufficient credits" 402), w)
  /\ processing_results (db w) = ∅.
Proof.
  intros w req.
  destruct (@post_process_credit_gate demo_host req alice 1 w eq_refl
              ltac:(vm_compute; reflexivity))
    as [Hdeny _].
  destruct (Hdeny (mkCreditCheckResult false (Some (mkUser 7 0 false None))
                     (Some "Insufficient credits")) w
              ltac:(vm_compute; reflexivity) eq_refl) as [Hp Hj].
  split; [exact Hp|reflexivity].
Defined.

Lemma processing_failure_handled_witness :
  let w0 := job_started [None; Some database_locked] in
  exists w',
    background_task None talk_mp4 1 1 w0 = (Normal tt, w')
    /\ job_of w' 1 =
         Some (mkJobRow 1 None "failed" 0
                 (Some "Transaction failed: SQLITE_BUSY: database is locked")).
Proof.
  intros w0.
  destruct (@processing_failure_handled demo_host None talk_mp4 1 1 w0
              (new_Error "Transaction failed: SQLITE_BUSY: database is locked")
              (snd (@processing_attempt demo_host None talk_mp4 1 1 w0))
              ltac:(vm_compute; reflexivity))
    as (w2 & Hclean & _ & _ & _ & _ & _ & Hfinal).
  vm_compute in Hclean. injection Hclean as <-.
  destruct (Hfinal eq_refl) as (w' & Hbg & _ & Hjob).
  exists w'. split; [exact Hbg|].
  apply (Hjob (mkJobRow 1 None "processing" 0 None)).
  vm_compute. reflexivity.
Defined.

(** The analyzer throws "upstream unavailable" for a user with one credit:
    the job ends 'completed', with no error message, on the mock result,
    and the credit stays spent.  And when the batch of an anonymous job is
    rejected by a store that then also rejects the update of the [catch]
    block, the task ends in a rejection and the row stays 'processing'. *)
Lemma analyzer_failure_job_completes :
  let w := world_with_video (mkUserRow 1 0 None) [] in
  let req := mkRequest "1" (Some alice) in
  let w0 :=
    job_started ([None; Some database_locked] ++ replicate 11 None
                 ++ [Some database_locked]) in
  hasOpenAI = true
  /\ fst (analyzeVideo "./uploads/videos/video_1_talk.mp4" w) = Throw upstream_unavailable
  /\ match post_process req w with
     | (Normal (resp, task), w1) =>
         fst (task w1) = Normal tt
         /\ job_of (snd (task w1)) (processingId resp) =
              Some (mkJobRow 1 (Some 7) "completed" 100 None)
         /\ credits_of (snd (task w1)) 7 = Some 0
     | _ => False
     end
  /\ fst (processing_attempt None talk_mp4 1 1 w0) =
       Throw (new_Error "Transaction failed: SQLITE_BUSY: database is locked")
  /\ fst (background_task None talk_mp4 1 1 w0) = Throw database_locked
  /\ job_of (snd (background_task None talk_mp4 1 1 w0)) 1 =
       Some (mkJobRow 1 None "processing" 0 None).
Proof. vm_compute. repeat split; reflexivity. Qed.

End OrchestratorExamples.

(* ===================================================================== *)
(** * The status read model: GET /process/:id *)
(* ===================================================================== *)

Section OrderBy.
Context {A : Type} (key : A -> Q).

Lemma insert_by_HdRel y x l :
  by_key key y x -> HdRel (by_key key) y l -> HdRel (by_key key) y (insert_by key x l).
Proof.
  intros Hyx Hl. destruct l as [|z l]; simpl; [by constructor|].
  destruct (Qle_bool (key x) (key z)); constructor; [done|].
  by inversion Hl.
Qed.

Lemma insert_by_sorted x l :
  Sorted (by_key key) l -> Sorted (by_key key) (insert_by key x l).
Proof.
  induction 1 as [|y l Hs IH Hhd]; simpl.
  - repeat constructor.
  - destruct (Qle_bool (key x) (key y)) eqn:Hle.
    + constructor; [by constructor|]. constructor. by apply Qle_bool_iff.
    + constructor; [done|]. apply insert_by_HdRel; [|done].
      unfold by_key. apply Qlt_le_weak, Qnot_le_lt. intros Hxy.
      apply Qle_bool_iff in Hxy. congruence.
Qed.

Lemma order_by_sorted l : Sorted (by_key key) (order_by key l).
Proof.
  induction l as [|x l IH]; simpl; [constructor|]. by apply insert_by_sorted.
Qed.

Lemma insert_by_perm x l : insert_by key x l ≡ₚ x :: l.
Proof.
  induction l as [|y l IH]; simpl; [done|].
  destruct (Qle_bool (key x) (key y)); [done|].
  rewrite IH. apply Permutation_swap.
Qed.

Lemma order_by_perm l : order_by key l ≡ₚ l.
Proof.
  induction l as [|x l IH]; simpl; [done|].
  by rewrite insert_by_perm, IH.
Qed.

End OrderBy.

Lemma Sorted_fmap {A B} (R : B -> B -> Prop) (f : A -> B) l :
  Sorted (fun a b => R (f a) (f b)) l -> Sorted R (f <$> l).
Proof.
  induction 1 as [|x l Hs IH Hhd]; simpl; constructor; [done|].
  destruct Hhd; simpl; by constructor.
Qed.

(** A read on the connection that returns has read the tables as they
    are, and changed nothing in them. *)
Lemma db_read_returns {A} (q : Tables -> A) w a w' :
  db_read q w = (Normal a, w') -> a = q (db w) /\ db w' = db w.
Proof.
  intros Hr. unfold db_read in Hr.
  destruct (db_call_cases (fun t => inr (q t, t)) w)
    as [(e & w1 & Hc & _)|(a' & t & w1 & Hst & Hc & Hd & _)];
    rewrite Hc in Hr; [done|].
  injection Hr as <- <-. by injection Hst as <- <-.
Qed.

Section Status.
Context `{Host}.
Import video_routes.

#[local] Arguments pretty : simpl never.

(** C8.  Whenever the status query answers, the answer carries the job
    row; it carries the job's derived records only if the job's status is
    'completed' -- its highlights, all of them, ordered by start time, its
    thumbnails ordered by timestamp, and its captions, which are the rows
    of the captions table stored for the job, all of them, in the order of
    the table -- and for every other status (so for 'pending' and
    'processing') its three arrays are empty, whatever the derived tables
    hold. *)
Theorem get_process_gates_on_status (req : Request) (processingId : Z)
    (w : World) (resp : ProcessingResult) (w' : World) :
  parseInt (params_id req) = Some processingId ->
  get_process req w = (Normal resp, w') ->
  exists pr v,
    job_with_video processingId (db w) = Some (pr, v)
    /\ r_id resp = processingId /\ r_videoId resp = pr_video_id pr
    /\ r_status resp = pr_status pr /\ r_progress resp = pr_progress pr
    /\ r_errorMessage resp = pr_error_message pr
    /\ (pr_status pr = "completed" ->
        r_highlights resp = highlight_view <$> clips_of_job processingId (db w)
        /\ r_thumbnails resp = thumbnail_view <$> thumbnails_of_job processingId (db w)
        /\ r_captions resp =
             caption_view <$>
               filter (fun c => cp_processing_result_id c = processingId)
                      (captions (db w))
        /\ Sorted (fun a b => (hv_startTime a <= hv_startTime b)%Q) (r_highlights resp)
        /\ Sorted (fun a b => (tv_timestamp a <= tv_timestamp b)%Q) (r_thumbnails resp)
        /\ clips_of_job processingId (db w) ≡ₚ
             filter (fun c => hc_processing_result_id c = processingId)
                    (highlight_clips (db w))
        /\ thumbnails_of_job processingId (db w) ≡ₚ
             filter (fun c => th_processing_result_id c = processingId)
                    (thumbnails (db w)))
    /\ (pr_status pr <> "completed" ->
        r_highlights resp = [] /\ r_thumbnails resp = [] /\ r_captions resp = []).
Proof.
  intros Hid Hg. unfold get_process in Hg. rewrite Hid in Hg.
  fold (job_with_video processingId) in Hg. unfold bind in Hg.
  destruct (db_read (job_with_video processingId) w) as [[result|e|] w1] eqn:Hr1;
    [|done..].
  destruct (db_read_returns _ _ _ _ Hr1) as [-> Hd1].
  destruct (job_with_video processingId (db w)) as [[pr v]|] eqn:Hjob; [|done].
  exists pr, v. split; [done|].
  destruct (truthy_num (pr_user_id pr) && _); [done|].
  destruct (String.eqb_spec (pr_status pr) "completed") as [Hst|Hst].
  - destruct (db_read (clips_of_job processingId) w1) as [[hl|e|] w2] eqn:Hr2;
      [|done..].
    destruct (db_read_returns _ _ _ _ Hr2) as [-> Hd2].
    destruct (db_read (thumbnails_of_job processingId) w2) as [[tl|e|] w3] eqn:Hr3;
      [|done..].
    destruct (db_read_returns _ _ _ _ Hr3) as [-> Hd3].
    destruct (db_read (captions_of_job processingId) w3) as [[cl|e|] w4] eqn:Hr4;
      [|done..].
    destruct (db_read_returns _ _ _ _ Hr4) as [-> Hd4].
    injection Hg as <- <-. simpl.
    rewrite Hd3, Hd2, Hd1.
    repeat (split; [done|]). split; [|done].
    intros _. repeat (split; [done|]).
    split; [|split; [|split]].
    + apply Sorted_fmap. apply (order_by_sorted hc_start_time).
    + apply Sorted_fmap. apply (order_by_sorted th_timestamp).
    + apply order_by_perm.
    + apply order_by_perm.
  - injection Hg as <- <-. simpl.
    repeat (split; [done|]). done.
Qed.

(** The query does answer: when the store does, the job and its video
    exist, and the job is anonymous or the requester's own. *)
Lemma get_process_answers (req : Request) (processingId : Z) (w : World) pr v :
  healthy w ->
  parseInt (params_id req) = Some processingId ->
  job_with_video processingId (db w) = Some (pr, v) ->
  (pr_user_id pr = None \/ au_id <$> req_user req = pr_user_id pr) ->
  exists resp, get_process req w = (Normal resp, w).
Proof.
  intros Hw Hid Hjob Hacc. unfold get_process. rewrite Hid.
  fold (job_with_video processingId).
  erewrite bind_normal; [|by apply db_read_healthy]. rewrite Hjob.
  assert (truthy_num (pr_user_id pr)
          && match req_user req with
             | Some u => negb (au_id u =? default 0 (pr_user_id pr))
             | None => true
             end = false) as ->.
  { destruct Hacc as [->|Hown]; [done|].
    destruct (req_user req) as [u|]; simpl in Hown.
    - rewrite <- Hown. simpl. rewrite Z.eqb_refl. apply andb_false_r.
    - by rewrite <- Hown. }
  destruct (String.eqb (pr_status pr) "completed").
  - erewrite bind_normal;
      [|erewrite bind_normal; [|by apply db_read_healthy];
        erewrite bind_normal; [|by apply db_read_healthy];
        erewrite bind_normal; [|by apply db_read_healthy]; reflexivity].
    by eexists.
  - erewrite bind_normal; [|reflexivity]. by eexists.
Qed.

End Status.

Section StatusExamples.
Import video_routes.

(** A completed job: its two clips come back by start time, its two
    thumbnails by timestamp, its two captions in the order of the table,
    and the rows of the other job are left out. *)
Lemma get_process_gates_on_status_witness :
  let w := world_with_completed_job in
  let req := mkRequest "1" None in
  exists resp,
    get_process req w = (Normal resp, w)
    /\ r_status resp = "completed"
    /\ hv_title <$> r_highlights resp = ["Opening Scene"; "Closing Remarks"]
    /\ hv_downloadUrl <$> r_highlights resp =
         [Some "/api/download/clip/3"; Some "/api/download/clip/1"]
    /\ tv_downloadUrl <$> r_thumbnails resp =
         ["/api/download/thumbnail/2"; "/api/download/thumbnail/1"]
    /\ r_captions resp =
         [mkCaptionView 1 "youtube" "hello" ["a"; "b"];
          mkCaptionView 3 "instagram" "again" ["c"]].
Proof.
  intros w req.
  destruct (@get_process_answers demo_host req 1 w
              (mkJobRow 1 None "completed" 100 None) talk_mp4
              eq_refl ltac:(vm_compute; reflexivity) ltac:(vm_compute; reflexivity)
              ltac:(left; reflexivity)) as [resp Hresp].
  exists resp. split; [exact Hresp|].
  destruct (@get_process_gates_on_status demo_host req 1 w resp w
              ltac:(vm_compute; reflexivity) Hresp)
    as (pr & v & Hjob & _ & _ & Hst & _ & _ & Hdone & _).
  vm_compute in Hjob. injection Hjob as <- <-.
  split; [exact Hst|].
  destruct (Hdone eq_refl) as (Hhl & Hth & Hcap & _).
  rewrite Hhl, Hth, Hcap. repeat split; vm_compute; reflexivity.
Defined.

End StatusExamples.

(* ===================================================================== *)
(** * Concurrent calls of [deductCredits]: no double spend *)
(* ===================================================================== *)

Section Race.
Context `{Host}.
Import CreditService DeductionSteps.

#[local] Arguments pretty : simpl never.
#[local] Arguments String.append : simpl never.

Ltac red_proj :=
  cbn [isSubscribed subscriptionExpiresAt id credits canProceed user reason negb andb].

(** The steps are those of [deductCredits]: a call that runs on its own
    settles, within three steps, as [deductCredits] does. *)
Lemma run_alone_is_deductCredits userId w :
  run_alone userId w =
    let '(c, w') := deductCredits userId None w in (Settled c, w').
Proof.
  unfold run_alone, step, after_check, deductCredits, checkCredits, bind, ret, throw,
    new_Date, balance_verdict.
  destruct (negb (truthy_num (Some userId))); [reflexivity|].
  destruct (db_read (fun t => users t !! userId) w) as [[[r|]|e|] w1];
    [|reflexivity..].
  red_proj.
  destruct (u_is_subscribed r =? 1); red_proj.
  - destruct (truthy_str (u_subscription_expires_at r)).
    + destruct (Date_gt _ (now w1)).
      * red_proj. by destruct (console_log _ w1).
      * destruct (updateSubscriptionStatus userId false None w1) as [[[]|e|] w2];
          [|reflexivity..].
        red_proj. destruct (u_credits r <=? 0); red_proj; [reflexivity|].
        by destruct (db_call _ w2) as [[n|e|] w3]; [destruct (n =? 0)| |].
    + red_proj. by destruct (console_log _ w1).
  - destruct (u_credits r <=? 0); red_proj; [reflexivity|].
    by destruct (db_call _ w1) as [[n|e|] w3]; [destruct (n =? 0)| |].
Qed.

Lemma waiting_ok_mono c c' s : c' <= c -> waiting_ok c s -> waiting_ok c' s.
Proof. destruct s as [|ud| |[| |]]; simpl; try done. lia. Qed.

Ltac settle_with Trow Teff Tok Tcase :=
  split; [reflexivity|];
  split; [done|];
  split; [done|];
  split; [Trow|];
  split; [Teff|];
  split; [Tok|Tcase].

(** One step of one call, on a row whose subscription is not in effect
    and that holds zero or one credit. *)
Lemma step_cases uid s w r' :
  uid <> 0 -> healthy w ->
  users (db w) !! uid = Some r' ->
  subscriber_in_effect r' (now w) = false ->
  u_credits r' = 0 \/ u_credits r' = 1 ->
  waiting_ok (u_credits r') s ->
  exists s' w' r'',
    step uid s w = (s', w') /\ healthy w' /\ now w' = now w
    /\ users (db w') !! uid = Some r''
    /\ subscriber_in_effect r'' (now w') = false
    /\ waiting_ok (u_credits r'') s'
    /\ ((s' = s /\ is_settled s = true /\ u_credits r'' = u_credits r')
        \/ (is_settled s = false /\ is_settled s' = false
            /\ u_credits r'' = u_credits r')
        \/ (is_settled s = false /\ (exists e, s' = Settled (Throw e))
            /\ u_credits r' = 0 /\ u_credits r'' = 0)
        \/ (is_settled s = false /\ s' = Settled (Normal tt)
            /\ u_credits r' = 1 /\ u_credits r'' = 0)).
Proof.
  intros Hu Hw Hr Heff0 Hc Hok. pose proof Heff0 as Heff.
  unfold subscriber_in_effect, active_subscriber, perpetual_subscriber in Heff.
  destruct s as [|ud| |c].
  - (* before the SELECT *)
    unfold step, truthy_num. destruct (Z.eqb_spec uid 0) as [|_]; [done|].
    cbn [negb]. rewrite db_read_healthy by done. rewrite Hr. red_proj.
    change (u_is_subscribed r' =? 1) with (flagged r').
    change (truthy_str (u_subscription_expires_at r')) with (has_expiry r').
    change (Date_gt (Date_parse (default "" (u_subscription_expires_at r'))) (now w))
      with (unexpired r' (now w)).
    destruct (flagged r') eqn:Hfl; cbn [andb] in *.
    + destruct (has_expiry r') eqn:Hx; cbn [andb negb orb] in *; [|done].
      rewrite orb_false_r in Heff. rewrite Heff.
      eexists _, w, r'.
      settle_with ltac:(exact Hr) ltac:(exact Heff0) ltac:(simpl; lia)
                  ltac:(right; left; done).
    + unfold after_check, balance_verdict. red_proj.
      destruct Hc as [Hc|Hc]; rewrite Hc; red_proj; cbn [Z.leb Z.compare negb].
      * eexists _, w, r'.
        settle_with ltac:(exact Hr) ltac:(exact Heff0) ltac:(by left)
                    ltac:(right; right; left; rewrite Hc; eauto).
      * eexists _, w, r'.
        settle_with ltac:(exact Hr) ltac:(exact Heff0) ltac:(exact I)
                    ltac:(right; left; done).
  - (* before the downgrade *)
    destruct Hok as [Hlo Hhi].
    unfold step. rewrite (updateSubscriptionStatus_downgrades uid r' w Hw Hr).
    unfold after_check, balance_verdict. red_proj.
    destruct (Z.leb_spec (credits ud) 0) as [Hle|Hgt]; red_proj.
    + eexists _, _, (downgraded r').
      settle_with ltac:(simpl; apply lookup_insert_eq) ltac:(reflexivity)
                  ltac:(by left)
                  ltac:(right; right; left; simpl; repeat split; first [by eauto | lia]).
    + eexists _, _, (downgraded r').
      settle_with ltac:(simpl; apply lookup_insert_eq) ltac:(reflexivity)
                  ltac:(exact I) ltac:(right; left; done).
  - (* before the conditional update *)
    unfold step, bind. rewrite db_call_healthy by done.
    rewrite (update_deduct_row _ _ _ Hr).
    destruct Hc as [Hc|Hc]; rewrite Hc; cbn [Z.ltb Z.compare Z.eqb].
    + rewrite set_db_same.
      eexists _, w, r'.
      settle_with ltac:(exact Hr) ltac:(exact Heff0) ltac:(by right)
                  ltac:(right; right; left; rewrite Hc; eauto).
    + eexists _, _, (charged r').
      settle_with ltac:(simpl; apply lookup_insert_eq) ltac:(exact Heff0)
                  ltac:(exact I)
                  ltac:(right; right; right; simpl; repeat split; first [done | lia]).
  - (* settled *)
    eexists _, w, r'.
    settle_with ltac:(exact Hr) ltac:(exact Heff0) ltac:(exact Hok)
                ltac:(by left).
Qed.

Lemma spent_once_swap uid a b w : spent_once uid a b w -> spent_once uid b a w.
Proof.
  intros (Hw & r' & Hr & Heff & Hc & Ha & Hb & Hnot & H1 & H0).
  split; [done|]. exists r'. repeat (split; [done|]).
  split; [tauto|]. split; [tauto|]. intros E. destruct (H0 E); auto.
Qed.

Lemma succeeded_settled s : succeeded s = true -> is_settled s = true.
Proof. by destruct s as [| | |[| |]]. Qed.

Lemma spent_once_step uid a b w :
  uid <> 0 -> spent_once uid a b w ->
  spent_once uid (fst (step uid a w)) b (snd (step uid a w)).
Proof.
  intros Hu (Hw & r' & Hr & Heff & Hc & Ha & Hb & Hnot & H1 & H0).
  destruct (step_cases uid a w r' Hu Hw Hr Heff Hc Ha)
    as (a' & w' & r'' & -> & Hw' & Hnow & Hr' & Heff' & Ha' & Hcase).
  simpl. split; [done|]. exists r''. split; [done|]. split; [done|].
  assert (forall s, is_settled s = false -> succeeded s = false) as Hunsettled.
  { intros s X. destruct (succeeded s) eqn:Y; [|done].
    apply succeeded_settled in Y. congruence. }
  destruct Hcase as [(-> & Hs & E)|[(Hs & Hs' & E)|[(Hs & [e ->] & E0 & E0')|(Hs & -> & E1 & E0')]]].
  - rewrite E. done.
  - rewrite E.
    split; [done|]. split; [by rewrite <- E|]. split; [done|].
    split; [rewrite (Hunsettled a' Hs'); by intros [? ?]|].
    split; [intros E1; by destruct (H1 E1)|].
    intros E0. destruct (H0 E0) as [X|X]; [|by right].
    rewrite (Hunsettled a Hs) in X. done.
  - rewrite E0'.
    split; [by left|]. split; [by rewrite <- E0'|]. split; [by rewrite <- E0|].
    split; [simpl; by intros [? ?]|]. split; [lia|].
    intros _. destruct (H0 E0) as [X|X]; [|by right].
    rewrite (Hunsettled a Hs) in X. done.
  - rewrite E0'. destruct (H1 E1) as [_ Hsb].
    split; [by left|]. split; [done|].
    split; [eapply waiting_ok_mono; [|exact Hb]; lia|].
    split; [intros [_ X]; rewrite (Hunsettled b Hsb) in X; done|].
    split; [lia|]. intros _. by left.
Qed.

Lemma spent_once_run uid schedule a b w :
  uid <> 0 -> spent_once uid a b w ->
  let '(a', b', w') := run_schedule uid schedule (a, b, w) in
  spent_once uid a' b' w'.
Proof.
  intros Hu. revert a b w. induction schedule as [|first rest IH]; intros a b w Hinv.
  - done.
  - unfold run_schedule. cbn [foldl]. fold (run_schedule uid rest).
    unfold step_pair at 2. destruct first.
    + pose proof (spent_once_step uid a b w Hu Hinv) as Hnext.
      destruct (step uid a w) as [a' w']. by apply IH.
    + pose proof (spent_once_step uid b a w Hu (spent_once_swap _ _ _ _ Hinv)) as Hnext.
      destruct (step uid b w) as [b' w']. by apply IH, spent_once_swap.
Qed.

Lemma after_check_steps_left uid cc w :
  (steps_left (fst (after_check uid cc w)) <= 1)%nat.
Proof.
  unfold after_check. destruct (negb _); [simpl; lia|].
  destruct (match user cc with Some _ => _ | None => _ end); [|simpl; lia].
  destruct (console_log _ w). simpl. lia.
Qed.

Lemma step_steps_left uid s w :
  (steps_left (fst (step uid s w)) <= steps_left s - 1)%nat.
Proof.
  destruct s as [|ud| |c]; simpl.
  - destruct (negb _).
    + pose proof (after_check_steps_left uid
        (mkCreditCheckResult false None (Some "Authentication required")) w). lia.
    + destruct (db_read _ w) as [[[r|]|e|] w1]; [| |simpl; lia..].
      * destruct (_ && _).
        -- destruct (Date_gt _ _); [|simpl; lia].
           match goal with |- context [after_check uid ?cc w1] =>
             pose proof (after_check_steps_left uid cc w1) end. lia.
        -- match goal with |- context [after_check uid ?cc w1] =>
             pose proof (after_check_steps_left uid cc w1) end. lia.
      * pose proof (after_check_steps_left uid
          (mkCreditCheckResult false None (Some "User not found")) w1). lia.
  - destruct (updateSubscriptionStatus uid false None w) as [[[]|e|] w1];
      [|simpl; lia..].
    match goal with |- context [after_check uid ?cc w1] =>
      pose proof (after_check_steps_left uid cc w1) end. lia.
  - destruct (bind _ _ w) as [c w1]. simpl. lia.
  - lia.
Qed.

Lemma run_schedule_steps_left uid schedule a b w :
  let '(a', b', _) := run_schedule uid schedule (a, b, w) in
  (steps_left a' <= steps_left a - length (filter (fun x => x = true) schedule))%nat
  /\ (steps_left b' <= steps_left b - length (filter (fun x => x = false) schedule))%nat.
Proof.
  unfold run_schedule.
  revert a b w. induction schedule as [|first rest IH]; intros a b w.
  - simpl. lia.
  - cbn [foldl]. unfold step_pair at 2. destruct first.
    + pose proof (step_steps_left uid a w) as Hs.
      destruct (step uid a w) as [a' w']. simpl in Hs.
      specialize (IH a' b w').
      destruct (foldl _ (a', b, w') rest) as [[a2 b2] w2].
      rewrite filter_cons_True by done. rewrite filter_cons_False by done.
      simpl. lia.
    + pose proof (step_steps_left uid b w) as Hs.
      destruct (step uid b w) as [b' w']. simpl in Hs.
      specialize (IH a b' w').
      destruct (foldl _ (a, b', w') rest) as [[a2 b2] w2].
      rewrite filter_cons_False by done. rewrite filter_cons_True by done.
      simpl. lia.
Qed.

(** C9, as amended.  Two calls of [deductCredits] for the same user run
    concurrently, the user holding exactly one credit and no subscription
    in effect, the store answering: however their steps interleave,
    both calls have settled as soon as each has had three turns, and once
    both have settled exactly one has succeeded, the other has failed with
    an insufficient-credits error, and no credit is left. *)
Theorem concurrent_deductions_spend_once (uid : Z) (r : UserRow) (w : World)
    (schedule : list bool) :
  uid <> 0 -> healthy w ->
  users (db w) !! uid = Some r -> u_credits r = 1 ->
  subscriber_in_effect r (now w) = false ->
  let '(a, b, w') := run_schedule uid schedule (BeforeCheck, BeforeCheck, w) in
  ((3 <= length (filter (fun x => x = true) schedule))%nat ->
   (3 <= length (filter (fun x => x = false) schedule))%nat ->
   is_settled a = true /\ is_settled b = true)
  /\ (is_settled a = true -> is_settled b = true ->
      ((a = Settled (Normal tt) /\ failed_for_credits b)
       \/ (failed_for_credits a /\ b = Settled (Normal tt)))
      /\ credits_of w' uid = Some 0).
Proof.
  intros Hu Hw Hr Hone Heff.
  assert (spent_once uid BeforeCheck BeforeCheck w) as Hinv.
  { split; [done|]. exists r. repeat (split; [done|]).
    split; [by right|]. repeat (split; [done|]).
    split; [by intros [? ?]|]. split; [done|]. lia. }
  pose proof (spent_once_run uid schedule _ _ _ Hu Hinv) as Hend.
  pose proof (run_schedule_steps_left uid schedule BeforeCheck BeforeCheck w) as Hleft.
  destruct (run_schedule uid schedule (BeforeCheck, BeforeCheck, w)) as [[a b] w'].
  split.
  - intros Ha Hb. destruct Hleft as [Hla Hlb]. simpl in Hla, Hlb.
    split; [destruct a|destruct b]; simpl in *; try done; lia.
  - intros Hsa Hsb.
    destruct Hend as (Hw' & r' & Hr' & _ & Hc & Hoka & Hokb & Hnot & H1 & H0).
    assert (u_credits r' = 0) as E0.
    { destruct Hc as [|E1]; [done|]. destruct (H1 E1). congruence. }
    split; [|unfold credits_of; rewrite Hr'; simpl; by rewrite E0].
    destruct a as [| | |[[]|ea|]]; try done; destruct b as [| | |[[]|eb|]]; try done.
    + exfalso. by apply Hnot.
    + left. split; [done|]. by exists eb.
    + right. split; [by exists ea|done].
    + exfalso. destruct (H0 E0); done.
Qed.

End Race.

Section RaceExamples.
Import CreditService DeductionSteps.

(** One credit, no subscription, the two calls taking turns: the first
    succeeds, the second fails for lack of credits. *)
Lemma concurrent_deductions_spend_once_witness :
  let w := world_of_user (mkUserRow 1 0 None) [] in
  let '(a, b, w') :=
    run_schedule 7 [true; false; true; false; true; false]
      (BeforeCheck, BeforeCheck, w) in
  ((a = Settled (Normal tt) /\ failed_for_credits b)
   \/ (failed_for_credits a /\ b = Settled (Normal tt)))
  /\ credits_of w' 7 = Some 0.
Proof.
  intros w.
  pose proof (@concurrent_deductions_spend_once demo_host 7 (mkUserRow 1 0 None) w
                [true; false; true; false; true; false]
                ltac:(lia) eq_refl ltac:(vm_compute; reflexivity) eq_refl
                ltac:(vm_compute; reflexivity)) as Hthm.
  destruct (run_schedule 7 [true; false; true; false; true; false]
              (BeforeCheck, BeforeCheck, w)) as [[a b] w'].
  destruct Hthm as [Hsettle Hone].
  destruct (Hsettle ltac:(vm_compute; lia) ltac:(vm_compute; lia)) as [Ha Hb].
  exact (Hone Ha Hb).
Defined.

(** One credit and a subscription running until 2030: both calls
    succeed, and the credit is still there. *)
Lemma concurrent_deductions_subscriber_both_succeed :
  let r := mkUserRow 1 1 (Some "2030-01-01T00:00:00.000Z") in
  let w := world_of_user r [] in
  u_credits r = 1
  /\ let '(a, b, w') := run_schedule 7 [true; false] (BeforeCheck, BeforeCheck, w) in
     a = Settled (Normal tt) /\ b = Settled (Normal tt) /\ credits_of w' 7 = Some 1.
Proof. vm_compute. repeat split; reflexivity. Qed.

End RaceExamples.

(* ===================================================================== *)
(** * The credit ledger: the rest of [CreditService] *)
(* ===================================================================== *)

Section LedgerMore.
Context `{Host}.
Import CreditService.

#[local] Arguments checkCredits : simpl never.
#[local] Arguments deductCredits : simpl never.
#[local] Arguments pretty : simpl never.

(** X1. [addCredits] is all or nothing.  A non-positive amount is
    refused before the store is asked anything; when the call returns,
    the user existed and holds exactly [amount] credits more, every other
    row and table being as before; when it throws, for whatever reason,
    the tables are unchanged.  With the store answering, a positive
    amount is added to an existing user and refused with "User not found"
    for an id without a row. *)
Theorem addCredits_all_or_nothing (uid amount : Z) (w : World) :
  (amount <= 0 ->
     addCredits uid amount w =
       (Throw (new_Error "Credit amount must be positive"), w))
  /\ (forall w', addCredits uid amount w = (Normal tt, w') ->
        0 < amount
        /\ exists r, users (db w) !! uid = Some r
             /\ db w' = set_users (<[uid := credited amount r]>) (db w))
  /\ (forall e w', addCredits uid amount w = (Throw e, w') -> db w' = db w)
  /\ (healthy w -> 0 < amount ->
        match users (db w) !! uid with
        | Some r => exists w', addCredits uid amount w = (Normal tt, w')
        | None => addCredits uid amount w = (Throw (new_Error "User not found"), w)
        end).
Proof.
  unfold addCredits.
  destruct (Z.leb_spec amount 0) as [Hle|Hlt].
  { split; [done|]. split; [done|]. split; [by intros e w' [= _ <-]|]. intros _ ?. lia. }
  split; [intros ?; lia|].
  pose proof (db_call_cases
                (fun t => inr (update_add uid amount t) : Error + (Z * Tables)) w)
    as [(e & w1 & Hc & Hd & _)|(n & t & w1 & Hst & Hc & Hd & _)].
  - split; [|split].
    + intros w'. by rewrite (bind_throw _ _ _ _ _ Hc).
    + intros e' w'. rewrite (bind_throw _ _ _ _ _ Hc). by intros [= _ <-].
    + intros Hw _. rewrite db_call_healthy in Hc by done.
      by destruct (update_add uid amount (db w)).
  - injection Hst as Hst. rewrite (bind_normal _ _ _ _ _ Hc).
    unfold update_add in Hst.
    destruct (users (db w) !! uid) as [r|] eqn:Hr; injection Hst as <- <-.
    + simpl. split; [|split].
      * intros w' [= <-]. split; [done|]. exists r. split; [done|].
        simpl. by rewrite Hd.
      * intros e' w'. done.
      * intros Hw _. by eexists.
    + simpl. split; [done|]. split.
      * intros e' w' [= _ <-]. done.
      * intros Hw _. rewrite db_call_healthy in Hc by done.
        unfold update_add in Hc. rewrite Hr in Hc. injection Hc as <-.
        by rewrite set_db_same.
Qed.

Lemma addCredits_row uid amount r w :
  healthy w -> 0 < amount -> users (db w) !! uid = Some r ->
  exists w',
    addCredits uid amount w = (Normal tt, w')
    /\ healthy w'
    /\ db w' = set_users (<[uid := credited amount r]>) (db w).
Proof.
  intros Hw Ha Hr. unfold addCredits.
  destruct (Z.leb_spec amount 0) as [?|_]; [lia|].
  unfold bind. rewrite db_call_healthy by done.
  rewrite (update_add_row uid amount r) by done. simpl.
  eexists. split; [reflexivity|]. by split.
Qed.

(** X2. Two purchases add up: with the store answering, adding [a] and
    then [b] credits leaves the tables exactly as adding [a + b] at once
    does. *)
Theorem addCredits_adds_up (uid a b : Z) (r : UserRow) (w : World) :
  healthy w -> 0 < a -> 0 < b -> users (db w) !! uid = Some r ->
  exists w1 w2 w12,
    addCredits uid a w = (Normal tt, w1)
    /\ addCredits uid b w1 = (Normal tt, w2)
    /\ addCredits uid (a + b) w = (Normal tt, w12)
    /\ db w2 = db w12.
Proof.
  intros Hw Ha Hb Hr.
  destruct (addCredits_row uid a r w Hw Ha Hr) as (w1 & H1 & Hw1 & Hd1).
  assert (Hr1 : users (db w1) !! uid = Some (credited a r)).
  { rewrite Hd1. simpl. by rewrite lookup_insert_eq. }
  destruct (addCredits_row uid b _ w1 Hw1 Hb Hr1) as (w2 & H2 & Hw2 & Hd2).
  destruct (addCredits_row uid (a + b) r w Hw ltac:(lia) Hr) as (w12 & H12 & _ & Hd12).
  exists w1, w2, w12. repeat split; try done.
  rewrite Hd2, Hd12, Hd1. unfold set_users, credited. simpl.
  rewrite insert_insert_eq. do 3 f_equal. lia.
Qed.

(** What [checkCredits] may write, whatever the store answers. *)
Lemma checkCredits_writes userId w c w' :
  checkCredits userId w = (c, w') ->
  txn w' = txn w /\ files w' = files w
  /\ (db w' = db w
      \/ exists uid r,
           userId = Some uid /\ users (db w) !! uid = Some r
           /\ expired_subscriber r (now w) = true
           /\ db w' = set_users (<[uid := downgraded r]>) (db w)).
Proof.
  unfold checkCredits. destruct userId as [uid|]; [|intros [= _ <-]; by auto].
  destruct (negb _); [intros [= _ <-]; by auto|].
  unfold bind at 1, db_read.
  pose proof (db_call_cases
                (fun t => inr (users t !! uid, t) : Error + (option UserRow * Tables)) w)
    as [(e & w1 & Hc & Hd & Ht & Hf & _)|(row & t & w1 & Hst & Hc & Hd & Ht & Hf & _)];
    rewrite Hc; [intros [= _ <-]; by auto|].
  injection Hst as <- <-.
  assert (Hn : now w1 = now w).
  { clear -Hc. unfold db_call, answered in Hc.
    destruct (faults w) as [|[e|] fs]; simpl in Hc; by inversion Hc. }
  destruct (users (db w) !! uid) as [r|] eqn:Hr; [|intros [= _ <-]; by auto].
  cbn [isSubscribed subscriptionExpiresAt id credits].
  fold (flagged r) (has_expiry r).
  destruct (flagged r && has_expiry r) eqn:Hfl; [|intros [= _ <-]; by auto].
  unfold bind at 1, new_Date. rewrite Hn. fold (unexpired r (now w)).
  destruct (unexpired r (now w)) eqn:Hu; [intros [= _ <-]; by auto|].
  unfold bind at 1, updateSubscriptionStatus, bind at 1.
  pose proof (db_call_cases
                (fun t =>
                   inr (tt, set_users
                              (fun us =>
                                 match us !! uid with
                                 | Some r0 => <[uid := mkUserRow (u_credits r0) 0 None]> us
                                 | None => us
                                 end) t) : Error + (unit * Tables)) w1)
    as [(e & w2 & Hc2 & Hd2 & Ht2 & Hf2 & _)|(u & t & w2 & Hst & Hc2 & Hd2 & Ht2 & Hf2 & _)];
    rewrite Hc2.
  - intros [= _ <-]. rewrite Ht2, Hf2, Hd2. by auto.
  - intros [= _ <-]. simpl. rewrite Ht2, Hf2. split; [done|]. split; [done|]. right.
    exists uid, r. split; [done|]. split; [done|].
    unfold expired_subscriber. rewrite Hfl, Hu. split; [done|].
    rewrite Hd2. injection Hst as _ <-. rewrite Hd.
    unfold set_users at 1. by rewrite Hr.
Qed.

(** X3. Checking never costs a credit.  Whatever the store answers,
    [checkCredits] leaves the files and an open transaction alone, and
    the tables either as they were or with the one change of the lazy
    downgrade: the row of the user asked about, whose subscription has
    expired, with its flag and expiry cleared and its credits kept. *)
Theorem checkCredits_only_downgrades (userId : option Z) (w : World) :
  let w' := snd (checkCredits userId w) in
  txn w' = txn w /\ files w' = files w
  /\ (db w' = db w
      \/ exists uid r,
           userId = Some uid /\ users (db w) !! uid = Some r
           /\ expired_subscriber r (now w) = true
           /\ db w' = set_users (<[uid := downgraded r]>) (db w)).
Proof.
  intros w'. subst w'. destruct (checkCredits userId w) as [c w'] eqn:Hcc.
  by eapply checkCredits_writes.
Qed.

(** X4. The lazy downgrade settles at once: with the store answering,
    a second [checkCredits] (at the same clock reading) gives the verdict
    of the first and leaves the world the first one left, writing and
    logging nothing more. *)
Theorem checkCredits_settles (userId : option Z) (w : World) :
  healthy w ->
  exists v w1,
    checkCredits userId w = (Normal v, w1)
    /\ checkCredits userId w1 = (Normal v, w1).
Proof.
  intros Hw.
  destruct (truthy_num userId) eqn:Ht.
  2:{ eexists _, _. split; by apply checkCredits_missing. }
  destruct userId as [uid|]; [|done].
  assert (Hu : uid <> 0) by (intros ->; done).
  destruct (users (db w) !! uid) as [r|] eqn:Hr.
  2:{ eexists _, _. split; by apply checkCredits_unknown. }
  rewrite (checkCredits_row uid r w Hw Hu Hr).
  destruct (flagged r && has_expiry r) eqn:Hfl.
  - destruct (unexpired r (now w)) eqn:Hx.
    + eexists _, _. split; [reflexivity|].
      rewrite (checkCredits_row uid r w Hw Hu Hr). by rewrite Hfl, Hx.
    + eexists _, _. split; [reflexivity|].
      erewrite (checkCredits_row uid (downgraded r)); [|done|done|].
      * reflexivity.
      * simpl. by rewrite lookup_insert_eq.
  - eexists _, _. split; [reflexivity|].
    rewrite (checkCredits_row uid r w Hw Hu Hr). by rewrite Hfl.
Qed.

Lemma updateSubscriptionStatus_row uid b expiresAt r w :
  healthy w -> users (db w) !! uid = Some r ->
  exists w1,
    updateSubscriptionStatus uid b expiresAt w = (Normal tt, w1)
    /\ healthy w1 /\ now w1 = now w
    /\ db w1 =
         set_users
           (<[uid := mkUserRow (u_credits r) (if b then 1 else 0)
                       (match expiresAt with
                        | Some d =>
                            if String.eqb (Date_toISOString d) "" then None
                            else Some (Date_toISOString d)
                        | None => None
                        end)]>) (db w).
Proof.
  intros Hw Hr. unfold updateSubscriptionStatus, bind.
  rewrite db_call_healthy by done. unfold set_users at 1. rewrite Hr.
  eexists. split; [reflexivity|]. by repeat split.
Qed.

(** X5. What [updateSubscriptionStatus] sets is what the ledger then
    acts on.  With the store answering: for an id without a row the call
    resolves and changes nothing; for a stored user, switching the
    subscription on -- with no expiry date, or with one that lies ahead
    of the clock and that the runtime parses back from its ISO text --
    keeps the balance, and from then on [checkCredits] lets the user
    proceed whatever the balance and [deductCredits] takes no credit. *)
Theorem updateSubscriptionStatus_takes_effect (uid : Z) (expiresAt : option Z)
    (w : World) :
  healthy w -> uid <> 0 ->
  (forall b, users (db w) !! uid = None ->
     exists w1, updateSubscriptionStatus uid b expiresAt w = (Normal tt, w1)
                /\ db w1 = db w)
  /\ (forall r, users (db w) !! uid = Some r ->
      (forall d, expiresAt = Some d ->
         Date_toISOString d <> "" /\ Date_parse (Date_toISOString d) = Some d
         /\ now w < d) ->
      exists w1,
        updateSubscriptionStatus uid true expiresAt w = (Normal tt, w1)
        /\ users (db w1) =
             <[uid := mkUserRow (u_credits r) 1 (Date_toISOString <$> expiresAt)]>
               (users (db w))
        /\ (exists v, checkCredits (Some uid) w1 = (Normal v, w1)
                      /\ canProceed v = true)
        /\ (exists w2, deductCredits uid None w1 = (Normal tt, w2)
                       /\ db w2 = db w1)).
Proof.
  intros Hw Hu. split.
  - intros b Hr. unfold updateSubscriptionStatus, bind.
    rewrite db_call_healthy by done. unfold set_users at 1. rewrite Hr.
    eexists. split; [reflexivity|]. simpl. by destruct (db w).
  - intros r Hr Hd.
    destruct (updateSubscriptionStatus_row uid true expiresAt r w Hw Hr)
      as (w1 & Hup & Hw1 & Hn1 & Hdb).
    set (r1 := mkUserRow (u_credits r) 1 (Date_toISOString <$> expiresAt)).
    assert (Hdb1 : db w1 = set_users (<[uid := r1]>) (db w)).
    { rewrite Hdb. unfold r1. destruct expiresAt as [d|]; [|done].
      destruct (Hd d eq_refl) as (Hne & _). simpl.
      apply String.eqb_neq in Hne. by rewrite Hne. }
    assert (Hr1 : users (db w1) !! uid = Some r1).
    { rewrite Hdb1. simpl. by rewrite lookup_insert_eq. }
    assert (Heff : subscriber_in_effect r1 (now w1) = true).
    { unfold subscriber_in_effect, active_subscriber, perpetual_subscriber,
        flagged, has_expiry, unexpired, r1. simpl.
      destruct expiresAt as [d|]; simpl; [|done].
      destruct (Hd d eq_refl) as (Hne & Hparse & Hlater).
      apply String.eqb_neq in Hne. rewrite Hne, Hparse. simpl.
      rewrite Hn1. apply Z.ltb_lt in Hlater. by rewrite Hlater. }
    exists w1. split; [done|]. split; [by rewrite Hdb1|]. split.
    + rewrite (checkCredits_row uid r1 w1 Hw1 Hu Hr1).
      unfold subscriber_in_effect, active_subscriber, perpetual_subscriber in Heff.
      destruct (flagged r1) eqn:Hfl; [|done].
      destruct (has_expiry r1) eqn:Hx; simpl in *.
      * rewrite orb_false_r in Heff. rewrite Heff. by eexists.
      * eexists. split; [reflexivity|]. done.
    + destruct (deductCredits_row uid r1 w1 Hw1 Hu Hr1) as (w2 & Hded).
      rewrite Heff in Hded. by exists w2.
Qed.

Lemma deductCredits_denied uid w v w1 :
  checkCredits (Some uid) w = (Normal v, w1) -> canProceed v = false ->
  deductCredits uid None w =
    (Throw (new_HttpError (or_default (reason v) "Cannot deduct credits") 402), w1).
Proof. intros Hc Hv. unfold deductCredits, bind. by rewrite Hc, Hv. Qed.

(** X6. Run on its own against a store that answers, [deductCredits]
    (without pre-fetched info) ends as [checkCredits] decides: a denial
    becomes an HttpError 402 carrying the reason of the check, one of
    "Authentication required", "User not found", "Insufficient credits",
    and once the check lets the user through the deduction cannot fail --
    the conditional update always finds its row. *)
Theorem deductCredits_follows_check (uid : Z) (w : World) :
  healthy w ->
  exists v w1,
    checkCredits (Some uid) w = (Normal v, w1)
    /\ (canProceed v = false ->
        exists why,
          reason v = Some why /\ In why denial_reasons
          /\ deductCredits uid None w = (Throw (new_HttpError why 402), w1))
    /\ (canProceed v = true ->
        exists w2, deductCredits uid None w = (Normal tt, w2)).
Proof.
  intros Hw.
  destruct (Z.eq_dec uid 0) as [->|Hu].
  { eexists _, _. split; [by apply checkCredits_missing|]. split; [|done].
    intros _. exists "Authentication required". split; [done|].
    split; [by left|]. apply deductCredits_zero. }
  destruct (users (db w) !! uid) as [r|] eqn:Hr.
  2:{ eexists _, _. split; [by apply checkCredits_unknown|]. split; [|done].
      intros _. exists "User not found". split; [done|].
      split; [right; by left|].
      by erewrite deductCredits_denied; [|by apply checkCredits_unknown|]. }
  destruct (deductCredits_row uid r w Hw Hu Hr) as (w2 & Hded).
  rewrite (checkCredits_row uid r w Hw Hu Hr).
  unfold subscriber_in_effect, active_subscriber, perpetual_subscriber in Hded.
  destruct (flagged r) eqn:Hfl; simpl in *.
  - destruct (has_expiry r) eqn:Hx; simpl in *.
    + rewrite orb_false_r in Hded. destruct (unexpired r (now w)) eqn:Hun.
      * eexists _, _. split; [reflexivity|]. split; [done|].
        intros _. exists w2. apply Hded.
      * eexists _, _. split; [reflexivity|].
        unfold balance_verdict. simpl.
        destruct (Z.leb_spec (u_credits r) 0) as [Hle|Hlt]; simpl.
        -- split; [|done]. intros _. exists "Insufficient credits".
           split; [done|]. split; [right; right; by left|].
           erewrite deductCredits_denied;
             [|rewrite (checkCredits_row uid r w Hw Hu Hr), Hfl, Hx; simpl;
               rewrite Hun; reflexivity|];
             unfold balance_verdict; simpl;
             apply Z.leb_le in Hle; by rewrite Hle.
        -- split; [done|]. intros _. exists w2.
           apply Z.ltb_lt in Hlt. rewrite Hlt in Hded. apply Hded.
    + eexists _, _. split; [reflexivity|].
      unfold balance_verdict, user_of_row. simpl.
      change (u_is_subscribed r =? 1) with (flagged r). rewrite Hfl. simpl.
      split; [done|]. intros _. exists w2. apply Hded.
  - eexists _, _. split; [reflexivity|].
    unfold balance_verdict, user_of_row. simpl.
    change (u_is_subscribed r =? 1) with (flagged r). rewrite Hfl. simpl.
    destruct (Z.leb_spec (u_credits r) 0) as [Hle|Hlt]; simpl.
    + split; [|done]. intros _. exists "Insufficient credits".
      split; [done|]. split; [right; right; by left|].
      erewrite deductCredits_denied;
        [|rewrite (checkCredits_row uid r w Hw Hu Hr), Hfl; reflexivity|];
        unfold balance_verdict, user_of_row; simpl;
        change (u_is_subscribed r =? 1) with (flagged r); rewrite Hfl; simpl;
        apply Z.leb_le in Hle; by rewrite Hle.
    + split; [done|]. intros _. exists w2.
      apply Z.ltb_lt in Hlt. rewrite Hlt in Hded. apply Hded.
Qed.

(** X7. [getUserCredits] reports the stored balance and whether the
    subscription is in effect now.  With the store answering it gives
    [null] for the id 0 and for an id without a row; for a stored user it
    gives a record with that id, the stored credits, and [isSubscribed]
    set exactly when the flag is stored with an expiry that is absent or
    ahead of the clock -- not the stored flag as such. *)
Theorem getUserCredits_reports (uid : Z) (w : World) :
  healthy w ->
  (uid = 0 \/ users (db w) !! uid = None ->
     getUserCredits uid w = (Normal None, w))
  /\ (forall r, uid <> 0 -> users (db w) !! uid = Some r ->
        exists u w1,
          getUserCredits uid w = (Normal (Some u), w1)
          /\ id u = uid /\ credits u = u_credits r
          /\ isSubscribed u = subscriber_in_effect r (now w)).
Proof.
  intros Hw. unfold getUserCredits. split.
  - intros [->|Hr].
    + erewrite bind_normal; [|by apply checkCredits_missing]. done.
    + destruct (Z.eq_dec uid 0) as [->|Hu].
      * erewrite bind_normal; [|by apply checkCredits_missing]. done.
      * erewrite bind_normal; [|by apply checkCredits_unknown]. done.
  - intros r Hu Hr. unfold bind.
    rewrite (checkCredits_row uid r w Hw Hu Hr).
    unfold subscriber_in_effect, active_subscriber, perpetual_subscriber.
    destruct (flagged r) eqn:Hfl; simpl.
    + destruct (has_expiry r); simpl.
      * rewrite orb_false_r. destruct (unexpired r (now w)).
        -- eexists _, _. split; [reflexivity|]. simpl.
           change (u_is_subscribed r =? 1) with (flagged r). by rewrite Hfl.
        -- unfold ret. rewrite balance_verdict_user. by eexists _, _.
      * unfold ret. rewrite balance_verdict_user. eexists _, _.
        split; [reflexivity|]. simpl.
        change (u_is_subscribed r =? 1) with (flagged r). by rewrite Hfl.
    + unfold ret. rewrite balance_verdict_user. eexists _, _.
      split; [reflexivity|]. simpl.
      change (u_is_subscribed r =? 1) with (flagged r). by rewrite Hfl.
Qed.

#[local] Arguments refundCredits : simpl never.

(** X8. The compensating refund goes by the subscription as it is when
    the refund runs, not by whether a credit was taken.  A user whose
    subscription is active when [executeWithRollback] starts is not
    charged; if the operation then fails at a time when that subscription
    has run out (the store answering, the user's row untouched by the
    operation), the refund finds a lapsed subscriber, clears the flag and
    adds a credit: the original error is re-thrown and the user holds one
    credit more than before. *)
Theorem executeWithRollback_refunds_by_state_at_refund {T} (uid : Z) (r : UserRow)
    (operation : M T) (w w1 w2 : World) (e : Error) :
  healthy w -> uid <> 0 ->
  users (db w) !! uid = Some r -> active_subscriber r (now w) = true ->
  deductCredits uid None w = (Normal tt, w1) ->
  operation w1 = (Throw e, w2) ->
  healthy w2 -> users (db w2) !! uid = Some r -> unexpired r (now w2) = false ->
  db w1 = db w
  /\ exists w3,
       executeWithRollback uid operation w = (Throw e, w3)
       /\ users (db w3) =
            <[uid := mkUserRow (u_credits r + 1) 0 None]> (users (db w2)).
Proof.
  intros Hw Hu Hr Hact Hded Hop Hw2 Hr2 Hexp.
  assert (flagged r = true /\ has_expiry r = true) as [Hfl Hx].
  { unfold active_subscriber in Hact.
    apply andb_true_iff in Hact as [Hact _]. by apply andb_true_iff in Hact. }
  split.
  - destruct (deductCredits_row uid r w Hw Hu Hr) as (w' & Hrow).
    unfold subscriber_in_effect in Hrow. rewrite Hact in Hrow. simpl in Hrow.
    destruct Hrow as [Hrow Hdb]. congruence.
  - rewrite (executeWithRollback_operation_throws uid operation w w1 e w2 Hded Hop).
    destruct (refundCredits_row uid r (rollback_announced uid w2)) as (w3 & Href & Hdb3);
      try done.
    rewrite Href. exists w3. split; [done|].
    unfold subscriber_in_effect, active_subscriber, perpetual_subscriber in Hdb3.
    simpl in Hdb3. rewrite Hfl, Hx, Hexp in Hdb3. simpl in Hdb3. done.
Qed.

End LedgerMore.

(* ===================================================================== *)
(** * The transaction coordinator: the rest of [database/transaction.ts] *)
(* ===================================================================== *)

Lemma healthy_next_fault w : healthy w -> next_fault w = None.
Proof. unfold healthy, next_fault. by intros ->. Qed.

Lemma healthy_consumed w : healthy w -> consumed w = w.
Proof. unfold healthy, consumed. destruct w; simpl. by intros ->. Qed.

Lemma begin_inside_transaction w t0 :
  txn w = Some t0 -> next_fault w = None ->
  BEGIN_TRANSACTION w =
    (Throw (new_Error "SQLITE_ERROR: cannot start a transaction within a transaction"),
     consumed w).
Proof.
  intros Ht Hacc. unfold BEGIN_TRANSACTION.
  rewrite answered_accepted by done. simpl. by rewrite Ht.
Qed.

Lemma begin_refused_frame w e w0 :
  BEGIN_TRANSACTION w = (Throw e, w0) ->
  db w0 = db w /\ txn w0 = txn w /\ files w0 = files w /\ console w0 = console w.
Proof.
  unfold BEGIN_TRANSACTION, answered. intros Hb.
  destruct (faults w) as [|[e'|] fs]; simpl in Hb.
  - destruct (txn w) eqn:Ht; [|done]. by injection Hb as _ <-.
  - by injection Hb as _ <-.
  - destruct (txn w) eqn:Ht; [|done]. by injection Hb as _ <-.
Qed.

Lemma commit_accepted w t0 :
  healthy w -> txn w = Some t0 -> COMMIT w = (Normal tt, set_txn None w).
Proof.
  intros Hw Ht. unfold COMMIT.
  rewrite answered_accepted, healthy_consumed by by try apply healthy_next_fault.
  by rewrite Ht.
Qed.

Section TransactionMore.
Context `{Host}.
Import DatabaseTransaction.

Lemma executeOperation_healthy operation w :
  healthy w -> healthy (snd (executeOperation operation w)).
Proof.
  intros Hw. unfold executeOperation, bind.
  destruct (is_select _); rewrite db_call_healthy by done.
  - by destruct (sql_get _ _ _) as [e|row].
  - by destruct (sql_run _ _ _) as [e|[info t]].
Qed.

Lemma run_operations_healthy ops w :
  healthy w -> healthy (snd (run_operations ops w)).
Proof.
  revert w. induction ops as [|operation rest IH]; intros w Hw; [done|].
  simpl. pose proof (executeOperation_healthy operation w Hw) as H1.
  destruct (executeOperation operation w) as [c w1].
  specialize (IH w1 H1). by destruct (run_operations rest w1) as [cs w2].
Qed.

(** What a batch leaves when the store answers and no other transaction
    is open: the tables its operations left when it resolves, the tables
    from before it when it is rejected. *)
Lemma run_batch_healthy ops w :
  healthy w -> txn w = None ->
  let begun := set_txn (Some (db w)) w in
  let cs := fst (run_operations ops begun) in
  let w1 := snd (run_operations ops begun) in
  match first_rejection cs with
  | Some cause =>
      run_batch ops w =
        (Throw (new_Error ("Transaction failed: " +:+ message cause)),
         set_txn None (set_db (db w) w1))
  | None => run_batch ops w = (Normal (fulfilled cs), set_txn None w1)
  end
  /\ healthy w1 /\ length cs = length ops.
Proof.
  intros Hw Hidle begun cs w1.
  assert (Hb : BEGIN_TRANSACTION w = (Normal tt, begun)).
  { rewrite begin_on_idle, healthy_consumed by by try apply healthy_next_fault.
    done. }
  assert (Hw1 : healthy w1) by by apply run_operations_healthy.
  assert (Ht1 : txn w1 = Some (db w)).
  { unfold w1. by rewrite run_operations_txn. }
  split; [|split; [done|apply run_operations_length]].
  unfold run_batch. rewrite Hb. subst cs w1.
  destruct (run_operations ops begun) as [cs w1]. simpl in *.
  destruct (first_rejection cs) as [cause|].
  - unfold bind.
    rewrite (rollback_restores w1 (db w)), healthy_consumed
      by by try apply healthy_next_fault.
    done.
  - unfold try_catch, bind. by rewrite (commit_accepted w1 (db w)).
Qed.

(** X9. [executeTransaction] hands the callback a new transaction and
    executes what the callback left in it.  An error of the callback is
    re-thrown as it is and nothing is sent to the store for the batch; a
    callback that has itself executed the transaction makes the call fail
    with "Transaction has already been executed"; otherwise the batch
    runs in the world the callback left, the callback's result is
    returned exactly when the batch resolves, and a rejection of the batch
    is re-thrown in its place.  The callback runs before the BEGIN: with
    the store answering, what it wrote directly is still there after a
    batch that failed -- the rollback covers the batch only. *)
Theorem executeTransaction_contract {T}
    (callback : DatabaseTransaction -> M (T * DatabaseTransaction)) (w : World) :
  (forall e w1, callback new w = (Throw e, w1) ->
     executeTransaction callback w = (Throw e, w1))
  /\ (forall x this w1, callback new w = (Normal (x, this), w1) ->
      (isExecuted this = true ->
         executeTransaction callback w =
           (Throw (new_Error "Transaction has already been executed"), w1))
      /\ (isExecuted this = false ->
          (forall rs w2, run_batch (operations this) w1 = (Normal rs, w2) ->
             executeTransaction callback w = (Normal x, w2))
          /\ (forall e w2, run_batch (operations this) w1 = (Throw e, w2) ->
                executeTransaction callback w = (Throw e, w2)
                /\ (healthy w1 -> txn w1 = None -> db w2 = db w1)))).
Proof.
  unfold executeTransaction, try_catch, bind. split.
  - by intros e w1 ->.
  - intros x this w1 ->. unfold execute. split.
    + by intros ->.
    + intros ->. simpl. split.
      * by intros rs w2 ->.
      * intros e w2 Hb. rewrite Hb. split; [done|].
        intros Hw1 Hidle.
        destruct (run_batch_healthy (operations this) w1 Hw1 Hidle) as (Hrun & _).
        destruct (first_rejection _); rewrite Hb in Hrun; [|done].
        by injection Hrun as _ ->.
Qed.

(** Once its BEGIN is accepted, a batch settles. *)
Lemma run_batch_settles_after_begin ops w w0 :
  BEGIN_TRANSACTION w = (Normal tt, w0) ->
  forall w', run_batch ops w <> (Exit, w').
Proof.
  intros Hb w'. unfold run_batch. rewrite Hb.
  destruct (run_operations ops w0) as [cs w1].
  destruct (first_rejection cs) as [cause|].
  - apply settles_bind; [apply settles_ignoring_err, settles_ROLLBACK|].
    intros _. apply settles_throw.
  - apply settles_try_catch.
    + apply settles_bind; [apply settles_COMMIT|]. intros _. apply settles_ret.
    + intros e. apply settles_bind; [apply settles_ignoring_err, settles_ROLLBACK|].
      intros _. apply settles_throw.
Qed.

(** X10. [execute()] does not nest: on a connection on which a
    transaction is already open it ends the process.  The store refuses
    the BEGIN ("cannot start a transaction within a transaction");
    [db.run] was given no callback to take the error, so it is thrown
    where nothing catches it, and the handler of 'uncaughtException' logs
    it and calls [process.exit].  None of the operations has run by then,
    the tables, the open transaction and the files are as they were, and
    the caller's promise is never settled.  So it is for every BEGIN the
    store refuses, and only then: a batch whose BEGIN is accepted is
    fulfilled or rejected. *)
Theorem execute_does_not_nest (this : DatabaseTransaction) (w : World) :
  isExecuted this = false ->
  (forall t0, txn w = Some t0 -> next_fault w = None ->
     exists w',
       snd (execute this) w = (Exit, w')
       /\ db w' = db w /\ txn w' = Some t0 /\ files w' = files w
       /\ console w' =
            (console w ++
               [mkLogEntry LError "Uncaught Exception:"
                  (Some (new_Error
                     "SQLITE_ERROR: cannot start a transaction within a transaction"))])%list)
  /\ (forall e w0, BEGIN_TRANSACTION w = (Throw e, w0) ->
      exists w',
        snd (execute this) w = (Exit, w')
        /\ db w' = db w /\ txn w' = txn w /\ files w' = files w
        /\ console w' =
             (console w ++ [mkLogEntry LError "Uncaught Exception:" (Some e)])%list)
  /\ (forall w', snd (execute this) w = (Exit, w') ->
      exists e w0, BEGIN_TRANSACTION w = (Throw e, w0)).
Proof.
  intros Hnew.
  assert (snd (execute this) = run_batch (operations this)) as ->
    by (unfold execute; by rewrite Hnew).
  assert (forall e w0, BEGIN_TRANSACTION w = (Throw e, w0) ->
            exists w',
              run_batch (operations this) w = (Exit, w')
              /\ db w' = db w /\ txn w' = txn w /\ files w' = files w
              /\ console w' =
                   (console w ++ [mkLogEntry LError "Uncaught Exception:" (Some e)])%list)
    as Hrefused.
  { intros e w0 Hb. rewrite (run_batch_begin_refused _ _ _ _ Hb).
    eexists. split; [reflexivity|]. simpl.
    destruct (begin_refused_frame w e w0 Hb) as (-> & -> & -> & ->). done. }
  split; [|split].
  - intros t0 Ht Hacc.
    destruct (Hrefused _ _ (begin_inside_transaction w t0 Ht Hacc))
      as (w' & Hrun & Hdb & Htxn & Hfiles & Hlog).
    exists w'. by rewrite <- Ht.
  - exact Hrefused.
  - intros w' Hx.
    destruct (BEGIN_TRANSACTION w) as [[[]|e|] w0] eqn:Hb.
    + by destruct (run_batch_settles_after_begin (operations this) w w0 Hb w').
    + by exists e, w0.
    + by destruct (settles_BEGIN_TRANSACTION w w0).
Qed.

Lemma executeWithTransaction_outcome (q : string) (qs : option (list SqlValue))
    (w : World) :
  healthy w -> txn w = None ->
  let ps := default [] qs in
  exists c w',
    executeWithTransaction q qs w = (c, w') /\ txn w' = None
    /\ (is_select q = true ->
        match sql_get q ps (db w) with
        | inr (Some row) => c = Normal (Some (TxRow (Some row))) /\ db w' = db w
        | inr None => c = Normal None /\ db w' = db w
        | inl cause =>
            c = Throw (new_Error ("Transaction failed: " +:+ message cause))
            /\ db w' = db w
        end)
    /\ (is_select q = false ->
        match sql_run q ps (db w) with
        | inr (info, t') =>
            c = Normal (Some (TxRun (if lastID info =? 0 then None
                                     else Some (lastID info))
                                    (changes info)))
            /\ db w' = t'
        | inl cause =>
            c = Throw (new_Error ("Transaction failed: " +:+ message cause))
            /\ db w' = db w
        end).
Proof.
  intros Hw Hidle ps.
  unfold executeWithTransaction. rewrite withTransaction_runs_batch.
  destruct (run_batch_healthy [mkTransactionOperation q qs] w Hw Hidle)
    as (Hrun & _).
  cbn [run_operations fst snd] in Hrun.
  unfold executeOperation in Hrun. cbn [query params] in Hrun.
  fold ps in Hrun. unfold bind in *.
  destruct (is_select q); cbn beta in Hrun;
    rewrite db_call_healthy in Hrun by done; simpl db in Hrun.
  - destruct (sql_get q ps (db w)) as [cause|[row|]]; simpl in Hrun;
      rewrite Hrun; eexists _, _; (split; [reflexivity|]);
      (split; [done|]); (split; [done|]); done.
  - destruct (sql_run q ps (db w)) as [cause|[info t']]; simpl in Hrun;
      rewrite Hrun; eexists _, _; (split; [reflexivity|]);
      (split; [done|]); (split; [done|]); done.
Qed.

(** X11. [executeWithTransaction] runs one statement between BEGIN and
    COMMIT and hands back what the statement gave.  With the store
    answering and no transaction open: a SELECT resolves with the row
    found, or with [undefined] when it finds none, the tables unchanged;
    any other statement resolves with its [{ lastID, changes }] ([lastID]
    left out when it is 0), the tables being those the statement left; a
    statement the store rejects makes the call fail with "Transaction
    failed: " followed by the message of the error, the tables being as
    they were.  No transaction is open afterwards. *)
Theorem executeWithTransaction_one_statement (query : string)
    (params : option (list SqlValue)) (w : World) :
  healthy w -> txn w = None ->
  let ps := default [] params in
  exists c w',
    executeWithTransaction query params w = (c, w') /\ txn w' = None
    /\ (is_select query = true ->
        match sql_get query ps (db w) with
        | inr (Some row) => c = Normal (Some (TxRow (Some row))) /\ db w' = db w
        | inr None => c = Normal None /\ db w' = db w
        | inl cause =>
            c = Throw (new_Error ("Transaction failed: " +:+ message cause))
            /\ db w' = db w
        end)
    /\ (is_select query = false ->
        match sql_run query ps (db w) with
        | inr (info, t') =>
            c = Normal (Some (TxRun (if lastID info =? 0 then None
                                     else Some (lastID info))
                                    (changes info)))
            /\ db w' = t'
        | inl cause =>
            c = Throw (new_Error ("Transaction failed: " +:+ message cause))
            /\ db w' = db w
        end).
Proof. apply executeWithTransaction_outcome. Qed.

(** X12. A transaction object is built in order and used once.
    Adding operations one by one to a new transaction never fails and
    keeps them in the order given.  [execute()] marks the object as
    executed before anything is sent to the store, so whatever becomes of
    the batch the object keeps its operations but takes no further one
    ("Cannot add operations to an already executed transaction") and
    cannot be executed again ("Transaction has already been executed"),
    the second [execute()] leaving the world untouched. *)
Theorem transaction_is_single_use (ops : list TransactionOperation) :
  exists this,
    add_each ops new = inr this
    /\ operations this = ops /\ isExecuted this = false
    /\ operations (fst (execute this)) = ops
    /\ (forall q ps,
          add q ps (fst (execute this)) =
            inl (new_Error "Cannot add operations to an already executed transaction"))
    /\ (forall w,
          snd (execute (fst (execute this))) w =
            (Throw (new_Error "Transaction has already been executed"), w)).
Proof.
  eexists. split.
  { rewrite add_each_fresh by done. simpl. by rewrite rebuilt_operations. }
  by repeat split.
Qed.

End TransactionMore.

(* ===================================================================== *)
(** * The routes: validation, access and the read model *)
(* ===================================================================== *)

Lemma nothing_written_refl w : nothing_written w w.
Proof. by repeat split. Qed.

Lemma nothing_written_trans a b c :
  nothing_written a b -> nothing_written b c -> nothing_written a c.
Proof. intros (?&?&?&?) (?&?&?&?). repeat split; congruence. Qed.

Lemma db_read_nothing_written {A} (q : Tables -> A) :
  world_rel nothing_written (db_read q).
Proof.
  intros w c w' Hr. unfold db_read in Hr.
  destruct (db_call_cases (fun t => inr (q t, t) : Error + (A * Tables)) w)
    as [(e & w1 & Hc & Hd & Ht & Hf & Hl)|(a & t & w1 & Hst & Hc & Hd & Ht & Hf & Hl & _)];
    rewrite Hc in Hr; injection Hr as <- <-; repeat split; try done.
  injection Hst as _ <-. done.
Qed.

Lemma append_nil_r (s : string) : s +:+ "" = s.
Proof.
  induction s as [|c s IH]; [done|].
  change (String c s +:+ "") with (String c (s +:+ "")). by f_equal.
Qed.

Lemma append_assoc (a b c : string) : (a +:+ b) +:+ c = a +:+ (b +:+ c).
Proof.
  induction a as [|x a IH]; [done|].
  change (String x (a +:+ b) +:+ c = String x (a +:+ (b +:+ c))).
  change (String x ((a +:+ b) +:+ c) = String x (a +:+ (b +:+ c))). by f_equal.
Qed.

Lemma split_commas_from_append current t rest :
  has_comma t = false ->
  split_commas_from current (t +:+ rest) = split_commas_from (current +:+ t) rest.
Proof.
  revert current. induction t as [|c t IH]; intros current Ht.
  - by rewrite append_nil_r.
  - simpl in Ht. apply orb_false_iff in Ht as [Hc Ht].
    change (String c t +:+ rest) with (String c (t +:+ rest)).
    cbn [split_commas_from]. rewrite Hc.
    rewrite IH by done. f_equal. rewrite append_assoc. done.
Qed.

Lemma split_commas_from_concat current t tags :
  has_comma t = false -> Forall (fun x => has_comma x = false) tags ->
  split_commas_from current (String.concat "," (t :: tags)) = (current +:+ t) :: tags.
Proof.
  intros Ht Htags. revert current t Ht.
  induction Htags as [|y tags Hy Htags IH]; intros current t Ht.
  - simpl. rewrite <- (append_nil_r t) at 1.
    by rewrite split_commas_from_append.
  - change (String.concat "," (t :: y :: tags))
      with (t +:+ "," +:+ String.concat "," (y :: tags)).
    rewrite split_commas_from_append by done.
    change ("," +:+ String.concat "," (y :: tags))
      with (String ","%char (String.concat "," (y :: tags))).
    cbn [split_commas_from]. rewrite Ascii.eqb_refl. f_equal.
    by rewrite IH.
Qed.

Section RoutesMore.
Context `{Host}.
Import CreditService video_routes.

#[local] Arguments checkCredits : simpl never.
#[local] Arguments pretty : simpl never.

(** X13. The hashtags of a caption survive the store.  The orchestrator
    stores them joined by commas and the status query splits the stored
    text: a non-empty list of tags, none of which contains a comma, comes
    back as it was.  An empty list does not: it is stored as the empty
    text, which splits into one empty tag. *)
Theorem hashtags_round_trip (caption : CaptionVariant) (id job : Z) :
  let stored :=
    mkCaptionRow id job (cv_platform caption) (cv_content caption)
      (Some (join_commas (cv_hashtags caption))) in
  (cv_hashtags caption <> [] ->
   Forall (fun tag => has_comma tag = false) (cv_hashtags caption) ->
   cvw_hashtags (caption_view stored) = cv_hashtags caption)
  /\ (cv_hashtags caption = [] -> cvw_hashtags (caption_view stored) = [""]).
Proof.
  unfold caption_view, split_commas, join_commas. simpl. split.
  - destruct (cv_hashtags caption) as [|t tags]; [done|]. intros _ Hf.
    apply Forall_cons in Hf as [Ht Htags].
    by rewrite split_commas_from_concat.
  - by intros ->.
Qed.

(** X14. The status query decides in this order.  With the store
    answering: an id that is not a number is refused with 400 before the
    store is asked; a job that does not exist, or whose video row is gone,
    is reported with 404; a job that has an owner is shown to that owner
    only, anyone else (signed in or not) getting 403; a job without an
    owner (user id NULL or 0) is shown to everyone.  In each case the
    world is left as it was. *)
Theorem get_process_decides (req : Request) (w : World) :
  healthy w ->
  match parseInt (params_id req) with
  | None =>
      get_process req w = (Throw (new_HttpError "Invalid processing ID" 400), w)
  | Some processingId =>
      match job_with_video processingId (db w) with
      | None =>
          get_process req w =
            (Throw (new_HttpError "Processing result not found" 404), w)
      | Some (pr, v) =>
          if may_read (req_user req) pr
          then exists resp, get_process req w = (Normal resp, w)
          else get_process req w = (Throw (new_HttpError "Access denied" 403), w)
      end
  end.
Proof.
  intros Hw. unfold get_process.
  destruct (parseInt (params_id req)) as [processingId|]; [|done].
  fold (job_with_video processingId).
  erewrite bind_normal; [|by apply db_read_healthy].
  destruct (job_with_video processingId (db w)) as [[pr v]|]; [|done].
  assert (Hacc : truthy_num (pr_user_id pr)
                 && match req_user req with
                    | Some u => negb (au_id u =? default 0 (pr_user_id pr))
                    | None => true
                    end = negb (may_read (req_user req) pr)).
  { unfold may_read, truthy_num. destruct (pr_user_id pr) as [owner|]; [|done].
    simpl. destruct (owner =? 0); [done|]. simpl.
    destruct (req_user req) as [u|]; [|done]. done. }
  rewrite Hacc. destruct (may_read (req_user req) pr); [|done]. simpl.
  destruct (String.eqb (pr_status pr) "completed").
  - erewrite bind_normal;
      [|erewrite bind_normal; [|by apply db_read_healthy];
        erewrite bind_normal; [|by apply db_read_healthy];
        erewrite bind_normal; [|by apply db_read_healthy]; reflexivity].
    by eexists.
  - erewrite bind_normal; [|reflexivity]. by eexists.
Qed.

Lemma get_process_nothing_written req : world_rel nothing_written (get_process req).
Proof.
  unfold get_process.
  destruct (parseInt (params_id req)) as [processingId|];
    [|apply world_rel_throw, nothing_written_refl].
  apply (world_rel_bind _ nothing_written_trans); [apply db_read_nothing_written|].
  intros [[pr v]|]; [|apply world_rel_throw, nothing_written_refl].
  destruct (_ && _); [apply world_rel_throw, nothing_written_refl|].
  apply (world_rel_bind _ nothing_written_trans).
  - destruct (String.eqb _ _); [|apply world_rel_ret, nothing_written_refl].
    apply (world_rel_bind _ nothing_written_trans); [apply db_read_nothing_written|].
    intros hl.
    apply (world_rel_bind _ nothing_written_trans); [apply db_read_nothing_written|].
    intros tl.
    apply (world_rel_bind _ nothing_written_trans); [apply db_read_nothing_written|].
    intros cl. apply world_rel_ret, nothing_written_refl.
  - intros [[hl tl] cl]. apply world_rel_ret, nothing_written_refl.
Qed.

(** X15. The status query only reads.  Whatever the store answers and
    whatever the outcome, it leaves the tables, an open transaction, the
    files and the log as they were. *)
Theorem get_process_reads_only (req : Request) (w : World) :
  let w' := snd (get_process req w) in
  db w' = db w /\ txn w' = txn w /\ files w' = files w /\ console w' = console w.
Proof.
  intros w'. subst w'. destruct (get_process req w) as [c w'] eqn:Hg.
  by apply (get_process_nothing_written req w c w').
Qed.

(** With the store answering, [checkCredits] answers, and leaves the
    videos and the jobs alone. *)
Lemma checkCredits_answers userId w :
  healthy w ->
  exists v w1,
    checkCredits userId w = (Normal v, w1) /\ healthy w1
    /\ same_jobs (db w) (db w1) /\ videos (db w1) = videos (db w).
Proof.
  intros Hw.
  destruct (truthy_num userId) eqn:Ht.
  2:{ eexists _, _. split; [by apply checkCredits_missing|]. by repeat split. }
  destruct userId as [uid|]; [|done].
  assert (Hu : uid <> 0) by (intros ->; done).
  destruct (users (db w) !! uid) as [r|] eqn:Hr.
  2:{ eexists _, _. split; [by apply checkCredits_unknown|]. by repeat split. }
  rewrite (checkCredits_row uid r w Hw Hu Hr).
  destruct (flagged r && has_expiry r); [destruct (unexpired r (now w))|];
    eexists _, _; (split; [reflexivity|]); by repeat split.
Qed.

(** X16. How a processing request is validated.  With the store
    answering: an id that is not a number is refused with 400 before the
    store is asked anything; a request for a video that does not exist
    creates no job -- it fails with 404 "Video not found", or with the 402
    of the credit check, which comes first -- and for an anonymous request
    it is the 404, the world being left as it was; an anonymous request
    for an existing video passes no credit check and creates the job
    without an owner, in status 'processing' at progress 0, under an id
    larger than every id in the job table and than its AUTOINCREMENT
    counter, and that id is the [processingId] sent back. *)
Theorem post_process_validates (req : Request) (w : World) :
  healthy w ->
  (parseInt (params_id req) = None ->
     post_process req w = (Throw (new_HttpError "Invalid video ID" 400), w))
  /\ (forall videoId,
        parseInt (params_id req) = Some videoId ->
        videos (db w) !! videoId = None ->
        exists e w',
          post_process req w = (Throw e, w')
          /\ same_jobs (db w) (db w')
          /\ (e = new_HttpError "Video not found" 404 \/ statusCode e = Some 402)
          /\ (req_user req = None ->
              e = new_HttpError "Video not found" 404 /\ w' = w))
  /\ (forall videoId video,
        parseInt (params_id req) = Some videoId ->
        videos (db w) !! videoId = Some video ->
        req_user req = None ->
        let newId := next_id (seq_processing_results (db w)) (processing_results (db w)) in
        post_process req w =
          (Normal (mkProcessingStartResponse "Processing started" newId,
                   background_task None video videoId newId),
           set_db
             (set_processing_results
                (<[newId := mkJobRow videoId None "processing" 0 None]>) newId (db w))
             w)
        /\ (forall k j, processing_results (db w) !! k = Some j -> k < newId)
        /\ seq_processing_results (db w) < newId).
Proof.
  intros Hw. unfold post_process. split; [by intros ->|]. split.
  - intros videoId -> Hv.
    destruct (req_user req) as [u|] eqn:Hu.
    + destruct (checkCredits_answers (Some (au_id u)) w Hw)
        as (v & w1 & Hcc & Hw1 & Hj1 & Hv1).
      destruct (canProceed v) eqn:Hok.
      * erewrite bind_normal;
          [|erewrite bind_normal; [|exact Hcc]; rewrite Hok; reflexivity].
        erewrite bind_normal; [|by apply db_read_healthy].
        rewrite Hv1, Hv. eexists _, _. split; [reflexivity|].
        split; [done|]. split; [by left|]. done.
      * erewrite bind_throw;
          [|erewrite bind_normal; [|exact Hcc]; rewrite Hok; reflexivity].
        eexists _, _. split; [reflexivity|].
        split; [done|]. split; [by right|]. done.
    + erewrite bind_normal; [|reflexivity].
      erewrite bind_normal; [|by apply db_read_healthy].
      rewrite Hv. eexists _, _. split; [reflexivity|].
      split; [apply same_jobs_refl|]. split; [by left|]. done.
  - intros videoId video -> Hv ->.
    erewrite bind_normal; [|reflexivity].
    erewrite bind_normal; [|by apply db_read_healthy].
    rewrite Hv. unfold bind. rewrite db_call_healthy by done.
    split; [done|]. split.
    + intros k j Hk. pose proof (largest_key_bound _ _ _ Hk). unfold next_id. lia.
    + unfold next_id. lia.
Qed.

(** X17. The atomic batch of a job is one insert per record of the
    analysis: the highlights first, then the thumbnails, then the
    captions, each group in the order of the analysis.  The insert of the
    [k]-th highlight carries the job id, the highlight's title, the path
    of clip [k] relative to the uploads directory, and its duration,
    start, end and confidence; that of the [k]-th thumbnail the job id,
    the path of thumbnail [k], its timestamp and the size 1920 x 1080;
    that of a caption the job id, its platform, its content and its
    hashtags joined by commas.  None of them is a SELECT, so each is run
    with [db.run]. *)
Theorem transactionOperations_shape (resultId : Z) (analysisResult : VideoAnalysisResult) :
  let ops := transactionOperations resultId analysisResult in
  let hs := highlights analysisResult in
  let ts := thumbnails_of analysisResult in
  let cs := captions_of analysisResult in
  length ops = (length hs + length ts + length cs)%nat
  /\ (forall k h, hs !! k = Some h ->
      ops !! k =
        Some (mkTransactionOperation INSERT_highlight_clip
                (Some [VInt resultId; VText (hs_title h);
                       VText (fileManager.getRelativePath
                                (getClipPath resultId k (hs_title h)));
                       VReal (hs_duration h); VReal (hs_startTime h);
                       VReal (hs_endTime h); VReal (hs_confidence h)])))
  /\ (forall k t, ts !! k = Some t ->
      ops !! (length hs + k)%nat =
        Some (mkTransactionOperation INSERT_thumbnail
                (Some [VInt resultId;
                       VText (fileManager.getRelativePath
                                (getThumbnailPath resultId k (tc_timestamp t)));
                       VReal (tc_timestamp t); VInt 1920; VInt 1080])))
  /\ (forall k c, cs !! k = Some c ->
      ops !! (length hs + length ts + k)%nat =
        Some (mkTransactionOperation INSERT_caption
                (Some [VInt resultId; VText (cv_platform c); VText (cv_content c);
                       VText (join_commas (cv_hashtags c))])))
  /\ Forall (fun op => is_select (query op) = false) ops.
Proof.
  intros ops hs ts cs. subst ops hs ts cs. unfold transactionOperations.
  split; [|split; [|split; [|split]]].
  - rewrite !length_app, !length_imap, length_fmap. lia.
  - intros k h Hk.
    rewrite lookup_app_l by (rewrite length_imap; by eapply lookup_lt_Some).
    by rewrite list_lookup_imap, Hk.
  - intros k t Hk.
    rewrite lookup_app_r by (rewrite length_imap; lia).
    rewrite length_imap.
    replace (length (highlights analysisResult) + k
             - length (highlights analysisResult))%nat with k by lia.
    rewrite lookup_app_l by (rewrite length_imap; by eapply lookup_lt_Some).
    by rewrite list_lookup_imap, Hk.
  - intros k c Hk.
    rewrite lookup_app_r by (rewrite length_imap; lia).
    rewrite length_imap.
    rewrite lookup_app_r by (rewrite length_imap; lia).
    rewrite length_imap.
    replace (length (highlights analysisResult) + length (thumbnails_of analysisResult)
             + k - length (highlights analysisResult)
             - length (thumbnails_of analysisResult))%nat with k by lia.
    by rewrite list_lookup_fmap, Hk.
  - rewrite !Forall_app. repeat split.
    + apply Forall_forall. intros op Hop.
      apply elem_of_lookup_imap in Hop as (i & h & -> & _). by vm_compute.
    + apply Forall_forall. intros op Hop.
      apply elem_of_lookup_imap in Hop as (i & h & -> & _). by vm_compute.
    + apply Forall_fmap, Forall_forall. intros c _. by vm_compute.
Qed.

End RoutesMore.

(* ===================================================================== *)
(** * The file manager: what cleanup removes *)
(* ===================================================================== *)

Section Cleanup.
Context `{Host}.
Import fileManager.

#[local] Arguments pretty : simpl never.

Lemma deleteFile_outcome (filePath : string) (w : World) :
  exists b w',
    deleteFile filePath w = (Normal b, w')
    /\ db w' = db w /\ txn w' = txn w
    /\ (if b : bool
        then resolved filePath ∈ files w
             /\ files w' = files w ∖ {[ resolved filePath ]}
        else files w' = files w)
    /\ (healthy w ->
        healthy w' /\ b = bool_decide (resolved filePath ∈ files w)).
Proof.
  unfold deleteFile, try_catch, bind, existsSync. fold (resolved filePath).
  destruct (bool_decide (resolved filePath ∈ files w)) eqn:Hp.
  - apply bool_decide_eq_true in Hp.
    unfold unlinkSync, answered, healthy.
    destruct (faults w) as [|[e|] fs] eqn:Hf; simpl.
    + exists true. eexists. split; [reflexivity|]. simpl. by rewrite Hf.
    + exists false. eexists. split; [reflexivity|]. simpl. by repeat split.
    + exists true. eexists. split; [reflexivity|]. simpl. by repeat split.
  - exists false, w. by repeat split.
Qed.

(** X18. [deleteFile] never throws and touches nothing but the one
    file.  It answers [true] only when the file (a relative path being
    taken from the uploads directory) was there and is now gone, every
    other file being kept; when it answers [false] no file has changed;
    the tables are never touched.  When the file system does not refuse,
    the answer says whether the file was there. *)
Theorem deleteFile_contract (filePath : string) (w : World) :
  exists b w',
    deleteFile filePath w = (Normal b, w')
    /\ db w' = db w /\ txn w' = txn w
    /\ (if b : bool
        then resolved filePath ∈ files w
             /\ files w' = files w ∖ {[ resolved filePath ]}
        else files w' = files w)
    /\ (healthy w ->
        healthy w' /\ b = bool_decide (resolved filePath ∈ files w)).
Proof. apply deleteFile_outcome. Qed.

Lemma deleteFile_healthy filePath w :
  healthy w ->
  exists b w',
    deleteFile filePath w = (Normal b, w')
    /\ db w' = db w /\ txn w' = txn w /\ healthy w'
    /\ forall p, p ∈ files w' <-> p ∈ files w /\ p <> resolved filePath.
Proof.
  intros Hw.
  destruct (deleteFile_outcome filePath w) as (b & w' & Hd & Hdb & Ht & Hf & Hh).
  destruct (Hh Hw) as [Hw' Hb].
  exists b, w'. split; [done|]. split; [done|]. split; [done|]. split; [done|].
  intros p. destruct b.
  - destruct Hf as [_ ->]. by rewrite elem_of_difference, elem_of_singleton.
  - rewrite Hf. symmetry in Hb. apply bool_decide_eq_false in Hb.
    split; [|by intros [? _]]. intros Hp. split; [done|]. by intros ->.
Qed.

Lemma delete_each_healthy paths w :
  healthy w ->
  exists w',
    delete_each paths w = (Normal tt, w')
    /\ db w' = db w /\ txn w' = txn w /\ healthy w'
    /\ forall p, p ∈ files w' <-> p ∈ files w /\ ~ listed paths p.
Proof.
  revert w. induction paths as [|f paths IH]; intros w Hw.
  - exists w. split; [done|]. split; [done|]. split; [done|]. split; [done|].
    intros p. split.
    + intros Hp. split; [done|]. intros (f & Hf & _). by apply elem_of_nil in Hf.
    + by intros [Hp _].
  - cbn [delete_each].
    destruct (String.eqb_spec f "") as [->|Hne].
    + destruct (IH w Hw) as (w' & Hd & Hdb & Ht & Hw' & Hf).
      exists w'. erewrite bind_normal; [|reflexivity].
      split; [done|]. split; [done|]. split; [done|]. split; [done|].
      intros p. rewrite Hf. split.
      * intros [Hp Hn]. split; [done|]. intros (g & Hg & Hgne & Hpg).
        apply Hn. exists g. apply elem_of_cons in Hg as [->|Hg]; done.
      * intros [Hp Hn]. split; [done|]. intros (g & Hg & Hgne & Hpg).
        apply Hn. exists g. split; [apply elem_of_cons; by right|done].
    + destruct (deleteFile_healthy f w Hw) as (b & w1 & Hd1 & Hdb1 & Ht1 & Hw1 & Hf1).
      destruct (IH w1 Hw1) as (w' & Hd & Hdb & Ht & Hw' & Hf).
      exists w'.
      erewrite bind_normal;
        [|erewrite bind_normal; [|exact Hd1]; reflexivity].
      split; [done|]. split; [congruence|]. split; [congruence|]. split; [done|].
      intros p. rewrite Hf, Hf1. split.
      * intros [[Hp Hnf] Hn]. split; [done|]. intros (g & Hg & Hgne & Hpg).
        apply elem_of_cons in Hg as [->|Hg]; [done|]. apply Hn. by exists g.
      * intros [Hp Hn]. split; [split; [done|]|].
        -- intros ->. apply Hn. exists f. split; [apply elem_of_cons; by left|done].
        -- intros (g & Hg & Hgne & Hpg). apply Hn. exists g.
           split; [apply elem_of_cons; by right|done].
Qed.

Lemma cleanupProcessingFiles_healthy resultId w :
  healthy w ->
  exists w',
    cleanupProcessingFiles resultId w = (Normal tt, w')
    /\ db w' = db w /\ txn w' = txn w /\ healthy w'
    /\ forall p,
         p ∈ files w' <->
         p ∈ files w /\ ~ listed (job_file_paths resultId (db w)) p.
Proof.
  intros Hw. unfold cleanupProcessingFiles, try_catch, cleanup_attempt,
    getProcessingFiles_clips, getProcessingFiles_thumbnails.
  erewrite bind_normal; [|by apply db_read_healthy].
  erewrite bind_normal; [|by apply db_read_healthy].
  set (clips := hc_file_path <$> _). set (thumbs := th_file_path <$> _).
  destruct (delete_each_healthy clips w Hw) as (w1 & Hd1 & Hdb1 & Ht1 & Hw1 & Hf1).
  destruct (delete_each_healthy thumbs w1 Hw1) as (w2 & Hd2 & Hdb2 & Ht2 & Hw2 & Hf2).
  erewrite bind_normal; [|exact Hd1].
  erewrite bind_normal; [|exact Hd2].
  eexists. split; [reflexivity|]. simpl.
  split; [congruence|]. split; [congruence|]. split; [done|].
  intros p. rewrite Hf2, Hf1. unfold job_file_paths. fold clips thumbs.
  unfold listed. split.
  - intros [[Hp Hn1] Hn2]. split; [done|].
    intros (f & Hf & Hne & Hpf). apply elem_of_app in Hf as [Hf|Hf].
    + apply Hn1. by exists f.
    + apply Hn2. by exists f.
  - intros [Hp Hn]. repeat split; [done| |].
    + intros (f & Hf & Hne & Hpf). apply Hn. exists f.
      split; [apply elem_of_app; by left|done].
    + intros (f & Hf & Hne & Hpf). apply Hn. exists f.
      split; [apply elem_of_app; by right|done].
Qed.

(** X19. What [cleanupProcessingFiles] removes.  When the store and the
    file system answer, it returns having removed exactly the files
    listed for the job -- the stored paths of its clips and of its
    thumbnails, an empty path apart, a relative one being taken from the
    uploads directory -- and no other file; the tables are as they
    were. *)
Theorem cleanupProcessingFiles_removes (resultId : Z) (w : World) :
  healthy w ->
  exists w',
    cleanupProcessingFiles resultId w = (Normal tt, w')
    /\ db w' = db w
    /\ forall p,
         p ∈ files w' <->
         p ∈ files w /\ ~ listed (job_file_paths resultId (db w)) p.
Proof.
  intros Hw.
  destruct (cleanupProcessingFiles_healthy resultId w Hw)
    as (w' & Hc & Hdb & _ & _ & Hf).
  by exists w'.
Qed.

Lemma cleanupFrames_healthy videoId w :
  healthy w ->
  exists w',
    cleanupFrames videoId w = (Normal tt, w')
    /\ db w' = db w /\ txn w' = txn w /\ healthy w'.
Proof.
  intros Hw. unfold cleanupFrames, try_catch, bind, existsSync.
  destruct (bool_decide _); [|by exists w].
  unfold rmSync_recursive, answered. rewrite Hw. simpl.
  eexists. split; [reflexivity|]. by repeat split.
Qed.

Lemma cleanup_step_healthy videoId resultId w :
  healthy w ->
  exists w',
    cleanup_step videoId resultId w = (Normal tt, w')
    /\ db w' = db w /\ txn w' = txn w /\ healthy w'.
Proof.
  intros Hw. unfold cleanup_step, try_catch.
  destruct (cleanupProcessingFiles_healthy resultId w Hw)
    as (w1 & Hc1 & Hdb1 & Ht1 & Hw1 & _).
  destruct (cleanupFrames_healthy videoId w1 Hw1) as (w2 & Hc2 & Hdb2 & Ht2 & Hw2).
  exists w2. erewrite bind_normal; [|exact Hc1]. rewrite Hc2.
  repeat split; congruence.
Qed.

End Cleanup.

(* ===================================================================== *)
(** * A job from its start to its end, without an analysis key *)
(* ===================================================================== *)

Section EndToEnd.
Context `{Host}.
Import CreditService DatabaseTransaction video_routes.

#[local] Arguments checkCredits : simpl never.
#[local] Arguments deductCredits : simpl never.
#[local] Arguments refundCredits : simpl never.
#[local] Arguments withTransaction : simpl never.
#[local] Arguments transactionOperations : simpl never.
#[local] Arguments pretty : simpl never.
#[local] Arguments String.append : simpl never.

Lemma deductCredits_charges_exact uid r w :
  healthy w -> uid <> 0 -> users (db w) !! uid = Some r ->
  flagged r = false -> 0 < u_credits r ->
  deductCredits uid None w =
    (Normal tt,
     set_console
       (console w ++ [mkLogEntry LLog ("Credit deducted for user " +:+ pretty uid) None])
       (set_db (set_users (<[uid := charged r]>) (db w)) w)).
Proof.
  intros Hw Hu Hr Hfl Hpos. unfold deductCredits, bind.
  rewrite (checkCredits_row uid r w Hw Hu Hr), Hfl. simpl.
  unfold balance_verdict, user_of_row. simpl.
  change (u_is_subscribed r =? 1) with (flagged r). rewrite Hfl. simpl.
  destruct (Z.leb_spec (u_credits r) 0) as [?|_]; [lia|]. simpl.
  rewrite db_call_healthy by done.
  rewrite (update_deduct_row uid r) by done.
  apply Z.ltb_lt in Hpos. by rewrite Hpos.
Qed.

Lemma refundCredits_exact uid r w :
  healthy w -> uid <> 0 -> users (db w) !! uid = Some r -> flagged r = false ->
  exists w',
    refundCredits uid w = (Normal tt, w')
    /\ healthy w' /\ txn w' = txn w /\ files w' = files w
    /\ db w' = set_users (<[uid := refunded r]>) (db w).
Proof.
  intros Hw Hu Hr Hfl.
  unfold refundCredits, try_catch, refund_attempt, getUserCredits, bind.
  rewrite (checkCredits_row uid r w Hw Hu Hr), Hfl. simpl.
  rewrite balance_verdict_user. simpl.
  change (u_is_subscribed r =? 1) with (flagged r). rewrite Hfl.
  rewrite db_call_healthy by done.
  rewrite (update_add_row uid 1 r) by done. simpl.
  eexists. split; [reflexivity|]. by repeat split.
Qed.

Lemma performProcessing_offline video videoId resultId w :
  hasOpenAI = false -> healthy w ->
  exists wa,
    db wa = db w /\ txn wa = txn w /\ healthy wa /\ files wa = files w
    /\ forall c wb,
         withTransaction (transactionOperations resultId mock_analysis) wa = (c, wb) ->
         healthy wb ->
         match c with
         | Normal _ =>
             exists wc,
               performProcessing video videoId resultId w = (Normal resultId, wc)
               /\ db wc = mark_completed resultId (db wb)
               /\ healthy wc /\ txn wc = txn wb /\ files wc = files wb
         | Throw e =>
             exists wc,
               performProcessing video videoId resultId w = (Throw e, wc)
               /\ db wc = db wb /\ healthy wc /\ txn wc = txn wb
               /\ files wc = files wb
         | Exit => True
         end.
Proof.
  intros Hoff Hw. unfold performProcessing, analyse. rewrite Hoff.
  destruct (String.eqb (v_file_path video) "") eqn:Hp;
    unfold bind, console_log, console_error, throw, ret, try_catch,
      fileManager.existsSync; simpl;
    match goal with |- context [withTransaction ?o ?wa] => exists wa end;
    (split; [done|]); (split; [done|]); (split; [done|]); (split; [done|]);
    intros c wb Hb Hwb; rewrite Hb; destruct c as [rs|e|]; try exact I;
    try (eexists; split; [reflexivity|]; by repeat split).
  all: rewrite db_call_healthy by done.
  all: eexists; split; [reflexivity|]; by repeat split.
Qed.
Lemma mark_completed_job resultId t j :
  processing_results t !! resultId = Some j ->
  processing_results (mark_completed resultId t) !! resultId =
    Some (mkJobRow (pr_video_id j) (pr_user_id j) "completed" 100 (pr_error_message j)).
Proof. intros Hj. unfold mark_completed. simpl. by rewrite Hj, lookup_insert_eq. Qed.

Lemma transactionOperations_queries resultId analysisResult :
  Forall (fun op =>
            query op ∈ [INSERT_highlight_clip; INSERT_thumbnail; INSERT_caption])
         (transactionOperations resultId analysisResult).
Proof.
  unfold transactionOperations. rewrite !Forall_app. repeat split.
  - apply Forall_forall. intros op Hop.
    apply elem_of_lookup_imap in Hop as (i & h & -> & _).
    apply elem_of_cons. by left.
  - apply Forall_forall. intros op Hop.
    apply elem_of_lookup_imap in Hop as (i & h & -> & _).
    apply elem_of_cons. right. apply elem_of_cons. by left.
  - apply Forall_fmap, Forall_forall. intros c _.
    apply elem_of_cons. right. apply elem_of_cons. right. apply elem_of_cons. by left.
Qed.

Lemma executeOperation_keeps_ledger operation w :
  engine_keeps_ledger ->
  query operation ∈ [INSERT_highlight_clip; INSERT_thumbnail; INSERT_caption] ->
  users (db (snd (executeOperation operation w))) = users (db w)
  /\ processing_results (db (snd (executeOperation operation w))) =
       processing_results (db w)
  /\ seq_processing_results (db (snd (executeOperation operation w))) =
       seq_processing_results (db w).
Proof.
  intros He Hq.
  assert (Hs : is_select (query operation) = false).
  { repeat (apply elem_of_cons in Hq as [->|Hq]; [by vm_compute|]).
    by apply elem_of_nil in Hq. }
  unfold executeOperation. rewrite Hs.
  destruct (db_call_cases (sql_run (query operation) (default [] (params operation))) w)
    as [(e & w1 & Hc & Hd & _)|(info & t & w1 & Hst & Hc & Hd & _)].
  - erewrite bind_throw; [|exact Hc]. simpl. by rewrite Hd.
  - erewrite bind_normal; [|exact Hc]. simpl. rewrite Hd. by eapply He.
Qed.

Lemma run_operations_keeps_ledger ops w :
  engine_keeps_ledger ->
  Forall (fun op =>
            query op ∈ [INSERT_highlight_clip; INSERT_thumbnail; INSERT_caption]) ops ->
  users (db (snd (run_operations ops w))) = users (db w)
  /\ processing_results (db (snd (run_operations ops w))) = processing_results (db w)
  /\ seq_processing_results (db (snd (run_operations ops w))) =
       seq_processing_results (db w).
Proof.
  intros He Hops. revert w. induction Hops as [|operation rest Hq Hrest IH]; intros w.
  - done.
  - simpl.
    pose proof (executeOperation_keeps_ledger operation w He Hq) as (H1 & H2 & H3).
    destruct (executeOperation operation w) as [c w1].
    pose proof (IH w1) as (I1 & I2 & I3).
    destruct (run_operations rest w1) as [cs w2]. simpl in *.
    repeat split; congruence.
Qed.

Lemma on_processing_failure_healthy videoId resultId e w :
  healthy w ->
  exists w',
    on_processing_failure videoId resultId e w = (Normal tt, w')
    /\ db w' = mark_failed resultId (message e) (db w).
Proof.
  intros Hw. unfold on_processing_failure.
  erewrite bind_normal; [|reflexivity].
  fold (cleanup_step videoId resultId).
  match goal with |- context [bind (cleanup_step videoId resultId) _ ?w4] =>
    destruct (cleanup_step_healthy videoId resultId w4) as (w5 & Hcl & Hdb5 & Ht5 & Hw5);
      [done|]
  end.
  erewrite bind_normal; [|exact Hcl].
  rewrite db_call_healthy by done.
  eexists. split; [reflexivity|]. simpl. by rewrite Hdb5.
Qed.

(** The detached task of a paying user, from its start to its end. *)
Lemma background_task_outcome (u : AuthUser) (video : VideoRow)
    (videoId resultId : Z) (r : UserRow) (j : JobRow) (w : World) :
  hasOpenAI = false -> engine_keeps_ledger ->
  healthy w -> txn w = None -> au_id u <> 0 ->
  users (db w) !! au_id u = Some r -> non_subscriber r = true -> 0 < u_credits r ->
  processing_results (db w) !! resultId = Some j ->
  exists w',
    background_task (Some u) video videoId resultId w = (Normal tt, w')
    /\ ((job_of w' resultId =
           Some (mkJobRow (pr_video_id j) (pr_user_id j) "completed" 100
                   (pr_error_message j))
         /\ credits_of w' (au_id u) = Some (u_credits r - 1))
        \/ (exists cause,
              job_of w' resultId =
                Some (mkJobRow (pr_video_id j) (pr_user_id j) "failed" (pr_progress j)
                        (Some ("Transaction failed: " +:+ cause)))
              /\ credits_of w' (au_id u) = Some (u_credits r)
              /\ highlight_clips (db w') = highlight_clips (db w)
              /\ thumbnails (db w') = thumbnails (db w)
              /\ captions (db w') = captions (db w))).
Proof.
  intros Hoff Heng Hw Hidle Hu Hr Hns Hpos Hj.
  set (uid := au_id u) in *.
  assert (Hfl : flagged r = false) by by apply negb_true_iff.
  pose proof (deductCredits_charges_exact uid r w Hw Hu Hr Hfl Hpos) as Hded.
  set (w1 := set_console _ _) in Hded.
  assert (Hw1 : healthy w1) by done.
  destruct (performProcessing_offline video videoId resultId w1 Hoff Hw1)
    as (wa & Hdba & Hta & Hwa & Hfa & Hrun).
  set (ops := transactionOperations resultId mock_analysis) in *.
  assert (Hidle_a : txn wa = None) by by rewrite Hta.
  destruct (run_batch_healthy ops wa Hwa Hidle_a) as (Hbatch & Hwo & _).
  rewrite <- withTransaction_runs_batch in Hbatch.
  pose proof (run_operations_keeps_ledger ops (set_txn (Some (db wa)) wa) Heng
                (transactionOperations_queries resultId mock_analysis))
    as (Ku & Kj & Ks).
  set (wo := snd (run_operations ops (set_txn (Some (db wa)) wa))) in *.
  assert (Htask : forall c,
            executeWithRollback uid (performProcessing video videoId resultId) w = c ->
            background_task (Some u) video videoId resultId w =
              match c with
              | (Normal _, w2) => (Normal tt, w2)
              | (Throw e, w2) => on_processing_failure videoId resultId e w2
              | (Exit, w2) => (Exit, w2)
              end).
  { intros c <-. unfold background_task, try_catch, processing_attempt. simpl.
    fold uid. destruct (Z.eqb_spec uid 0) as [?|_]; [done|]. simpl. unfold bind.
    by destruct (executeWithRollback _ _ _) as [[x|e|] w2]. }
  destruct (first_rejection _) as [cause|].
  - (* the batch is rejected *)
    destruct (Hrun _ _ Hbatch Hwo) as (wc & Hperf & Hdbc & Hwc & Htc & Hfc).
    simpl in Hdbc.
    pose proof (executeWithRollback_operation_throws uid _ w w1 _ wc Hded Hperf) as Hex.
    assert (Hrc : users (db (rollback_announced uid wc)) !! uid = Some (charged r)).
    { simpl. rewrite Hdbc, Hdba. simpl. by rewrite lookup_insert_eq. }
    destruct (refundCredits_exact uid (charged r) (rollback_announced uid wc))
      as (w3 & Href & Hw3 & Ht3 & Hf3 & Hdb3); try done.
    rewrite Href in Hex. simpl in Hex.
    rewrite (Htask _ Hex).
    destruct (on_processing_failure_healthy videoId resultId
                (new_Error ("Transaction failed: " +:+ message cause)) w3 Hw3)
      as (w' & Hfail & Hdb').
    assert (Hdbw : db w' =
              mark_failed resultId ("Transaction failed: " +:+ message cause)
                (set_users (<[uid := refunded (charged r)]>)
                   (set_users (<[uid := charged r]>) (db w)))).
    { rewrite Hdb', Hdb3. unfold rollback_announced. simpl.
      by rewrite Hdbc, Hdba. }
    exists w'. split; [done|]. right.
    exists (message cause). unfold job_of, credits_of. rewrite Hdbw.
    split; [by apply mark_failed_job|]. simpl. rewrite lookup_insert_eq. simpl.
    split; [f_equal; lia|done].
  - (* the batch is committed *)
    destruct (Hrun _ _ Hbatch Hwo) as (wc & Hperf & Hdbc & Hwc & Htc & Hfc).
    simpl in Hdbc.
    pose proof (executeWithRollback_operation_returns uid _ w w1 _ wc Hded Hperf) as Hex.
    rewrite (Htask _ Hex).
    exists wc. split; [done|]. left. unfold job_of, credits_of.
    rewrite Hdbc. split.
    + apply mark_completed_job. rewrite Kj. simpl. by rewrite Hdba.
    + simpl. rewrite Ku. simpl. rewrite Hdba. simpl.
      by rewrite lookup_insert_eq.
Qed.




(** X22. A processing request of a paying user, from the request to
    the end of its detached task, without an analysis key.  The user is
    signed in, is not a subscriber and holds at least one credit; the
    video exists; the store answers, no transaction is open, and the
    engine runs the three inserts of the batch without touching the users
    or the jobs.  The request is answered with the id of a new job, owned
    by the user, in status 'processing' at progress 0, and takes no
    credit; the detached task it hands over then returns, leaving the job
    'completed' with one credit taken, or 'failed' with the balance as it
    was before the request. *)
Theorem process_request_lifecycle (req : Request) (u : AuthUser) (videoId : Z)
    (video : VideoRow) (r : UserRow) (w : World) :
  hasOpenAI = false -> engine_keeps_ledger ->
  healthy w -> txn w = None ->
  req_user req = Some u -> au_id u <> 0 ->
  parseInt (params_id req) = Some videoId ->
  videos (db w) !! videoId = Some video ->
  users (db w) !! au_id u = Some r -> non_subscriber r = true -> 0 < u_credits r ->
  exists resp task w1,
    post_process req w = (Normal (resp, task), w1)
    /\ processing_results (db w) !! processingId resp = None
    /\ job_of w1 (processingId resp) =
         Some (mkJobRow videoId (Some (au_id u)) "processing" 0 None)
    /\ credits_of w1 (au_id u) = Some (u_credits r)
    /\ exists w2,
         task w1 = (Normal tt, w2)
         /\ ((job_of w2 (processingId resp) =
                Some (mkJobRow videoId (Some (au_id u)) "completed" 100 None)
              /\ credits_of w2 (au_id u) = Some (u_credits r - 1))
             \/ (exists cause,
                   job_of w2 (processingId resp) =
                     Some (mkJobRow videoId (Some (au_id u)) "failed" 0
                             (Some ("Transaction failed: " +:+ cause)))
                   /\ credits_of w2 (au_id u) = Some (u_credits r))).
Proof.
  intros Hoff Heng Hw Hidle Hreq Hu Hid Hv Hr Hns Hpos.
  assert (Hfl : flagged r = false) by by apply negb_true_iff.
  set (newId := next_id (seq_processing_results (db w)) (processing_results (db w))).
  set (job := mkJobRow videoId (Some (au_id u)) "processing" 0 None).
  set (w1 := set_db (set_processing_results (<[newId := job]>) newId (db w)) w).
  assert (Hpost : post_process req w =
            (Normal (mkProcessingStartResponse "Processing started" newId,
                     background_task (Some u) video videoId newId), w1)).
  { unfold post_process. rewrite Hid, Hreq.
    erewrite bind_normal;
      [|erewrite bind_normal;
          [|rewrite (checkCredits_row (au_id u) r w Hw Hu Hr), Hfl; reflexivity];
        unfold balance_verdict, user_of_row; simpl;
        change (u_is_subscribed r =? 1) with (flagged r); rewrite Hfl; simpl;
        destruct (Z.leb_spec (u_credits r) 0); [lia|reflexivity]].
    erewrite bind_normal; [|by apply db_read_healthy].
    rewrite Hv. unfold bind. rewrite db_call_healthy by done.
    unfold insert_processing_result. fold newId.
    destruct (Z.eqb_spec (au_id u) 0) as [?|_]; [done|]. done. }
  assert (Hjob : processing_results (db w1) !! newId = Some job).
  { simpl. apply lookup_insert_eq. }
  destruct (background_task_outcome u video videoId newId r job w1)
    as (w2 & Htask & Hout); try done.
  eexists _, _, w1. split; [exact Hpost|]. simpl.
  split; [apply next_id_fresh|]. split; [done|]. split.
  { unfold credits_of. simpl. by rewrite Hr. }
  exists w2. split; [done|]. simpl in Hout.
  destruct Hout as [[Hc Hcr]|(cause & Hf & Hcr & _)].
  - left. done.
  - right. by exists cause.
Qed.

End EndToEnd.

(* ===================================================================== *)
(** * File names: [FileManager.sanitizeFilename] *)
(* ===================================================================== *)

Section FileNames.
Import FileManager.

(** Arithmetic on the classes of code units. *)
Ltac unit_classes :=
  unfold is_safe_unit, is_name_unit, is_kept, is_ascii_alnum, is_white_space,
    is_hangul_syllable, is_underscore, underscore in *.

Ltac unit_props H :=
  rewrite ?orb_true_iff, ?andb_true_iff, ?Z.leb_le, ?Z.eqb_eq in H.

Ltac unit_false :=
  match goal with
  | |- ?b = false =>
      let E := fresh "E" in
      destruct b eqn:E; [exfalso; unit_props E; lia | reflexivity]
  end.

Lemma safe_not_hangul c : is_safe_unit c = true -> is_hangul_syllable c = false.
Proof. unit_classes. intros H. unit_props H. unit_false. Qed.

Lemma safe_not_space c : is_safe_unit c = true -> is_white_space c = false.
Proof. unit_classes. intros H. unit_props H. unit_false. Qed.

Lemma safe_replaced c :
  is_safe_unit c = true -> (if is_kept c then c else underscore) = c.
Proof.
  intros H. destruct (is_kept c) eqn:Hk; [done|].
  unit_classes. unit_props H.
  apply not_true_iff_false in Hk. symmetry.
  destruct H as [H|H]; [|done]. exfalso. apply Hk.
  rewrite ?orb_true_iff, ?andb_true_iff, ?Z.leb_le, ?Z.eqb_eq. lia.
Qed.

Lemma safe_lower c : is_safe_unit c = true -> lower_unit c = c.
Proof.
  intros H. unfold lower_unit. destruct (_ && _) eqn:E; [|done].
  exfalso. unit_classes. unit_props H. unit_props E. lia.
Qed.

Lemma name_unit_lower_safe c :
  is_name_unit c = true -> is_safe_unit (lower_unit c) = true.
Proof.
  intros H. unfold lower_unit. destruct (_ && _) eqn:E.
  - unit_classes. unit_props E.
    rewrite ?orb_true_iff, ?andb_true_iff, ?Z.leb_le, ?Z.eqb_eq. lia.
  - apply not_true_iff_false in E. unit_classes. unit_props H.
    rewrite ?orb_true_iff, ?andb_true_iff, ?Z.leb_le, ?Z.eqb_eq.
    rewrite andb_true_iff, !Z.leb_le in E. lia.
Qed.

Lemma lower_unit_underscore c : lower_unit c = underscore -> c = underscore.
Proof.
  unfold lower_unit, underscore. destruct (_ && _) eqn:E; [|done].
  unit_props E. lia.
Qed.

Lemma collapse_runs_Forall (P : Z -> Prop) class b s :
  P underscore -> Forall (fun c => class c = false -> P c) s ->
  Forall P (collapse_runs class b s).
Proof.
  intros Hu Hs. revert b. induction Hs as [|c s Hc Hs IH]; intros b; simpl.
  - constructor.
  - destruct (class c) eqn:E.
    + destruct b; simpl; [apply IH|constructor; [done|apply IH]].
    + constructor; [by apply Hc|apply IH].
Qed.

Lemma collapse_runs_none class b s :
  Forall (fun c => class c = false) s -> collapse_runs class b s = s.
Proof.
  intros Hs. revert b. induction Hs as [|c s Hc Hs IH]; intros b; simpl; [done|].
  rewrite Hc. by rewrite IH.
Qed.

Lemma collapse_underscores_shape b s :
  no_double_underscore (collapse_runs is_underscore b s)
  /\ (b = true -> head (collapse_runs is_underscore b s) <> Some underscore).
Proof.
  revert b. induction s as [|c s IH]; intros b; simpl; [done|].
  destruct (is_underscore c) eqn:E.
  - destruct (IH true) as [Hn Hh]. destruct b; simpl.
    + split; [done|]. intros _. by apply Hh.
    + split; [|done]. split; [|done]. intros _. by apply Hh.
  - destruct (IH false) as [Hn _]. simpl. split.
    + split; [|done]. intros ->. done.
    + intros _ [= ->]. done.
Qed.

Lemma collapse_underscores_clean b s :
  no_double_underscore s -> (b = true -> head s <> Some underscore) ->
  collapse_runs is_underscore b s = s.
Proof.
  revert b. induction s as [|c s IH]; intros b Hn Hh; simpl; [done|].
  destruct Hn as [Hc Hn]. destruct (is_underscore c) eqn:E.
  - apply Z.eqb_eq in E as ->. destruct b.
    + exfalso. by apply Hh.
    + simpl. f_equal. apply IH; [done|]. intros _. by apply Hc.
  - f_equal. apply IH; [done|done].
Qed.

Lemma no_double_take n s :
  no_double_underscore s -> no_double_underscore (take n s).
Proof.
  revert n. induction s as [|c s IH]; intros [|n] Hs; simpl; try done.
  destruct Hs as [Hc Hs]. split; [|by apply IH].
  intros E. specialize (Hc E). destruct s, n; simpl in *; done.
Qed.

Lemma no_double_drop_leading class s :
  no_double_underscore s -> no_double_underscore (drop_leading class s).
Proof.
  induction s as [|c s IH]; intros Hs; simpl; [done|].
  destruct (class c); [apply IH, Hs|done].
Qed.

Lemma drop_leading_Forall (P : Z -> Prop) class s :
  Forall P s -> Forall P (drop_leading class s).
Proof.
  induction 1 as [|c s Hc Hs IH]; simpl; [constructor|].
  destruct (class c); [done|by constructor].
Qed.

Lemma drop_leading_head class s c :
  head (drop_leading class s) = Some c -> class c = false.
Proof.
  induction s as [|a s IH]; simpl; [done|].
  destruct (class a) eqn:E; [done|]. by intros [= <-].
Qed.

Lemma drop_leading_clean class s :
  (forall c, head s = Some c -> class c = false) -> drop_leading class s = s.
Proof. destruct s as [|c s]; simpl; [done|]. intros Hh. by rewrite Hh. Qed.

Lemma drop_leading_all class s :
  Forall (fun c => class c = true) s -> drop_leading class s = [].
Proof. induction 1 as [|c s Hc Hs IH]; simpl; [done|]. by rewrite Hc. Qed.

Lemma drop_trailing_nil class : drop_trailing class [] = [].
Proof. done. Qed.

Lemma drop_trailing_snoc class s c :
  drop_trailing class (s ++ [c])%list =
    if class c then drop_trailing class s else (s ++ [c])%list.
Proof.
  unfold drop_trailing. rewrite reverse_snoc. simpl.
  destruct (class c); [done|].
  by rewrite reverse_cons, reverse_involutive.
Qed.

Lemma drop_trailing_prefix class s : drop_trailing class s `prefix_of` s.
Proof.
  induction s as [|c s IH] using rev_ind; [done|].
  rewrite drop_trailing_snoc. destruct (class c); [|done].
  by apply prefix_app_r.
Qed.

Lemma drop_trailing_last class s c :
  last (drop_trailing class s) = Some c -> class c = false.
Proof.
  induction s as [|a s IH] using rev_ind; [done|].
  rewrite drop_trailing_snoc. destruct (class a) eqn:E; [done|].
  rewrite last_snoc. by intros [= <-].
Qed.

Lemma drop_trailing_clean class s :
  (forall c, last s = Some c -> class c = false) -> drop_trailing class s = s.
Proof.
  destruct s as [|c s _] using rev_ind; [done|].
  intros Hl. rewrite drop_trailing_snoc, Hl; [done|]. by rewrite last_snoc.
Qed.

Lemma no_double_prefix s1 s2 :
  s1 `prefix_of` s2 -> no_double_underscore s2 -> no_double_underscore s1.
Proof.
  intros [k ->]. induction s1 as [|c s1 IH]; simpl; [done|].
  intros [Hc Hs]. split; [|by apply IH].
  intros E. specialize (Hc E). by destruct s1.
Qed.

Lemma prefix_head (s1 s2 : JsString) c :
  s1 `prefix_of` s2 -> head s1 = Some c -> head s2 = Some c.
Proof. intros [k ->]. by destruct s1. Qed.

Lemma no_double_lower s :
  no_double_underscore s -> no_double_underscore (lower_unit <$> s).
Proof.
  induction s as [|c s IH]; simpl; [done|].
  intros [Hc Hs]. split; [|by apply IH].
  intros E. apply lower_unit_underscore in E. specialize (Hc E).
  destruct s as [|d s]; simpl in *; [done|].
  intros [= E']. apply lower_unit_underscore in E'. by subst.
Qed.

Lemma no_double_lookup s i :
  no_double_underscore s ->
  s !! i = Some underscore -> s !! S i <> Some underscore.
Proof.
  revert i. induction s as [|c s IH]; intros i Hs; [done|].
  destruct Hs as [Hc Hs]. destruct i as [|i]; simpl.
  - intros [= ->]. rewrite <- head_lookup. by apply Hc.
  - by apply IH.
Qed.

(** What the name is made of before the final [toLowerCase]. *)
Lemma sanitize_before_lowercase (filename : JsString) :
  let removed := filter (fun c => is_hangul_syllable c = false) filename in
  let replaced := (fun c => if is_kept c then c else underscore) <$> removed in
  let spaced := collapse_runs is_white_space false replaced in
  let squeezed := collapse_runs is_underscore false spaced in
  Forall (fun c => is_name_unit c = true \/ c = underscore) squeezed
  /\ no_double_underscore squeezed.
Proof.
  intros removed replaced spaced squeezed. split.
  - apply collapse_runs_Forall; [by right|].
    apply Forall_forall. intros c Hc _. revert c Hc. apply Forall_forall.
    apply collapse_runs_Forall; [by right|].
    apply Forall_fmap, Forall_forall. intros c _. simpl.
    destruct (is_kept c) eqn:Hk.
    + intros Hw. left. unfold is_kept in Hk. rewrite Hw in Hk.
      unfold is_name_unit. by rewrite orb_false_r in Hk.
    + intros _. by right.
  - apply collapse_underscores_shape.
Qed.

(** The shape of every sanitized name. *)
Lemma sanitize_shape (filename : JsString) (maxLength : Z) :
  let name := sanitizeFilename filename maxLength in
  Forall (fun c => is_safe_unit c = true) name
  /\ (length name <= Z.to_nat maxLength)%nat
  /\ head name <> Some underscore
  /\ last name <> Some underscore
  /\ (forall i, name !! i = Some underscore -> name !! S i <> Some underscore).
Proof.
  intros name. unfold name, sanitizeFilename.
  destruct (sanitize_before_lowercase filename) as [Hunits Hnd].
  set (squeezed := collapse_runs is_underscore false _) in *.
  set (limited := take (Z.to_nat maxLength) squeezed).
  set (trimmed := drop_trailing is_underscore (drop_leading is_underscore limited)).
  assert (Hpre : trimmed `prefix_of` drop_leading is_underscore limited)
    by apply drop_trailing_prefix.
  assert (Hlim : Forall (fun c => is_name_unit c = true \/ c = underscore)
                   (drop_leading is_underscore limited))
    by by apply drop_leading_Forall, Forall_take.
  assert (Hndl : no_double_underscore (drop_leading is_underscore limited))
    by by apply no_double_drop_leading, no_double_take.
  split; [|split; [|split; [|split]]].
  - apply Forall_fmap. destruct Hpre as [k Hk]. rewrite Hk in Hlim.
    apply Forall_app in Hlim as [Hlim _].
    eapply Forall_impl; [exact Hlim|]. intros c [Hc| ->]; simpl; [|done].
    by apply name_unit_lower_safe.
  - rewrite length_fmap.
    transitivity (length (drop_leading is_underscore limited)).
    { destruct Hpre as [k ->]. rewrite length_app. lia. }
    transitivity (length limited).
    { clear. induction limited as [|c l IH]; simpl; [done|].
      destruct (is_underscore c); simpl; lia. }
    unfold limited. rewrite length_take. lia.
  - intros Hhd.
    assert (Ht : head trimmed = Some underscore).
    { destruct trimmed as [|c t]; simpl in *; [done|].
      injection Hhd as E. apply lower_unit_underscore in E. by subst. }
    apply (prefix_head _ _ _ Hpre) in Ht. by apply drop_leading_head in Ht.
  - rewrite fmap_last. intros Hlast.
    assert (Ht : last trimmed = Some underscore).
    { destruct (last trimmed) as [c|]; simpl in *; [|done].
      injection Hlast as E. apply lower_unit_underscore in E. by subst. }
    by apply drop_trailing_last in Ht.
  - intros i. apply no_double_lookup, no_double_lower.
    by eapply no_double_prefix.
Qed.

(** X23. Whatever the title and the limit, the sanitized name is made
    of lower-case ASCII letters, digits, dots, hyphens and underscores
    only, is no longer than the limit, neither begins nor ends with an
    underscore, and never has two underscores in a row. *)
Theorem sanitizeFilename_is_safe (filename : JsString) (maxLength : Z) :
  let name := sanitizeFilename filename maxLength in
  Forall (fun c => is_safe_unit c = true) name
  /\ (length name <= Z.to_nat maxLength)%nat
  /\ head name <> Some underscore
  /\ last name <> Some underscore
  /\ (forall i, name !! i = Some underscore -> name !! S i <> Some underscore).
Proof. apply sanitize_shape. Qed.

Lemma filter_all {A} (P : A -> Prop) `{!forall x, Decision (P x)} (l : list A) :
  Forall P l -> filter P l = l.
Proof.
  induction 1 as [|x l Hx Hl IH]; [done|].
  rewrite filter_cons_True by done. by rewrite IH.
Qed.

(** A name that is already clean is left as it is. *)
Lemma sanitize_clean s n :
  Forall (fun c => is_safe_unit c = true) s ->
  no_double_underscore s ->
  head s <> Some underscore -> last s <> Some underscore ->
  (length s <= Z.to_nat n)%nat ->
  sanitizeFilename s n = s.
Proof.
  intros Hs Hnd Hh Hl Hlen. unfold sanitizeFilename. cbv zeta.
  rewrite (filter_all (fun c => is_hangul_syllable c = false))
    by (eapply Forall_impl; [exact Hs|]; apply safe_not_hangul).
  assert (E1 : (fun c => if is_kept c then c else underscore) <$> s = s).
  { rewrite <- (list_fmap_id s) at 2. apply Forall_fmap_ext.
    eapply Forall_impl; [exact Hs|]. apply safe_replaced. }
  rewrite E1.
  rewrite (collapse_runs_none is_white_space)
    by (eapply Forall_impl; [exact Hs|]; apply safe_not_space).
  rewrite collapse_underscores_clean by done.
  rewrite take_ge by done.
  rewrite drop_leading_clean.
  2:{ intros c Hc. unfold is_underscore. apply Z.eqb_neq. intros ->. done. }
  rewrite drop_trailing_clean.
  2:{ intros c Hc. unfold is_underscore. apply Z.eqb_neq. intros ->. done. }
  rewrite <- (list_fmap_id s) at 2. apply Forall_fmap_ext.
  eapply Forall_impl; [exact Hs|]. apply safe_lower.
Qed.

Lemma no_double_of_lookup s :
  (forall i, s !! i = Some underscore -> s !! S i <> Some underscore) ->
  no_double_underscore s.
Proof.
  induction s as [|c s IH]; intros Hs; simpl; [done|]. split.
  - intros ->. rewrite head_lookup. by apply (Hs 0%nat).
  - apply IH. intros i. apply (Hs (S i)).
Qed.

(** X24. Sanitizing is idempotent: a sanitized name, sanitized again
    with the same limit, is unchanged. *)
Theorem sanitizeFilename_idempotent (filename : JsString) (maxLength : Z) :
  sanitizeFilename (sanitizeFilename filename maxLength) maxLength =
    sanitizeFilename filename maxLength.
Proof.
  destruct (sanitize_shape filename maxLength)
    as (Hs & Hlen & Hh & Hl & Hnd).
  apply sanitize_clean; try done. by apply no_double_of_lookup.
Qed.

(** X25. A title without any ASCII letter, digit, dot or hyphen (one
    written in Hangul only, say, or made of punctuation and spaces)
    sanitizes to the empty name, whatever the limit. *)
Theorem sanitizeFilename_empty (filename : JsString) (maxLength : Z) :
  Forall (fun c => is_name_unit c = false) filename ->
  sanitizeFilename filename maxLength = [].
Proof.
  intros Hf. unfold sanitizeFilename. cbv zeta.
  set (removed := filter _ filename).
  assert (Hr : Forall (fun c => is_name_unit c = false) removed).
  { apply Forall_forall. intros c Hc. apply list_elem_of_filter in Hc as [_ Hc].
    revert c Hc. by apply Forall_forall. }
  set (replaced := _ <$> removed).
  assert (Hp : Forall (fun c => is_white_space c = false -> c = underscore) replaced).
  { apply Forall_fmap. eapply Forall_impl; [exact Hr|]. intros c Hc. simpl.
    destruct (is_kept c) eqn:Hk; [|done]. intros Hw.
    unfold is_kept in Hk. unfold is_name_unit in Hc.
    rewrite Hw, orb_false_r in Hk. congruence. }
  set (spaced := collapse_runs is_white_space false replaced).
  assert (Hsp : Forall (fun c => c = underscore) spaced)
    by by apply collapse_runs_Forall.
  set (squeezed := collapse_runs is_underscore false spaced).
  assert (Hsq : Forall (fun c => c = underscore) squeezed).
  { apply collapse_runs_Forall; [done|].
    eapply Forall_impl; [exact Hsp|]. by intros c ->. }
  rewrite drop_leading_all; [done|].
  apply Forall_take. eapply Forall_impl; [exact Hsq|]. by intros c ->.
Qed.

End FileNames.

(* ===================================================================== *)
(** * Concurrent calls of [deductCredits]: conservation on any balance *)
(* ===================================================================== *)

Section RaceMore.
Context `{Host}.
Import CreditService DeductionSteps.

#[local] Arguments pretty : simpl never.
#[local] Arguments String.append : simpl never.

Ltac red_fields :=
  cbn [isSubscribed subscriptionExpiresAt id credits canProceed user reason negb andb].

Ltac stepped Trow Teff :=
  split; [reflexivity|];
  split; [done|];
  split; [done|];
  split; [Trow|];
  split; [Teff|].

(** One step of one call, on a row whose subscription is not in effect:
    the step takes a credit exactly when the call succeeds by it. *)
Lemma step_conserves uid s w r' :
  uid <> 0 -> healthy w ->
  users (db w) !! uid = Some r' ->
  subscriber_in_effect r' (now w) = false ->
  0 <= u_credits r' ->
  exists s' w' r'',
    step uid s w = (s', w') /\ healthy w' /\ now w' = now w
    /\ users (db w') !! uid = Some r''
    /\ subscriber_in_effect r'' (now w') = false
    /\ 0 <= u_credits r''
    /\ u_credits r'' + spent s' = u_credits r' + spent s
    /\ u_credits r'' <= u_credits r'
    /\ (unfailed (u_credits r') s -> spent s = 1 \/ 1 <= u_credits r' ->
        unfailed (u_credits r'') s').
Proof.
  intros Hu Hw Hr Heff0 Hc. pose proof Heff0 as Heff.
  unfold subscriber_in_effect, active_subscriber, perpetual_subscriber in Heff.
  destruct s as [|ud| |c].
  - (* before the SELECT *)
    unfold step, truthy_num. destruct (Z.eqb_spec uid 0) as [|_]; [done|].
    cbn [negb]. rewrite db_read_healthy by done. rewrite Hr. red_fields.
    change (u_is_subscribed r' =? 1) with (flagged r').
    change (truthy_str (u_subscription_expires_at r')) with (has_expiry r').
    change (Date_gt (Date_parse (default "" (u_subscription_expires_at r'))) (now w))
      with (unexpired r' (now w)).
    destruct (flagged r') eqn:Hfl; cbn [andb] in *.
    + destruct (has_expiry r') eqn:Hx; cbn [andb negb orb] in *; [|done].
      rewrite orb_false_r in Heff. rewrite Heff.
      eexists _, w, r'.
      stepped ltac:(exact Hr) ltac:(exact Heff0).
      split; [done|]. split; [done|]. split; [lia|]. intros _ _. simpl. lia.
    + unfold after_check, balance_verdict. red_fields.
      destruct (Z.leb_spec (u_credits r') 0) as [Hle|Hgt]; red_fields.
      * eexists _, w, r'.
        stepped ltac:(exact Hr) ltac:(exact Heff0).
        split; [done|]. split; [done|]. split; [lia|].
        intros _ [E|E]; [done|lia].
      * eexists _, w, r'.
        stepped ltac:(exact Hr) ltac:(exact Heff0).
        split; [done|]. split; [done|]. split; [lia|]. done.
  - (* before the downgrade *)
    unfold step. rewrite (updateSubscriptionStatus_downgrades uid r' w Hw Hr).
    unfold after_check, balance_verdict. red_fields.
    destruct (Z.leb_spec (credits ud) 0) as [Hle|Hgt]; red_fields.
    + eexists _, _, (downgraded r').
      stepped ltac:(simpl; apply lookup_insert_eq) ltac:(reflexivity).
      split; [done|]. split; [done|]. split; [simpl; lia|].
      simpl. intros Hok [E|E]; [done|lia].
    + eexists _, _, (downgraded r').
      stepped ltac:(simpl; apply lookup_insert_eq) ltac:(reflexivity).
      split; [done|]. split; [done|]. split; [simpl; lia|]. done.
  - (* before the conditional update *)
    unfold step, bind. rewrite db_call_healthy by done.
    rewrite (update_deduct_row _ _ _ Hr).
    destruct (Z.ltb_spec 0 (u_credits r')) as [Hpos|Hzero]; cbn [Z.eqb].
    + eexists _, _, (charged r').
      stepped ltac:(simpl; apply lookup_insert_eq) ltac:(exact Heff0).
      split; [simpl; lia|]. split; [unfold spent; simpl; lia|].
      split; [simpl; lia|]. done.
    + rewrite set_db_same.
      eexists _, w, r'.
      stepped ltac:(exact Hr) ltac:(exact Heff0).
      split; [done|]. split; [done|]. split; [lia|].
      intros _ [E|E]; [done|lia].
  - (* settled *)
    eexists _, w, r'.
    stepped ltac:(exact Hr) ltac:(exact Heff0).
    split; [done|]. split; [done|]. split; [lia|]. by intros Hok _.
Qed.

Lemma unfailed_mono c c' s : c' <= c -> unfailed c s -> unfailed c' s.
Proof. destruct s as [|ud| |[| |]]; simpl; try done. lia. Qed.

Lemma spent_range s : spent s = 0 \/ spent s = 1.
Proof. unfold spent. destruct (succeeded s); auto. Qed.

Lemma conserved_swap uid c0 a b w : conserved uid c0 a b w -> conserved uid c0 b a w.
Proof.
  intros (Hw & r' & Hr & Heff & Hc & Hsum & Hok).
  split; [done|]. exists r'. repeat (split; [done|]).
  split; [lia|]. intros H2. destruct (Hok H2). done.
Qed.

Lemma conserved_step uid c0 a b w :
  uid <> 0 -> conserved uid c0 a b w ->
  conserved uid c0 (fst (step uid a w)) b (snd (step uid a w)).
Proof.
  intros Hu (Hw & r' & Hr & Heff & Hc & Hsum & Hok).
  destruct (step_conserves uid a w r' Hu Hw Hr Heff Hc)
    as (a' & w' & r'' & -> & Hw' & Hnow & Hr' & Heff' & Hc' & Hsum' & Hle & Hok').
  simpl. split; [done|]. exists r''. repeat (split; [done|]).
  split; [lia|]. intros H2. destruct (Hok H2) as [Ha Hb]. split.
  - apply Hok'; [done|].
    destruct (spent_range a) as [E|E]; [|by left]. right.
    destruct (spent_range b); lia.
  - by eapply unfailed_mono.
Qed.

Lemma conserved_run uid c0 schedule a b w :
  uid <> 0 -> conserved uid c0 a b w ->
  let '(a', b', w') := run_schedule uid schedule (a, b, w) in
  conserved uid c0 a' b' w'.
Proof.
  intros Hu. revert a b w. induction schedule as [|first rest IH]; intros a b w Hinv.
  - done.
  - unfold run_schedule. cbn [foldl]. fold (run_schedule uid rest).
    unfold step_pair at 2. destruct first.
    + pose proof (conserved_step uid c0 a b w Hu Hinv) as Hnext.
      destruct (step uid a w) as [a' w']. by apply IH.
    + pose proof (conserved_step uid c0 b a w Hu (conserved_swap _ _ _ _ _ Hinv))
        as Hnext.
      destruct (step uid b w) as [b' w']. by apply IH, conserved_swap.
Qed.

(** X26. Two concurrent [deductCredits] calls conserve credits on any
    balance.  For a user whose subscription is not in effect and who
    holds [c >= 0] credits, the store answering: after any interleaving
    of the two calls, finished or not, the stored balance is [c] minus
    one for each call that has succeeded, and is not negative; and when
    [c] is two or more, neither call fails -- once both have settled both
    have succeeded and the balance is [c - 2]. *)
Theorem concurrent_deductions_conserve (uid : Z) (r : UserRow) (w : World)
    (schedule : list bool) :
  uid <> 0 -> healthy w ->
  users (db w) !! uid = Some r -> 0 <= u_credits r ->
  subscriber_in_effect r (now w) = false ->
  let '(a, b, w') := run_schedule uid schedule (BeforeCheck, BeforeCheck, w) in
  exists r',
    users (db w') !! uid = Some r'
    /\ 0 <= u_credits r'
    /\ u_credits r' = u_credits r - spent a - spent b
    /\ (2 <= u_credits r -> is_settled a = true -> is_settled b = true ->
        a = Settled (Normal tt) /\ b = Settled (Normal tt)
        /\ u_credits r' = u_credits r - 2).
Proof.
  intros Hu Hw Hr Hc Heff.
  assert (Hinit : conserved uid (u_credits r) BeforeCheck BeforeCheck w).
  { split; [done|]. exists r. repeat (split; [done|]).
    split; [unfold spent; simpl; lia|]. done. }
  pose proof (conserved_run uid (u_credits r) schedule _ _ _ Hu Hinit) as Hrun.
  destruct (run_schedule uid schedule (BeforeCheck, BeforeCheck, w)) as [[a b] w'].
  destruct Hrun as (Hw' & r' & Hr' & Heff' & Hc' & Hsum & Hok).
  exists r'. split; [done|]. split; [done|]. split; [lia|].
  intros H2 Ha Hb. destruct (Hok H2) as [Oa Ob].
  destruct a as [| | |[[]|ea|]]; try done.
  destruct b as [| | |[[]|eb|]]; try done.
  split; [done|]. split; [done|]. unfold spent in Hsum. simpl in Hsum. lia.
Qed.

End RaceMore.

(* ===================================================================== *)
(** * The rest of the code on concrete worlds *)
(* ===================================================================== *)

Section MoreExamples.
Import CreditService DatabaseTransaction video_routes.

(** Nothing is added for an amount of zero; five credits are added to a
    user who exists. *)
Lemma addCredits_all_or_nothing_witness :
  let w := world_of_user (mkUserRow 2 0 None) [] in
  addCredits 7 0 w = (Throw (new_Error "Credit amount must be positive"), w)
  /\ exists w', addCredits 7 5 w = (Normal tt, w').
Proof.
  intros w. split.
  - destruct (addCredits_all_or_nothing 7 0 w) as (Hrefuse & _).
    apply Hrefuse. lia.
  - destruct (addCredits_all_or_nothing 7 5 w) as (_ & _ & _ & Hadd).
    apply (Hadd eq_refl). lia.
Defined.

(** Two and then three credits, or five at once. *)
Lemma addCredits_adds_up_witness :
  let r := mkUserRow 1 0 None in
  let w := world_of_user r [] in
  exists w1 w2 w12,
    addCredits 7 2 w = (Normal tt, w1)
    /\ addCredits 7 3 w1 = (Normal tt, w2)
    /\ addCredits 7 (2 + 3) w = (Normal tt, w12)
    /\ db w2 = db w12.
Proof.
  intros r w.
  apply (addCredits_adds_up 7 2 3 r w);
    [reflexivity | lia | lia | vm_compute; reflexivity].
Defined.

(** A subscription that ran out in 2020 is downgraded by the first
    check, and the second check changes nothing. *)
Lemma checkCredits_settles_witness :
  let w := world_of_user (mkUserRow 3 1 (Some "2020-01-01T00:00:00.000Z")) [] in
  exists v w1,
    checkCredits (Some 7) w = (Normal v, w1)
    /\ checkCredits (Some 7) w1 = (Normal v, w1).
Proof.
  intros w. apply (@checkCredits_settles demo_host (Some 7) w). reflexivity.
Defined.

(** A user without credits who subscribes until 2030 may proceed and is
    not charged. *)
Lemma updateSubscriptionStatus_takes_effect_witness :
  let r := mkUserRow 0 0 None in
  let w := world_of_user r [] in
  exists w1,
    updateSubscriptionStatus 7 true (Some 1893456000000) w = (Normal tt, w1)
    /\ users (db w1) =
         <[7 := mkUserRow 0 1 (Some "2030-01-01T00:00:00.000Z")]> (users (db w))
    /\ (exists v, checkCredits (Some 7) w1 = (Normal v, w1) /\ canProceed v = true)
    /\ (exists w2, deductCredits 7 None w1 = (Normal tt, w2) /\ db w2 = db w1).
Proof.
  intros r w.
  destruct (@updateSubscriptionStatus_takes_effect demo_host 7 (Some 1893456000000) w
              eq_refl ltac:(lia)) as (_ & Hrow).
  apply (Hrow r); [vm_compute; reflexivity|].
  intros d [= <-]. split; [discriminate|]. split; [reflexivity|].
  vm_compute. reflexivity.
Defined.

(** A user without credits is denied by the check, and the deduction
    fails with the reason of the check. *)
Lemma deductCredits_follows_check_witness :
  let w := world_of_user (mkUserRow 0 0 None) [] in
  exists v w1,
    checkCredits (Some 7) w = (Normal v, w1)
    /\ (canProceed v = false ->
        exists why,
          reason v = Some why /\ In why denial_reasons
          /\ deductCredits 7 None w = (Throw (new_HttpError why 402), w1))
    /\ (canProceed v = true ->
        exists w2, deductCredits 7 None w = (Normal tt, w2)).
Proof.
  intros w. apply (@deductCredits_follows_check demo_host 7 w). reflexivity.
Defined.

(** The flag is stored, the subscription ran out in 2020: the record
    reported says the user is not subscribed. *)
Lemma getUserCredits_reports_witness :
  let r := mkUserRow 3 1 (Some "2020-01-01T00:00:00.000Z") in
  let w := world_of_user r [] in
  exists u w1,
    getUserCredits 7 w = (Normal (Some u), w1)
    /\ id u = 7 /\ credits u = 3 /\ isSubscribed u = false.
Proof.
  intros r w.
  destruct (@getUserCredits_reports demo_host 7 w eq_refl) as (_ & Hrow).
  apply (Hrow r); [lia | vm_compute; reflexivity].
Defined.

(** The subscription, active in 2026, has run out when the operation
    fails in 2030: the user ends with four credits instead of three. *)
Lemma executeWithRollback_refunds_by_state_at_refund_witness :
  let r := mkUserRow 3 1 (Some "2030-01-01T00:00:00.000Z") in
  let w := world_of_user r [] in
  let w1 := snd (deductCredits 7 None w) in
  let w2 := at_time spring_2030 w1 in
  db w1 = db w
  /\ exists w3,
       executeWithRollback 7 slow_failure w = (Throw upstream_unavailable, w3)
       /\ users (db w3) = <[7 := mkUserRow 4 0 None]> (users (db w2)).
Proof.
  intros r w w1 w2.
  apply (@executeWithRollback_refunds_by_state_at_refund demo_host unit 7 r
           slow_failure w w1 w2 upstream_unavailable);
    first [reflexivity | lia | vm_compute; reflexivity].
Defined.

(** The callback adds one insert and answers 42; the batch commits. *)
Lemma executeTransaction_contract_witness :
  fst (executeTransaction adding_callback (idle_world [])) = Normal 42.
Proof.
  destruct (@executeTransaction_contract demo_host Z adding_callback (idle_world []))
    as (_ & Hreturned).
  destruct (Hreturned 42 (mkDatabaseTransaction [caption_op] false) (idle_world [])
              eq_refl) as (_ & Hfresh).
  destruct (Hfresh eq_refl) as (Hcommitted & _).
  erewrite Hcommitted; [reflexivity|]. vm_compute. reflexivity.
Defined.

(** A batch run while a transaction is open ends the process; the
    caption that transaction had written is neither committed nor rolled
    back. *)
Lemma execute_does_not_nest_witness :
  let this := mkDatabaseTransaction [caption_op] false in
  let w := world_in_transaction in
  exists w',
    snd (execute this) w = (Exit, w')
    /\ captions (db w') = [first_caption] /\ txn w' = Some no_tables.
Proof.
  intros this w.
  destruct (@execute_does_not_nest demo_host this w eq_refl) as (Hnested & _).
  destruct (Hnested no_tables eq_refl eq_refl) as (w' & Hrun & Hdb & Htxn & _).
  exists w'. split; [exact Hrun|]. by rewrite Hdb, Htxn.
Defined.

(** A SELECT that finds no row, run on its own: the call resolves with
    [undefined]. *)
Lemma executeWithTransaction_one_statement_witness :
  let w := idle_world [] in
  exists w',
    executeWithTransaction "SELECT * FROM users WHERE id = ?" (Some [VInt 9]) w =
      (Normal None, w')
    /\ txn w' = None /\ db w' = db w.
Proof.
  intros w.
  destruct (@executeWithTransaction_one_statement demo_host
              "SELECT * FROM users WHERE id = ?" (Some [VInt 9]) w eq_refl eq_refl)
    as (c & w' & Hrun & Hclosed & Hselect & _).
  destruct (Hselect ltac:(vm_compute; reflexivity)) as [-> Hdb].
  by exists w'.
Defined.

(** A title in Hangul, a space and an exclamation mark. *)
Lemma sanitizeFilename_empty_witness :
  FileManager.sanitizeFilename [0xD55C; 0xAE00; 32; 33] 20 = [].
Proof.
  apply sanitizeFilename_empty.
  repeat constructor.
Defined.

(** Two tags come back as they were stored. *)
Lemma hashtags_round_trip_witness :
  cvw_hashtags
    (caption_view (mkCaptionRow 1 1 "youtube" "hello" (Some (join_commas ["tips"; "howto"]))))
  = ["tips"; "howto"].
Proof.
  destruct (hashtags_round_trip tagged_caption 1 1) as (Hback & _).
  apply Hback; [discriminate|]. repeat constructor.
Defined.

(** The batch of an analysis with one caption: one insert, with the
    hashtags joined. *)
Lemma transactionOperations_shape_witness :
  transactionOperations 1 (mkVideoAnalysisResult [] [] [tagged_caption]) !! 0%nat =
    Some (mkTransactionOperation INSERT_caption
            (Some [VInt 1; VText "youtube"; VText "hello"; VText "tips,howto"])).
Proof.
  destruct (@transactionOperations_shape demo_host 1
              (mkVideoAnalysisResult [] [] [tagged_caption]))
    as (_ & _ & _ & Hcaptions & _).
  apply (Hcaptions 0%nat tagged_caption). reflexivity.
Defined.

(** An anonymous job is shown to an anonymous requester. *)
Lemma get_process_decides_witness :
  let w := job_started [] in
  exists resp, get_process (anonymous_request "1") w = (Normal resp, w).
Proof.
  intros w.
  exact (@get_process_decides demo_host (anonymous_request "1") w eq_refl).
Defined.

(** An anonymous request for the one video creates job 1, without an
    owner. *)
Lemma post_process_validates_witness :
  let w := world_with_video (mkUserRow 0 0 None) [] in
  fst (post_process (anonymous_request "1") w) =
    Normal (mkProcessingStartResponse "Processing started" 1,
            background_task None talk_mp4 1 1)
  /\ job_of (snd (post_process (anonymous_request "1") w)) 1 =
       Some (mkJobRow 1 None "processing" 0 None).
Proof.
  intros w.
  destruct (@post_process_validates demo_host (anonymous_request "1") w eq_refl)
    as (_ & _ & Hcreated).
  destruct (Hcreated 1 talk_mp4 eq_refl ltac:(vm_compute; reflexivity) eq_refl)
    as (Hpost & _).
  rewrite Hpost. split; [reflexivity|]. vm_compute. reflexivity.
Defined.

(** The clip file of job 1 is there, and is deleted. *)
Lemma deleteFile_contract_witness :
  let w := world_with_clip_file in
  exists w',
    fileManager.deleteFile "clips/clip_1_0.mp4" w = (Normal true, w')
    /\ files w' = files w ∖ {[ "./uploads/clips/clip_1_0.mp4" ]}.
Proof.
  intros w.
  destruct (@deleteFile_contract demo_host "clips/clip_1_0.mp4" w)
    as (b & w' & Hdel & _ & _ & Hfiles & Hanswer).
  destruct (Hanswer eq_refl) as (_ & Hb).
  vm_compute in Hb. subst b. exists w'. split; [exact Hdel|]. apply Hfiles.
Defined.

(** Cleaning up job 1 removes its clip file and keeps the upload. *)
Lemma cleanupProcessingFiles_removes_witness :
  let w := world_with_clip_file in
  exists w',
    fileManager.cleanupProcessingFiles 1 w = (Normal tt, w')
    /\ db w' = db w
    /\ forall p,
         p ∈ files w' <->
         p ∈ files w /\ ~ listed (job_file_paths 1 (db w)) p.
Proof.
  intros w. apply (@cleanupProcessingFiles_removes demo_host 1 w). reflexivity.
Defined.

(** The engine of the concrete hosts keeps to the derived tables. *)
Lemma demo_engine_keeps_ledger : @engine_keeps_ledger offline_host.
Proof.
  intros q ps t info t' _ Hrun. simpl in Hrun. unfold demo_sql_run in Hrun.
  repeat case_match; try discriminate; by injection Hrun as _ <-.
Qed.



(** User 7, with two credits, asks for video 1 to be processed. *)
Lemma process_request_lifecycle_witness :
  let r := mkUserRow 2 0 None in
  let w := world_with_video r [] in
  let req := mkRequest "1" (Some alice) in
  exists resp task w1,
    @post_process offline_host req w = (Normal (resp, task), w1)
    /\ processing_results (db w) !! processingId resp = None
    /\ job_of w1 (processingId resp) = Some (mkJobRow 1 (Some 7) "processing" 0 None)
    /\ credits_of w1 7 = Some 2
    /\ exists w2,
         task w1 = (Normal tt, w2)
         /\ ((job_of w2 (processingId resp) =
                Some (mkJobRow 1 (Some 7) "completed" 100 None)
              /\ credits_of w2 7 = Some (2 - 1))
             \/ (exists cause,
                   job_of w2 (processingId resp) =
                     Some (mkJobRow 1 (Some 7) "failed" 0
                             (Some ("Transaction failed: " +:+ cause)))
                   /\ credits_of w2 7 = Some 2)).
Proof.
  intros r w req.
  apply (@process_request_lifecycle offline_host req alice 1 talk_mp4 r w);
    first [ exact demo_engine_keeps_ledger | reflexivity | discriminate | lia
          | vm_compute; reflexivity ].
Defined.

(** Three credits, two calls taking turns: both succeed, one credit is
    left. *)
Lemma concurrent_deductions_conserve_witness :
  let r := mkUserRow 3 0 None in
  let w := world_of_user r [] in
  let '(a, b, w') :=
    DeductionSteps.run_schedule 7 [true; false; true; false; true; false]
      (BeforeCheck, BeforeCheck, w) in
  exists r',
    users (db w') !! 7 = Some r'
    /\ 0 <= u_credits r'
    /\ u_credits r' = 3 - spent a - spent b
    /\ (2 <= 3 -> is_settled a = true -> is_settled b = true ->
        a = Settled (Normal tt) /\ b = Settled (Normal tt) /\ u_credits r' = 3 - 2).
Proof.
  intros r w.
  apply (@concurrent_deductions_conserve demo_host 7 r w
           [true; false; true; false; true; false]);
    first [ reflexivity | lia | vm_compute; reflexivity | simpl; lia ].
Defined.

End MoreExamples.
